(** * rpi-robot-core: the voice pipeline (wake listener, voice gateway,
      dialogue router)

    A shallow embedding of [services/voice_gateway/wake_listener.py],
    [services/voice_gateway/voice_gateway.py] and
    [services/dialogue_router/dialogue_router.py].

    Every coroutine is a computation in a small monad that records the
    observable effects of the code (processes spawned and stopped, protocol
    writes, bus publishes) as a trace of [action]s, threads the local
    variables the [finally] blocks read, and propagates Python exceptions.
    What the outside world answers (does the process exit on SIGTERM, which
    event does the recognizer send and when, does a write fail) is an
    explicit environment argument, so that every claim quantifies over all
    environments. *)

From Stdlib Require Import List ZArith QArith Qminmax Bool String Ascii Lia Lqa.
From Stdlib Require Import DecimalString Strings.Byte.
Import ListNotations.

Set Implicit Arguments.
Set Warnings "-register-all".
Local Open Scope Z_scope.

(* ================================================================== *)
(** ** Python values *)

(** A Python [str] is a sequence of code points. *)
Definition text := list N.

(** An ASCII literal as a [text]. *)
Definition T (s : string) : text := map N_of_ascii (list_ascii_of_string s).

Fixpoint text_eqb (a b : text) : bool :=
  match a, b with
  | [], [] => true
  | x :: a', y :: b' => N.eqb x y && text_eqb a' b'
  | _, _ => false
  end.

(** [str(n)] for an [int]. *)
Definition str_of_Z (z : Z) : text := T (NilZero.string_of_int (Z.to_int z)).

(** [str.isspace] on one code point (CPython's [_PyUnicode_IsWhitespace]). *)
Definition py_isspace (c : N) : bool :=
  ((9 <=? c) && (c <=? 13) || (28 <=? c) && (c <=? 32)
   || (c =? 133) || (c =? 160) || (c =? 5760)
   || (8192 <=? c) && (c <=? 8202)
   || (c =? 8232) || (c =? 8233) || (c =? 8239) || (c =? 8287)
   || (c =? 12288))%N.

Fixpoint lstrip (s : text) : text :=
  match s with
  | c :: s' => if py_isspace c then lstrip s' else s
  | [] => []
  end.

(** [str.strip()] *)
Definition strip (s : text) : text := rev (lstrip (rev (lstrip s))).

(** [s.startswith(p)] *)
Fixpoint startswith (p s : text) : bool :=
  match p, s with
  | [], _ => true
  | x :: p', y :: s' => N.eqb x y && startswith p' s'
  | _ :: _, [] => false
  end.

(** [p in s] for strings. *)
Fixpoint contains (p s : text) : bool :=
  startswith p s || match s with [] => false | _ :: s' => contains p s' end.

(** [s.split(sep, 1)[0]] for a separator of one character: what comes
    before its first occurrence, all of [s] when there is none. *)
Fixpoint before (sep : N) (s : text) : text :=
  match s with
  | [] => []
  | c :: s' => if N.eqb c sep then [] else c :: before sep s'
  end.

(** [s.lstrip(chars)] *)
Fixpoint lstrip_chars (chars s : text) : text :=
  match s with
  | c :: s' => if existsb (N.eqb c) chars then lstrip_chars chars s' else s
  | [] => []
  end.

(** [s.rstrip(chars)] *)
Definition rstrip_chars (chars s : text) : text := rev (lstrip_chars chars (rev s)).

Definition bytes := list byte.

(** The values [json.dumps] serialises and [json.loads] returns. *)
Inductive json :=
| JNull
| JBool (b : bool)
| JInt (z : Z)
| JFloat (q : Q)
| JStr (s : text)
| JArr (items : list json)
| JObj (fields : list (text * json)).

(** [d.get(k)] on a dict, [None] when the key is absent. *)
Fixpoint dict_get (k : text) (d : list (text * json)) : json :=
  match d with
  | [] => JNull
  | (k', v) :: d' => if text_eqb k k' then v else dict_get k d'
  end.

(** Python truth value of a decoded JSON value. *)
Definition truthy (j : json) : bool :=
  match j with
  | JNull => false
  | JBool b => b
  | JInt z => negb (z =? 0)
  | JFloat q => negb (Qeq_bool q 0)
  | JStr s => match s with [] => false | _ => true end
  | JArr l => match l with [] => false | _ => true end
  | JObj f => match f with [] => false | _ => true end
  end.

(** What is handed to [publish]: plain text, or the object given to
    [json.dumps]. *)
Inductive payload :=
| PText (t : text)
| PJson (j : json).

(* ================================================================== *)
(** ** Observable effects *)

(** The two services that record from the microphone with [arecord]. *)
Inductive holder := Wake | Capture.

(** The recognition services a session talks to. *)
Inductive peer := WakeServer | SttServer | TtsServer.

(** Events the code writes to a recognition session. *)
Inductive out_event :=
| AudioStart
| AudioChunk (audio : bytes)
| AudioStop
| Synthesize (t : text).

(** Python exceptions the code meets. *)
Inductive exn :=
| TimeoutError          (* asyncio.TimeoutError *)
| SpawnError            (* create_subprocess_exec / Popen failed *)
| ConnectError          (* AsyncClient.connect failed *)
| WriteError            (* write_event failed *)
| ReadError             (* read_event / stdout.read failed *)
| AudioopError.         (* audioop.error, struct.error *)

Inductive log_site :=
| LogMqtt (topic payload : text)
| LogSttBusy
| LogSttStart (seconds : Z)
| LogSttReadTimeout
| LogSttGot (type : text) (transcript : option json)
| LogArecordStderr
| LogSttExit (transcript : option json)
| LogSttError (e : exn)
| LogTts (t : text)
| LogTtsNoAudio
| LogTtsPlaying
| LogAplayFailed
| LogWakeStart
| LogWakeDetected (p : payload)
| LogWakePausing
| LogBeepFailed
| LogWakeError (e : exn)
| LogDialogue (heard reply : text)
| LogDialogueError.

Inductive action :=
| Log (site : log_site)
| Connect (p : peer)
| Disconnect (p : peer)
| Send (p : peer) (e : out_event)
| Recv (p : peer)                       (* one [read_event] that returned *)
| Spawn (h : holder) (duration : option Z)  (* arecord started; [-d duration] *)
| Terminate (h : holder)                (* proc.terminate() *)
| Kill (h : holder)                     (* proc.kill() *)
| Exited (h : holder)                   (* the owner saw the process exited *)
| WaitTimedOut (h : holder)             (* a bounded wait for exit expired *)
| StartPump                             (* asyncio.create_task(pump_current_proc(proc)) *)
| CancelPump                            (* pump_task.cancel() *)
| AwaitPump                             (* await pump_task, completed *)
| Publish (topic : text) (p : payload)
| Beep
| Sleep (seconds : Q)
| SetBusy
| ClearBusy
| SpawnAplay (wav : bytes).

Definition trace := list action.

(* ================================================================== *)
(** ** The coroutine monad

    A computation starts from the values [S] of the local variables and
    yields the actions it performed, the variables as it left them, and
    how it ended: with a value, by raising, or still suspended on input
    that has not arrived ([Pending]: the trace is a prefix of a longer
    run, and no [finally] block has run). *)

Inductive result (A : Type) :=
| Ok (a : A)
| Raise (e : exn)
| Pending.
Arguments Raise {A} e.
Arguments Pending {A}.

Definition M (S A : Type) := S -> trace * S * result A.

Definition ret {S A} (a : A) : M S A := fun s => ([], s, Ok a).

Definition bind {S A B} (m : M S A) (f : A -> M S B) : M S B :=
  fun s =>
    match m s with
    | (tr, s', Ok a) => let '(tr', s'', r) := f a s' in (tr ++ tr', s'', r)
    | (tr, s', Raise e) => (tr, s', Raise e)
    | (tr, s', Pending) => (tr, s', Pending)
    end.

Definition emit {S} (a : action) : M S unit := fun s => ([a], s, Ok tt).
Definition raise {S A} (e : exn) : M S A := fun s => ([], s, Raise e).
Definition pending {S A} : M S A := fun s => ([], s, Pending).
Definition get {S} : M S S := fun s => ([], s, Ok s).
Definition put {S} (s : S) : M S unit := fun _ => ([], s, Ok tt).

(** [try: m finally: fin].  An exception of [fin] replaces the outcome of
    [m]; a suspended [m] has not reached its [finally]. *)
Definition try_finally {S A} (m : M S A) (fin : M S unit) : M S A :=
  fun s =>
    match m s with
    | (tr, s', Pending) => (tr, s', Pending)
    | (tr, s', r) =>
        match fin s' with
        | (tr', s'', Ok _) => (tr ++ tr', s'', r)
        | (tr', s'', Raise e) => (tr ++ tr', s'', Raise e)
        | (tr', s'', Pending) => (tr ++ tr', s'', Pending)
        end
    end.

(** [try: m except E: h] where [catches e] says whether [E] matches. *)
Definition try_except {S A} (m : M S A) (catches : exn -> bool) (h : exn -> M S A)
  : M S A :=
  fun s =>
    match m s with
    | (tr, s', Raise e) =>
        if catches e then let '(tr', s'', r) := h e s' in (tr ++ tr', s'', r)
        else (tr, s', Raise e)
    | other => other
    end.

Declare Scope monad_scope.
Delimit Scope monad_scope with monad.
Notation "x <- m ;; k" := (bind m (fun x => k))
  (at level 61, m at next level, right associativity) : monad_scope.
Notation "m ;; k" := (bind m (fun _ => k))
  (at level 61, right associativity) : monad_scope.

(** An I/O step that either happens (and is recorded) or raises. *)
Definition io {S} (ok : bool) (a : action) (e : exn) : M S unit :=
  if ok then emit a else raise e.

Definition is_timeout (e : exn) : bool :=
  match e with TimeoutError => true | _ => false end.

(** [a < b] on clock readings. *)
Definition Qltb (a b : Q) : bool := negb (Qle_bool b a).

(** What was published on a topic, in order. *)
Fixpoint published (topic : text) (tr : trace) : list payload :=
  match tr with
  | [] => []
  | Publish t p :: tr' =>
      if text_eqb t topic then p :: published topic tr' else published topic tr'
  | _ :: tr' => published topic tr'
  end.

(** Whether the last thing known of [h]'s arecord is that it runs: it was
    spawned and its owner has not yet seen it exit. *)
Fixpoint holder_active (h : holder) (active : bool) (tr : trace) : bool :=
  match tr with
  | [] => active
  | Spawn h' _ :: tr' =>
      holder_active h (match h, h' with Wake, Wake | Capture, Capture => true | _, _ => active end) tr'
  | Exited h' :: tr' =>
      holder_active h (match h, h' with Wake, Wake | Capture, Capture => false | _, _ => active end) tr'
  | _ :: tr' => holder_active h active tr'
  end.

(* ================================================================== *)
(** ** wake_listener.py *)

Module WakeListener.

(** The configuration read from the environment. *)
Class Config := {
  BASE : text;            (* MQTT_BASE, default "robot" *)
  CAPTURE_SECS : Z;       (* STT_SECONDS_DEFAULT, default 3 *)
  WAKE_COOLDOWN : Z       (* WAKE_COOLDOWN_SECS, default 1 *)
}.

(** A Wyoming event as the wake loop reads it: [evt.type] and [evt.data]. *)
Record event := { ev_type : text; ev_data : list (text * json) }.

(** What [pump_task.cancel(); await pump_task] finds when the task has
    not been awaited before. *)
Inductive pump_end :=
| StillRunning            (* cancelled; the await ends with CancelledError *)
| ReachedEof              (* the pump had returned: arecord closed its stdout *)
| Crashed (e : exn).      (* the pump had raised; the await raises it again *)

(** How the arecord process answers [stop_arecord]. *)
Inductive stop_outcome :=
| AlreadyExited           (* proc.returncode is not None *)
| ExitsOnTerminate        (* exits within 1 s of SIGTERM *)
| ExitsOnKill             (* the first wait times out; exits within 1 s of SIGKILL *)
| Unresponsive.           (* both waits time out *)

(** What the outside world does while one accepted wake event is handled. *)
Record handoff_env := {
  beep_ok : bool;               (* Popen([BEEP_PATH]) succeeds *)
  pump_at_cancel : pump_end;
  stop : stop_outcome;
  respawn_ok : bool             (* the second spawn_arecord succeeds *)
}.

(** One turn of [while True: evt = await client.read_event()].  [now] is
    what [time.time()] returns on line 157 when the event is handled. *)
Inductive input :=
| Closed                                            (* read_event returned None *)
| ReadFails (e : exn)                               (* read_event raised *)
| Event (e : event) (now : Q) (h : handoff_env).

Record startup_env := { connect_ok : bool; start_ok : bool; spawn_ok : bool }.

Record cleanup_env := {
  c_pump : pump_end;
  c_stop : stop_outcome;
  c_drained : bool;             (* proc.communicate() returns within 0.5 s *)
  c_stderr : bool               (* ... with a non-empty stderr *)
}.

(** The state of the asyncio task held in [pump_task]. *)
Inductive task_state := TaskLive | TaskCancelled | TaskDone | TaskFailed (e : exn).

(** The local variables of [stream_and_listen]. *)
Record vars := {
  last_wake_ts : Q;
  pump_task : task_state;
  proc_exited : bool            (* proc.returncode is not None *)
}.

Definition set_last (t : Q) (v : vars) : vars :=
  {| last_wake_ts := t; pump_task := pump_task v; proc_exited := proc_exited v |}.
Definition set_task (t : task_state) (v : vars) : vars :=
  {| last_wake_ts := last_wake_ts v; pump_task := t; proc_exited := proc_exited v |}.
Definition set_exited (b : bool) (v : vars) : vars :=
  {| last_wake_ts := last_wake_ts v; pump_task := pump_task v; proc_exited := b |}.

Definition modify (f : vars -> vars) : M vars unit := fun v => ([], f v, Ok tt).

Local Open Scope monad_scope.

Section Code.
Context {cfg : Config}.

Definition TOPIC_WAKE : text := BASE ++ T "/wake/detected".
Definition TOPIC_STT_CAPTURE : text := BASE ++ T "/stt/capture".

(** [mqtt_publish]: nothing happens while [_mqtt is None]. *)
Definition mqtt_publish (mqtt : bool) (topic : text) (p : payload) : M vars unit :=
  if mqtt then emit (Publish topic p) else ret tt.

(** [play_beep_async]: a failure of [Popen] is logged, not raised. *)
Definition play_beep_async (ok : bool) : M vars unit :=
  if ok then emit Beep else emit (Log LogBeepFailed).

(** [spawn_arecord] followed by the assignment to [proc]. *)
Definition spawn_arecord (ok : bool) : M vars unit :=
  emit (Log LogWakeStart);;
  io ok (Spawn Wake None) SpawnError;;
  modify (set_exited false).

(** [stop_arecord(proc)] *)
Definition stop_arecord (o : stop_outcome) : M vars unit :=
  v <- get;;
  if proc_exited v then ret tt
  else match o with
       | AlreadyExited => emit (Exited Wake);; modify (set_exited true)
       | ExitsOnTerminate =>
           emit (Terminate Wake);; emit (Exited Wake);; modify (set_exited true)
       | ExitsOnKill =>
           emit (Terminate Wake);; emit (WaitTimedOut Wake);;
           emit (Kill Wake);; emit (Exited Wake);; modify (set_exited true)
       | Unresponsive =>
           emit (Terminate Wake);; emit (WaitTimedOut Wake);;
           emit (Kill Wake);; emit (WaitTimedOut Wake)
       end.

(** [pump_task.cancel()] then [with suppress(CancelledError): await pump_task] *)
Definition cancel_and_await (p : pump_end) : M vars unit :=
  emit CancelPump;;
  v <- get;;
  match pump_task v with
  | TaskLive =>
      match p with
      | StillRunning => modify (set_task TaskCancelled);; emit AwaitPump
      | ReachedEof => modify (set_task TaskDone);; emit AwaitPump
      | Crashed e => modify (set_task (TaskFailed e));; emit AwaitPump;; raise e
      end
  | TaskCancelled | TaskDone => emit AwaitPump
  | TaskFailed e => emit AwaitPump;; raise e
  end.

Definition wake_payload (e : event) : payload :=
  PJson (JObj [ (T "name", dict_get (T "name") (ev_data e));
                (T "probability", dict_get (T "probability") (ev_data e));
                (T "timestamp", dict_get (T "timestamp") (ev_data e)) ]).

Definition is_wake (e : event) : bool := text_eqb (ev_type e) (T "wake").

(** Lines 160-188: what follows the cooldown test for an accepted wake
    event. *)
Definition handoff (mqtt : bool) (e : event) (now : Q) (h : handoff_env)
  : M vars unit :=
  modify (set_last now);;
  emit (Log (LogWakeDetected (wake_payload e)));;
  mqtt_publish mqtt TOPIC_WAKE (wake_payload e);;
  play_beep_async (beep_ok h);;
  emit (Log LogWakePausing);;
  cancel_and_await (pump_at_cancel h);;
  stop_arecord (stop h);;
  mqtt_publish mqtt TOPIC_STT_CAPTURE (PText (str_of_Z CAPTURE_SECS));;
  emit (Sleep (inject_Z CAPTURE_SECS + (2 # 10)));;
  spawn_arecord (respawn_ok h);;
  emit StartPump;;
  modify (set_task TaskLive).

(** Lines 156-188: the body of [if et == "wake":]. *)
Definition on_wake (mqtt : bool) (e : event) (now : Q) (h : handoff_env)
  : M vars unit :=
  v <- get;;
  if Qltb (now - last_wake_ts v) (inject_Z WAKE_COOLDOWN) then ret tt   (* continue *)
  else handoff mqtt e now h.

(** Lines 148-188: the [while True] loop.  When the inputs run out the
    coroutine is suspended in [read_event]. *)
Fixpoint listen_loop (mqtt : bool) (inputs : list input) : M vars unit :=
  match inputs with
  | [] => pending
  | Closed :: _ => emit (Recv WakeServer)             (* break *)
  | ReadFails e :: _ => raise e
  | Event e now h :: rest =>
      emit (Recv WakeServer);;
      (if is_wake e then on_wake mqtt e now h else ret tt);;
      listen_loop mqtt rest
  end.

(** Lines 190-208: the [finally] block. *)
Definition cleanup (c : cleanup_env) : M vars unit :=
  cancel_and_await (c_pump c);;
  stop_arecord (c_stop c);;
  v <- get;;
  (if proc_exited v || c_drained c
   then (if proc_exited v then ret tt else emit (Exited Wake);; modify (set_exited true));;
        (if c_stderr c then emit (Log LogArecordStderr) else ret tt)
   else ret tt);;
  emit (Disconnect WakeServer).

Definition initial_vars : vars :=
  {| last_wake_ts := 0; pump_task := TaskLive; proc_exited := false |}.

(** [stream_and_listen()] *)
Definition stream_and_listen (mqtt : bool) (s : startup_env)
    (inputs : list input) (c : cleanup_env) : M vars unit :=
  io (connect_ok s) (Connect WakeServer) ConnectError;;
  io (start_ok s) (Send WakeServer AudioStart) WriteError;;
  spawn_arecord (spawn_ok s);;
  modify (set_last 0);;
  emit StartPump;;
  modify (set_task TaskLive);;
  try_finally (listen_loop mqtt inputs) (cleanup c).

(** The trace and the outcome of one call. *)
Definition run_stream (mqtt : bool) (s : startup_env) (inputs : list input)
    (c : cleanup_env) : trace * result unit :=
  let '(tr, _, r) := stream_and_listen mqtt s inputs c initial_vars in (tr, r).

(** [main_async()] after [mqtt_connect()]: the restart loop over
    successive calls, each with its own environment. *)
Fixpoint main_async (calls : list (startup_env * list input * cleanup_env))
  : trace * result unit :=
  match calls with
  | [] => ([], Pending)
  | (s, inputs, c) :: rest =>
      match run_stream true s inputs c with
      | (tr, Pending) => (tr, Pending)
      | (tr, Ok _) =>
          let '(tr', r) := main_async rest in (tr ++ Sleep (1 # 2) :: tr', r)
      | (tr, Raise e) =>
          let '(tr', r) := main_async rest in
          (tr ++ Log (LogWakeError e) :: Sleep (1 # 2) :: tr', r)
      end
  end.

End Code.
End WakeListener.

(* ================================================================== *)
(** ** voice_gateway.py *)

Module VoiceGateway.

Class Config := {
  BASE : text;               (* MQTT_BASE, default "robot" *)
  STT_SECS_DEFAULT : Z       (* STT_SECONDS_DEFAULT, default 3 *)
}.

(** The functions of the Python library the gateway calls on data.  Each
    returns [None] where the Python function raises. *)
Class PyLib := {
  int_float : text -> option Z;                         (* int(float(s)) *)
  tomono : bytes -> Z -> option bytes;                  (* audioop.tomono(d, width, 0.5, 0.5) *)
  lin2lin : bytes -> Z -> Z -> option bytes;            (* audioop.lin2lin(d, width, newwidth) *)
  ratecv : bytes -> Z -> Z -> Z -> Z -> option bytes    (* audioop.ratecv(d, width, nchannels, inrate, outrate, None)[0] *)
}.

(** An event read from the speech-to-text session: [evt.type] and
    [evt.data.get("text")], any JSON value ([JNull] when the field is
    absent or null, or when the event has no data). *)
Record event := { type : text; text_field : json }.

Inductive read_result :=
| GotEvent (ev : event)
| StreamClosed                 (* read_event returned None *)
| ReadFailed (e : exn).

(** How the loop over [proc.stdout.read(CHUNK)] ends once the scripted
    chunks are used up: with an empty read, or with an exception
    ([TimeoutError] is the expiry of the [seconds + 2] read timeout). *)
Inductive pump_stop := StopEof | StopRaise (e : exn).

(** How [wait_for(proc.communicate(), timeout=2)] ends. *)
Inductive comm_outcome :=
| CommExited (stderr : bool)   (* arecord has exited; was stderr non-empty *)
| CommNotExited.               (* timeout or another exception, swallowed *)

(** What one capture session meets. *)
Record capture_env := {
  spawn_ok : bool;
  connect_ok : bool;
  start_ok : bool;                          (* write_event(AudioStart) *)
  chunks : list (bytes * bool);             (* successive reads, and whether
                                               write_event(AudioChunk) succeeds *)
  stop : pump_stop;
  stop_ok : bool;                           (* write_event(AudioStop) *)
  t0 : Q;                                   (* time.time() on line 159 *)
  arrivals : list (Q * read_result);        (* what the session delivers, and when *)
  communicate : comm_outcome
}.

(** The synthesis reply read by [_synth]. *)
Record audio_format := { rate : Z; width : Z; channels : Z }.

Inductive tts_reply :=
| TClosed
| TAudioStart (fmt : audio_format)
| TAudioChunk (audio : bytes)
| TAudioStop
| TOther
| TReadFails (e : exn).

(** [Popen(cmd)] fails; or aplay starts and writing to it or waiting for
    it fails; or it plays. *)
Inductive aplay_outcome := AplayOk | AplaySpawnFails | AplayFailsLate.

Record tts_env := {
  tts_connect_ok : bool;
  tts_write_ok : bool;
  replies : list tts_reply;
  aplay : aplay_outcome
}.

Local Open Scope monad_scope.

Section Code.
Context {cfg : Config} {lib : PyLib}.

Definition TOPIC_TTS_SAY : text := BASE ++ T "/tts/say".
Definition TOPIC_STT_CAP : text := BASE ++ T "/stt/capture".
Definition TOPIC_STT_TEXT : text := BASE ++ T "/stt/text".

(* ---------------------------------------------------------------- *)
(** *** The environment helpers (the same in wake_listener.py) *)

(** [_clean_env(name, default)]; [environ] is [os.environ.get] and
    [default] is [str(default)]. *)
Definition _clean_env (environ : text -> option text) (name default : text) : text :=
  let val := match environ name with Some v => v | None => default end in
  strip (before 35 val).

Definition env_str (environ : text -> option text) (name default : text) : text :=
  _clean_env environ name default.

(** [env_int(name, default)]; [None] where [int(float(...))] raises. *)
Definition env_int (environ : text -> option text) (name : text) (default : Z) : option Z :=
  int_float (_clean_env environ name (str_of_Z default)).

(** Line 21: [BASE = env_str("MQTT_BASE", "robot")] *)
Definition base_of (environ : text -> option text) : text :=
  env_str environ (T "MQTT_BASE") (T "robot").

(* ---------------------------------------------------------------- *)
(** *** tts_play_48k *)

Definition ascii_bytes (s : string) : bytes := map byte_of_ascii (list_ascii_of_string s).

Definition byte_of_Z (z : Z) : byte :=
  match Byte.of_N (Z.to_N (z mod 256)) with Some b => b | None => x00 end.

(** [struct.pack('<H', n)] and [struct.pack('<L', n)] *)
Definition le16 (n : Z) : bytes := [byte_of_Z n; byte_of_Z (n / 256)].
Definition le32 (n : Z) : bytes :=
  [byte_of_Z n; byte_of_Z (n / 256); byte_of_Z (n / 65536); byte_of_Z (n / 16777216)].

(** What [wave.open(bio, "wb")] leaves in [bio] after [setnchannels],
    [setsampwidth], [setframerate], [writeframes(frames)] and close;
    [None] where [struct.pack] refuses a size of 2^32 or more. *)
Definition wav_file (nchannels sampwidth framerate : Z) (frames : bytes) : option bytes :=
  let n := Z.of_nat (List.length frames) in
  if 36 + n <? 2 ^ 32 then
    Some (ascii_bytes "RIFF" ++ le32 (36 + n) ++ ascii_bytes "WAVE"
          ++ ascii_bytes "fmt " ++ le32 16 ++ le16 1 ++ le16 nchannels
          ++ le32 framerate ++ le32 (nchannels * framerate * sampwidth)
          ++ le16 (nchannels * sampwidth) ++ le16 (sampwidth * 8)
          ++ ascii_bytes "data" ++ le32 n ++ frames)
  else None.

(** [x or d] on an [int]. *)
Definition or_default (x d : Z) : Z := if x =? 0 then d else x.

Definition lift_opt {S A} (o : option A) (e : exn) : M S A :=
  match o with Some a => ret a | None => raise e end.

(** Lines 88-113 of [_synth]: from the format and the samples received to
    the bytes handed to aplay; [None] is [return None]. *)
Definition to_wav_48k (fmt : option audio_format) (pcm : bytes) : M unit (option bytes) :=
  match fmt, pcm with
  | None, _ | _, [] => ret None
  | Some f, _ =>
      let width := or_default (width f) 2 in
      let channels := or_default (channels f) 1 in
      let rate := or_default (rate f) 16000 in
      data <- (if channels =? 2 then lift_opt (tomono pcm width) AudioopError else ret pcm);;
      data <- (if negb (width =? 2) then lift_opt (lin2lin data width 2) AudioopError else ret data);;
      resamp <- lift_opt (ratecv data 2 1 rate 48000) AudioopError;;
      wav <- lift_opt (wav_file 1 2 48000 resamp) AudioopError;;
      ret (Some wav)
  end.

(** The local variables [fmt] and [pcm] of [_synth]. *)
Definition synth_vars := (option audio_format * bytes)%type.

(** Lines 74-85: the read loop of [_synth]. *)
Fixpoint read_audio (rs : list tts_reply) : M synth_vars unit :=
  match rs with
  | [] => pending
  | TClosed :: _ => emit (Recv TtsServer)
  | TReadFails e :: _ => raise e
  | TAudioStart f :: rest =>
      emit (Recv TtsServer);;
      v <- get;; put (Some f, snd v);;
      read_audio rest
  | TAudioChunk a :: rest =>
      emit (Recv TtsServer);;
      v <- get;; put (fst v, snd v ++ a);;
      read_audio rest
  | TAudioStop :: _ => emit (Recv TtsServer)
  | TOther :: rest => emit (Recv TtsServer);; read_audio rest
  end.

(** Run a computation on local variables of its own inside another. *)
Definition scoped {S S' A} (init : S') (m : M S' A) : M S (A * S') :=
  fun s => let '(tr, s', r) := m init in
           (tr, s, match r with Ok a => Ok (a, s') | Raise e => Raise e | Pending => Pending end).

(** [_synth()] *)
Definition synth (text : text) (e : tts_env) : M unit (option bytes) :=
  io (tts_connect_ok e) (Connect TtsServer) ConnectError;;
  io (tts_write_ok e) (Send TtsServer (Synthesize text)) WriteError;;
  r <- scoped (None, []) (read_audio (replies e));;
  emit (Disconnect TtsServer);;
  to_wav_48k (fst (snd r)) (snd (snd r)).

(** [tts_play_48k(text)], the body of one playback thread. *)
Definition tts_play_48k (text : text) (e : tts_env) : M unit unit :=
  match text with
  | [] => ret tt
  | _ =>
      emit (Log (LogTts text));;
      wav_bytes <- synth text e;;
      match wav_bytes with
      | None | Some [] => emit (Log LogTtsNoAudio)
      | Some wav =>
          emit (Log LogTtsPlaying);;
          match aplay e with
          | AplayOk => emit (SpawnAplay wav)
          | AplaySpawnFails => emit (Log LogAplayFailed)
          | AplayFailsLate => emit (SpawnAplay wav);; emit (Log LogAplayFailed)
          end
      end
  end.

(* ---------------------------------------------------------------- *)
(** *** stt_once *)

(** Lines 148-152: the read loop. *)
Fixpoint pump (cs : list (bytes * bool)) (stop : pump_stop) : M unit unit :=
  match cs with
  | [] => match stop with StopEof => ret tt | StopRaise e => raise e end
  | ([], _) :: _ => ret tt                                  (* if not buf: break *)
  | (c, write_ok) :: rest =>
      io write_ok (Send SttServer (AudioChunk c)) WriteError;;
      pump rest stop
  end.

(** [data.get("text") or transcript]: the value of the field when it is
    true, what [transcript] held otherwise. *)
Definition py_or (x : json) (d : option json) : option json :=
  if truthy x then Some x else d.

Definition is_transcript (ev : event) : bool :=
  text_eqb (type ev) (T "transcript") || text_eqb (type ev) (T "text").

(** Lines 161-170: the wait for a transcript.  [now] is the clock at the
    loop test; an arrival at [t] is read when [t] is before the deadline,
    and otherwise [wait_for] raises [TimeoutError].  Handling an event
    takes no time: the next loop test reads the clock at the later of
    [now] and the arrival. *)
Fixpoint wait_transcript (deadline now : Q) (arr : list (Q * read_result))
  {struct arr} : M unit (option json) :=
  if negb (Qltb now deadline) then ret None
  else match arr with
       | [] => raise TimeoutError
       | (t, r) :: rest =>
           if negb (Qltb t deadline) then raise TimeoutError
           else match r with
                | StreamClosed => emit (Recv SttServer);; ret None
                | ReadFailed e => raise e
                | GotEvent ev =>
                    emit (Recv SttServer);;
                    if is_transcript ev then
                      let transcript := py_or (text_field ev) None in
                      emit (Log (LogSttGot (type ev) transcript));;
                      ret transcript
                    else wait_transcript deadline (Qmax now t) rest
                end
       end.

(** Lines 174-180: drain the process, every exception swallowed. *)
Definition drain (c : comm_outcome) : M unit unit :=
  match c with
  | CommExited stderr =>
      emit (Exited Capture);;
      if stderr then emit (Log LogArecordStderr) else ret tt
  | CommNotExited => emit (WaitTimedOut Capture)
  end.

Definition deadline (seconds : Z) (e : capture_env) : Q :=
  t0 e + inject_Z (Z.max 6 (seconds + 3)).

(** Lines 147-156: the first [try] block. *)
Definition stream_audio (e : capture_env) : M unit unit :=
  try_finally
    (try_except (pump (chunks e) (stop e)) is_timeout
                (fun _ => emit (Log LogSttReadTimeout)))
    (io (stop_ok e) (Send SttServer AudioStop) WriteError).

(** Lines 158-172: the second [try] block. *)
Definition await_transcript (seconds : Z) (e : capture_env) : M unit (option json) :=
  try_finally
    (wait_transcript (deadline seconds e) (t0 e) (arrivals e))
    (emit (Disconnect SttServer)).

(** [stt_once(seconds)] *)
Definition stt_once (seconds : Z) (e : capture_env) : M unit (option json) :=
  emit (Log (LogSttStart seconds));;
  io (spawn_ok e) (Spawn Capture (Some seconds)) SpawnError;;
  io (connect_ok e) (Connect SttServer) ConnectError;;
  io (start_ok e) (Send SttServer AudioStart) WriteError;;
  stream_audio e;;
  transcript <- await_transcript seconds e;;
  drain (communicate e);;
  emit (Log (LogSttExit transcript));;
  ret transcript.

(* ---------------------------------------------------------------- *)
(** *** on_message and the background loop *)

(** A coroutine scheduled on the background loop by
    [run_coroutine_threadsafe(stt_once(secs), loop)]: the actions it has
    still to perform and the outcome its future will hold. *)
Record task := { t_secs : Z; t_todo : trace; t_result : result (option json) }.

(** The module-level state: the [stt_busy] event, the coroutines on the
    background loop and the playback threads. *)
Record state := {
  stt_busy : bool;
  tasks : list task;
  threads : list trace
}.

Definition initial : state := {| stt_busy := false; tasks := []; threads := [] |}.

(** What the work started by a message will meet. *)
Record world := { w_capture : capture_env; w_tts : tts_env }.

Definition new_task (secs : Z) (e : capture_env) : task :=
  let '(tr, _, r) := stt_once secs e tt in
  {| t_secs := secs; t_todo := tr; t_result := r |}.

(** Lines 203-206 *)
Definition parse_secs (raw : text) : Z :=
  match raw with
  | [] => STT_SECS_DEFAULT
  | _ => match int_float raw with Some n => n | None => STT_SECS_DEFAULT end
  end.

(** [on_message(client, userdata, msg)]; [payload] is
    [msg.payload.decode("utf-8", "ignore")]. *)
Definition on_message (st : state) (topic payload : text) (w : world) : state * trace :=
  if text_eqb topic TOPIC_TTS_SAY then
    let text := strip payload in
    let '(tr, _, _) := tts_play_48k text (w_tts w) tt in
    ({| stt_busy := stt_busy st; tasks := tasks st; threads := threads st ++ [tr] |},
     [Log (LogMqtt topic text)])
  else if text_eqb topic TOPIC_STT_CAP then
    let raw := strip payload in
    let secs := parse_secs raw in
    if stt_busy st then (st, [Log (LogMqtt topic raw); Log LogSttBusy])
    else
      ({| stt_busy := true;
          tasks := tasks st ++ [new_task secs (w_capture w)];
          threads := threads st |},
       [Log (LogMqtt topic raw); SetBusy])
  else (st, []).

(** [_done(_)], the future's done-callback. *)
Definition done (t : task) : trace :=
  let '(tr, txt) :=
    match t_result t with
    | Ok txt => ([], txt)
    | Raise e => ([Log (LogSttError e)], None)
    | Pending => ([], None)
    end in
  tr ++ match txt with
        | Some j =>                                         (* if txt: *)
            if truthy j
            then [Publish TOPIC_STT_TEXT
                    (PJson (JObj [(T "text", j); (T "secs", JInt (t_secs t))]))]
            else []
        | None => []
        end
     ++ [ClearBusy].

Fixpoint replace_nth {A} (i : nat) (x : A) (l : list A) : list A :=
  match l, i with
  | [], _ => []
  | _ :: l', O => x :: l'
  | y :: l', S i' => y :: replace_nth i' x l'
  end.

Fixpoint remove_nth {A} (i : nat) (l : list A) : list A :=
  match l, i with
  | [], _ => []
  | _ :: l', O => l'
  | y :: l', S i' => y :: remove_nth i' l'
  end.

(** The background loop advances coroutine [i] by one action; when the
    coroutine has finished, its future completes and [_done] runs. *)
Definition loop_step (st : state) (i : nat) : state * trace :=
  match nth_error (tasks st) i with
  | None => (st, [])
  | Some t =>
      match t_todo t with
      | a :: todo =>
          ({| stt_busy := stt_busy st;
              tasks := replace_nth i {| t_secs := t_secs t; t_todo := todo;
                                        t_result := t_result t |} (tasks st);
              threads := threads st |},
           [a])
      | [] =>
          ({| stt_busy := false; tasks := remove_nth i (tasks st);
              threads := threads st |},
           done t)
      end
  end.

(** A playback thread performs its next action. *)
Definition thread_step (st : state) (i : nat) : state * trace :=
  match nth_error (threads st) i with
  | Some (a :: todo) =>
      ({| stt_busy := stt_busy st; tasks := tasks st;
          threads := replace_nth i todo (threads st) |}, [a])
  | _ => (st, [])
  end.

(** What happens in the gateway process, one scheduling decision at a
    time. *)
Inductive occurrence :=
| Message (topic payload : text) (w : world)   (* the MQTT thread calls on_message *)
| LoopRuns (i : nat)
| ThreadRuns (i : nat).

Definition step (st : state) (o : occurrence) : state * trace :=
  match o with
  | Message topic payload w => on_message st topic payload w
  | LoopRuns i => loop_step st i
  | ThreadRuns i => thread_step st i
  end.

Fixpoint run (st : state) (os : list occurrence) : state * trace :=
  match os with
  | [] => (st, [])
  | o :: os' =>
      let '(st', tr) := step st o in
      let '(st'', tr') := run st' os' in
      (st'', tr ++ tr')
  end.

End Code.
End VoiceGateway.

(* ================================================================== *)
(** ** dialogue_router.py *)

Module DialogueRouter.

Class Config := {
  MQTT_BASE : text          (* MQTT_BASE with trailing "/" removed, default "robot" *)
}.

(** The functions of the Python library the router calls on data. *)
Class PyLib := {
  json_loads : text -> option json;     (* json.loads(s); None when it raises *)
  lower : text -> text                  (* str.lower() *)
}.

Local Open Scope monad_scope.

Section Code.
Context {cfg : Config} {lib : PyLib}.

Definition TOPIC_STT : text := MQTT_BASE ++ T "/stt/text".
Definition TOPIC_TTS : text := MQTT_BASE ++ T "/tts/say".

(** Lines 37-40: [(json.loads(payload).get("text") or "").strip()] inside
    [try ... except Exception: text = ""].  A value without [.get], or a
    true value without [.strip], raises [AttributeError]. *)
Definition json_text (payload : text) : text :=
  match json_loads payload with
  | Some (JObj fields) =>
      let v := dict_get (T "text") fields in
      if truthy v then match v with JStr s => strip s | _ => [] end
      else strip []
  | _ => []
  end.

(** [intent_reply(text)]; [clock] is what
    [datetime.now().strftime("It is %I:%M %p.").lstrip("0")] gives. *)
Definition intent_reply (clock : text) (heard : text) : text :=
  let t := strip heard in
  match t with
  | [] => T "I didn't catch that."
  | _ =>
      let low := lower t in
      if startswith (T "say ") low then
        match strip (skipn 4 t) with
        | [] => T "Okay."
        | r => r
        end
      else if contains (T "what time") low || contains (T "time is it") low then clock
      else if contains (T "your name") low || contains (T "who are you") low then
        T "I am Oscar's voice assistant."
      else T "You said: " ++ t
  end.

(** [strftime("It is %I:%M %p.")]: the hour and the minute as the two
    digits [%I] and [%M] give, and the AM/PM marker of the locale. *)
Definition strftime_it_is (hh mm ampm : text) : text :=
  T "It is " ++ hh ++ T ":" ++ mm ++ T " " ++ ampm ++ T ".".

(** Line 24: the reply that tells the time. *)
Definition time_reply (hh mm ampm : text) : text :=
  lstrip_chars (T "0") (strftime_it_is hh mm ampm).

(** Line 10: [MQTT_BASE = os.environ.get("MQTT_BASE","robot").rstrip("/")] *)
Definition base_of (environ : text -> option text) : text :=
  rstrip_chars (T "/")
    (match environ (T "MQTT_BASE") with Some v => v | None => T "robot" end).

(** [on_message(c, u, msg)]; [payload] is
    [msg.payload.decode("utf-8", "ignore")]. *)
Definition on_message (payload clock : text) : M unit unit :=
  try_except
    (let payload := strip payload in
     let heard := if startswith (T "{") payload then json_text payload else payload in
     let reply := intent_reply clock heard in
     emit (Log (LogDialogue heard reply));;
     match reply with
     | [] => ret tt
     | _ => emit (Publish TOPIC_TTS (PText reply))
     end)
    (fun _ => true)
    (fun _ => emit (Log LogDialogueError)).

End Code.
End DialogueRouter.

(* ================================================================== *)
(** ** Reading a trace *)

(** What a trace tells of the task held in [pump_task]. *)
Inductive pump_view := PumpOn | PumpCancelling | PumpSettled.

Definition pump_step (v : pump_view) (a : action) : pump_view :=
  match a with
  | StartPump => PumpOn
  | CancelPump => match v with PumpOn => PumpCancelling | _ => v end
  | AwaitPump => match v with PumpCancelling => PumpSettled | _ => v end
  | _ => v
  end.

(** What a trace tells of the wake listener's current arecord process:
    running; being stopped; [Gone] once its owner has seen it exit;
    [GaveUp] once SIGTERM and SIGKILL were sent and both bounded waits
    expired. *)
Inductive proc_view := Running | TermSent | TermTimedOut | KillSent | Gone | GaveUp.

Definition proc_step (v : proc_view) (a : action) : proc_view :=
  match a with
  | Spawn Wake _ => Running
  | Terminate Wake => match v with Running | GaveUp => TermSent | _ => v end
  | WaitTimedOut Wake =>
      match v with TermSent => TermTimedOut | KillSent => GaveUp | _ => v end
  | Kill Wake => match v with TermTimedOut => KillSent | _ => v end
  | Exited Wake => Gone
  | _ => v
  end.

Definition pump_after (tr : trace) : pump_view := fold_left pump_step tr PumpOn.
Definition proc_after (tr : trace) : proc_view := fold_left proc_step tr Gone.

Definition is_spawn (h : holder) (a : action) : bool :=
  match a, h with
  | Spawn Wake _, Wake | Spawn Capture _, Capture => true
  | _, _ => false
  end.

Definition is_stop_signal (h : holder) (a : action) : bool :=
  match a, h with
  | Terminate Wake, Wake | Kill Wake, Wake => true
  | Terminate Capture, Capture | Kill Capture, Capture => true
  | _, _ => false
  end.

Definition is_disconnect (p : peer) (a : action) : bool :=
  match a, p with
  | Disconnect WakeServer, WakeServer | Disconnect SttServer, SttServer
  | Disconnect TtsServer, TtsServer => true
  | _, _ => false
  end.

Definition is_publish (a : action) : bool :=
  match a with Publish _ _ => true | _ => false end.

Definition is_synthesis (a : action) : bool :=
  match a with
  | Connect TtsServer | Send TtsServer _ | SpawnAplay _ => true
  | _ => false
  end.

(* ================================================================== *)
(** ** The two services side by side *)

Module System.



End System.

(* ================================================================== *)
(** ** Reference instances

    The configuration defaults of the three services, and stand-ins for
    the library functions, used where a statement is evaluated on a
    concrete input.  [ascii_int_float] reads an optional sign and ASCII
    decimal digits and rejects everything else; [reject_json] decodes
    nothing; the audio stand-ins leave the samples as they are, except for
    [no_tomono], which always raises. *)

Definition wake_defaults : WakeListener.Config :=
  {| WakeListener.BASE := T "robot";
     WakeListener.CAPTURE_SECS := 3;
     WakeListener.WAKE_COOLDOWN := 1 |}.

Definition gateway_defaults : VoiceGateway.Config :=
  {| VoiceGateway.BASE := T "robot"; VoiceGateway.STT_SECS_DEFAULT := 3 |}.

Definition router_defaults : DialogueRouter.Config :=
  {| DialogueRouter.MQTT_BASE := T "robot" |}.

Fixpoint ascii_digits (acc : Z) (s : text) : option Z :=
  match s with
  | [] => Some acc
  | c :: s' =>
      if ((48 <=? c) && (c <=? 57))%N
      then ascii_digits (10 * acc + (Z.of_N c - 48)) s'
      else None
  end.

Definition nonempty_digits (s : text) : option Z :=
  match s with
  | [] => None
  | _ => ascii_digits 0 s
  end.

Definition ascii_int_float (s : text) : option Z :=
  match s with
  | 45%N :: d => option_map Z.opp (nonempty_digits d)
  | 43%N :: d => nonempty_digits d
  | _ => nonempty_digits s
  end.

Definition no_tomono : bytes -> Z -> option bytes := fun _ _ => None.

Definition gateway_lib : VoiceGateway.PyLib :=
  {| VoiceGateway.int_float := ascii_int_float;
     VoiceGateway.tomono := no_tomono;
     VoiceGateway.lin2lin := fun d _ _ => Some d;
     VoiceGateway.ratecv := fun d _ _ _ _ => Some d |}.

Definition reject_json : text -> option json := fun _ => None.

Definition router_lib : DialogueRouter.PyLib :=
  {| DialogueRouter.json_loads := reject_json;
     DialogueRouter.lower := fun s => s |}.

(* ================================================================== *)
(** * Facts *)

Lemma Qltb_lt a b : Qltb a b = true <-> (a < b)%Q.
Proof.
  unfold Qltb. rewrite negb_true_iff. split; intro H.
  - apply Qnot_le_lt. intro Hle. apply Qle_bool_iff in Hle. congruence.
  - destruct (Qle_bool b a) eqn:E; [|reflexivity].
    apply Qle_bool_iff in E. exfalso. exact (Qlt_not_le _ _ H E).
Qed.

Lemma Qltb_ge a b : Qltb a b = false <-> (b <= a)%Q.
Proof. unfold Qltb. rewrite negb_false_iff. apply Qle_bool_iff. Qed.

Lemma text_eqb_eq a : forall b, text_eqb a b = true <-> a = b.
Proof.
  induction a as [|x a IH]; intros [|y b]; simpl; split; intro H;
    try reflexivity; try discriminate.
  - apply andb_true_iff in H as [Hx Hr]. apply N.eqb_eq in Hx.
    apply IH in Hr. congruence.
  - injection H as -> ->. rewrite N.eqb_refl. simpl. now apply IH.
Qed.

Lemma text_eqb_refl a : text_eqb a a = true.
Proof. now apply text_eqb_eq. Qed.

Lemma text_eqb_app_l p : forall a b, text_eqb (p ++ a) (p ++ b) = text_eqb a b.
Proof.
  induction p as [|x p IH]; intros a b; simpl; [reflexivity|].
  now rewrite N.eqb_refl, IH.
Qed.

Lemma published_app topic a b :
  published topic (a ++ b) = published topic a ++ published topic b.
Proof.
  induction a as [|x a IH]; simpl; [reflexivity|].
  destruct x; try exact IH. destruct (text_eqb topic0 topic); simpl; now rewrite IH.
Qed.

Section WakeFacts.
Import WakeListener.
Context {cfg : Config}.

Lemma on_wake_discard mqtt e now h v :
  (now - last_wake_ts v < inject_Z WAKE_COOLDOWN)%Q ->
  on_wake mqtt e now h v = ([], v, Ok tt).
Proof.
  intro H. apply Qltb_lt in H. unfold on_wake, bind, get. simpl. now rewrite H.
Qed.

Lemma on_wake_accept mqtt e now h v :
  (inject_Z WAKE_COOLDOWN <= now - last_wake_ts v)%Q ->
  on_wake mqtt e now h v = handoff mqtt e now h v.
Proof.
  intro H. apply Qltb_ge in H. unfold on_wake, bind, get. simpl. rewrite H.
  destruct (handoff mqtt e now h v) as [[tr v'] r]. reflexivity.
Qed.

Lemma listen_loop_event mqtt e now h rest v :
  listen_loop mqtt (Event e now h :: rest) v =
  let '(tr1, v1, r1) := (if is_wake e then on_wake mqtt e now h else ret tt) v in
  match r1 with
  | Ok _ => let '(tr2, v2, r2) := listen_loop mqtt rest v1 in
            (Recv WakeServer :: tr1 ++ tr2, v2, r2)
  | Raise x => (Recv WakeServer :: tr1, v1, Raise x)
  | Pending => (Recv WakeServer :: tr1, v1, Pending)
  end.
Proof.
  cbn [listen_loop]. unfold bind at 1. cbn [emit]. unfold bind at 1.
  destruct ((if is_wake e then on_wake mqtt e now h else ret tt) v) as [[tr1 v1] [[]|x|]];
    try reflexivity.
  destruct (listen_loop mqtt rest v1) as [[tr2 v2] r2]. reflexivity.
Qed.

Lemma cleanup_silent c v topic :
  published topic (fst (fst (cleanup c v))) = [].
Proof.
  destruct c as [p st d e], v as [l t x].
  destruct p, st, d, e, t, x; reflexivity.
Qed.

Lemma handoff_outcome e now h v :
  pump_task v = TaskLive -> proc_exited v = false ->
  let '(tr, v', r) := handoff true e now h v in
  published TOPIC_WAKE tr = [wake_payload e]
  /\ r <> Pending
  /\ (forall u, r = Ok u -> last_wake_ts v' = now).
Proof.
  destruct v as [l t x]. cbn [pump_task proc_exited]. intros -> ->.
  destruct h as [b p st rs].
  destruct b, p, st, rs; cbn; unfold TOPIC_WAKE, TOPIC_STT_CAPTURE;
    rewrite ?text_eqb_refl, ?text_eqb_app_l; cbn;
    (split; [reflexivity | split; [discriminate | intros; try reflexivity; discriminate]]).
Qed.


(** The actions of lines 129-145. *)
Definition startup_trace : trace :=
  [Connect WakeServer; Send WakeServer AudioStart; Log LogWakeStart; Spawn Wake None; StartPump].

Lemma stream_and_listen_started mqtt s inputs c :
  connect_ok s = true -> start_ok s = true -> spawn_ok s = true ->
  stream_and_listen mqtt s inputs c initial_vars =
  let '(tr, v, r) := try_finally (listen_loop mqtt inputs) (cleanup c) initial_vars in
  (startup_trace ++ tr, v, r).
Proof.
  destruct s as [a b d]. cbn [connect_ok start_ok spawn_ok]. intros -> -> ->.
  unfold stream_and_listen, spawn_arecord.
  unfold bind, io, emit, modify. cbn.
  change (set_task TaskLive (set_last 0 (set_exited false initial_vars)))
    with initial_vars.
  destruct (try_finally (listen_loop mqtt inputs) (cleanup c) initial_vars) as [[tr v] r].
  reflexivity.
Qed.




End WakeFacts.

(** *** The order of the suspend path *)

Definition released (v : proc_view) : bool :=
  match v with Gone | GaveUp => true | _ => false end.

Definition settled (v : pump_view) : bool :=
  match v with PumpSettled => true | _ => false end.

(** The action is a publish on [cap]. *)
Definition publishes_on (cap : text) (a : action) : bool :=
  match a with Publish t _ => text_eqb t cap | _ => false end.

(** The action is a sleep of [d] seconds. *)
Definition sleeps (d : Q) (a : action) : bool :=
  match a with Sleep d' => Qeq_bool d' d | _ => false end.

(** The check made on each action of a wake-listener trace: SIGTERM only
    once the pump is settled; a publish on [cap] only once the pump is
    settled and the process released; and right after a publish on [cap]
    ([due]) nothing but the sleep of [d] seconds. *)
Definition step_ok (cap : text) (d : Q) (pv : pump_view) (wv : proc_view)
    (due : bool) (a : action) : bool :=
  (if due then sleeps d a else true)
  && match a with
     | Terminate Wake => settled pv
     | Publish t _ => if text_eqb t cap then settled pv && released wv else true
     | _ => true
     end.

Fixpoint ordered (cap : text) (d : Q) (pv : pump_view) (wv : proc_view)
    (due : bool) (tr : trace) : bool :=
  match tr with
  | [] => true
  | a :: tr' =>
      step_ok cap d pv wv due a
      && ordered cap d (pump_step pv a) (proc_step wv a) (publishes_on cap a) tr'
  end.

(** Whether the sleep is due after a trace. *)
Definition due_after (cap : text) (due : bool) (tr : trace) : bool :=
  fold_left (fun _ a => publishes_on cap a) tr due.

Lemma ordered_app cap d a : forall pv wv due b,
  ordered cap d pv wv due (a ++ b) =
  ordered cap d pv wv due a
  && ordered cap d (fold_left pump_step a pv) (fold_left proc_step a wv)
       (due_after cap due a) b.
Proof.
  induction a as [|x a IH]; intros pv wv due b; cbn [ordered app fold_left due_after].
  - reflexivity.
  - unfold due_after in IH. now rewrite IH, andb_assoc.
Qed.

Lemma ordered_sound cap d pre : forall pv wv due a post,
  ordered cap d pv wv due (pre ++ a :: post) = true ->
  step_ok cap d (fold_left pump_step pre pv) (fold_left proc_step pre wv)
    (due_after cap due pre) a = true.
Proof.
  induction pre as [|x pre IH]; intros pv wv due a post H;
    cbn [app ordered fold_left due_after] in *.
  - now apply andb_true_iff in H.
  - apply andb_true_iff in H as [_ H]. eapply IH, H.
Qed.

Section SuspendOrder.
Import WakeListener.
Context {cfg : Config}.

(** The variables agree with what the trace shows. *)
Definition consistent (v : vars) (pv : pump_view) (wv : proc_view) : bool :=
  match pump_task v, pv with
  | TaskLive, PumpOn => true
  | TaskLive, _ => false
  | _, PumpSettled => true
  | _, _ => false
  end
  && match proc_exited v, wv with
     | true, Gone => true
     | false, Running | false, GaveUp => true
     | _, _ => false
     end.

(** [CAPTURE_SECS + 0.2] *)
Definition resume_delay : Q := inject_Z CAPTURE_SECS + (2 # 10).

Arguments Qeq_bool : simpl never.
Arguments Qplus : simpl never.
Arguments inject_Z : simpl never.

Lemma topics_differ : text_eqb TOPIC_WAKE TOPIC_STT_CAPTURE = false.
Proof. unfold TOPIC_WAKE, TOPIC_STT_CAPTURE. now rewrite text_eqb_app_l. Qed.

Ltac topics :=
  repeat (cbn; unfold step_ok, sleeps; fold resume_delay;
          rewrite ?topics_differ, ?text_eqb_refl, ?Qeq_bool_refl).

(** The outcome of one turn of the loop that starts with the pump
    running and the process alive. *)
Definition turn_ok (out : trace * vars * result unit) : Prop :=
  let '(tr, v', r) := out in
  ordered TOPIC_STT_CAPTURE resume_delay PumpOn Running false tr = true
  /\ due_after TOPIC_STT_CAPTURE false tr = false
  /\ match r with
     | Ok _ => pump_task v' = TaskLive /\ proc_exited v' = false
               /\ fold_left pump_step tr PumpOn = PumpOn
               /\ fold_left proc_step tr Running = Running
     | Raise _ => consistent v' (fold_left pump_step tr PumpOn)
                                (fold_left proc_step tr Running) = true
     | Pending => False
     end.

Lemma handoff_ordered mqtt e now h v :
  pump_task v = TaskLive -> proc_exited v = false ->
  turn_ok (handoff mqtt e now h v).
Proof.
  destruct v as [l t x]. cbn [pump_task proc_exited]. intros -> ->.
  destruct h as [b p st rs], mqtt.
  all: destruct b, p, st, rs; topics; repeat split; reflexivity.
Qed.

Lemma cleanup_ordered c v pv wv :
  consistent v pv wv = true ->
  ordered TOPIC_STT_CAPTURE resume_delay pv wv false (fst (fst (cleanup c v))) = true
  /\ due_after TOPIC_STT_CAPTURE false (fst (fst (cleanup c v))) = false.
Proof.
  destruct v as [l t x], c as [p st d e]. unfold consistent. cbn [pump_task proc_exited].
  destruct t, x, pv, wv; try discriminate; intros _;
    destruct p, st, d, e; split; reflexivity.
Qed.

Lemma on_wake_ordered mqtt e now h v :
  pump_task v = TaskLive -> proc_exited v = false ->
  turn_ok (on_wake mqtt e now h v).
Proof.
  intros Ht Hx.
  destruct (Qlt_le_dec (now - last_wake_ts v) (inject_Z WAKE_COOLDOWN)) as [Hlt|Hge].
  - rewrite on_wake_discard by assumption. unfold turn_ok. cbn. repeat split; auto.
  - rewrite on_wake_accept by assumption. now apply handoff_ordered.
Qed.

Lemma due_after_app cap due a b :
  due_after cap due (a ++ b) = due_after cap (due_after cap due a) b.
Proof. unfold due_after. now rewrite fold_left_app. Qed.

Lemma loop_ordered mqtt inputs : forall v,
  pump_task v = TaskLive -> proc_exited v = false ->
  let '(tr, v', r) := listen_loop mqtt inputs v in
  ordered TOPIC_STT_CAPTURE resume_delay PumpOn Running false tr = true
  /\ due_after TOPIC_STT_CAPTURE false tr = false
  /\ (r <> Pending ->
      consistent v' (fold_left pump_step tr PumpOn) (fold_left proc_step tr Running) = true).
Proof.
  induction inputs as [|i rest IH]; intros v Ht Hx.
  - cbn. repeat split; congruence.
  - destruct i as [|x|e now h].
    + cbn. unfold consistent. rewrite Ht, Hx. auto.
    + cbn. unfold consistent. rewrite Ht, Hx. auto.
    + rewrite listen_loop_event.
      assert (Hstep : turn_ok ((if is_wake e then on_wake mqtt e now h else ret tt) v)).
      { destruct (is_wake e); [now apply on_wake_ordered | unfold turn_ok; cbn; repeat split; auto]. }
      destruct ((if is_wake e then on_wake mqtt e now h else ret tt) v) as [[tr1 v1] r1].
      destruct Hstep as (Ho & Hd & Hr). destruct r1 as [[]|x|]; [| |contradiction].
      * destruct Hr as (Ht1 & Hx1 & Hp & Hw).
        specialize (IH v1 Ht1 Hx1).
        destruct (listen_loop mqtt rest v1) as [[tr2 v2] r2].
        destruct IH as (Ho2 & Hd2 & Hc2).
        change (Recv WakeServer :: tr1 ++ tr2) with ((Recv WakeServer :: tr1) ++ tr2).
        rewrite ordered_app, due_after_app, !fold_left_app.
        cbn [ordered fold_left step_ok pump_step proc_step andb due_after publishes_on sleeps].
        fold (due_after TOPIC_STT_CAPTURE false tr1).
        rewrite Ho, Hp, Hw, Hd. auto.
      * cbn [ordered fold_left step_ok pump_step proc_step andb due_after publishes_on sleeps].
        fold (due_after TOPIC_STT_CAPTURE false tr1). auto.
Qed.

(** A whole trace passes the check, and no sleep is left due at its end. *)
Definition capture_ordered (tr : trace) : Prop :=
  ordered TOPIC_STT_CAPTURE resume_delay PumpOn Gone false tr = true
  /\ due_after TOPIC_STT_CAPTURE false tr = false.

Lemma run_stream_ordered mqtt s inputs c :
  capture_ordered (fst (run_stream mqtt s inputs c)).
Proof.
  unfold capture_ordered, run_stream.
  destruct (connect_ok s) eqn:Hc; [destruct (start_ok s) eqn:Hs; [destruct (spawn_ok s) eqn:Hp|]|].
  - rewrite stream_and_listen_started by assumption.
    unfold try_finally.
    pose proof (loop_ordered mqtt inputs initial_vars eq_refl eq_refl) as Hl.
    destruct (listen_loop mqtt inputs initial_vars) as [[tr v] r].
    destruct Hl as (Ho & Hd & Hcons).
    assert (Hcl := fun H => cleanup_ordered c v _ _ (Hcons H)).
    destruct (cleanup c v) as [[tr' v'] r']. cbn [fst] in Hcl.
    assert (Hfin : r <> Pending ->
              ordered TOPIC_STT_CAPTURE resume_delay PumpOn Gone false
                (startup_trace ++ tr ++ tr') = true
              /\ due_after TOPIC_STT_CAPTURE false (startup_trace ++ tr ++ tr') = false).
    { intro Hr. destruct (Hcl Hr) as [Hc1 Hc2].
      rewrite !ordered_app, !due_after_app. cbn. fold (due_after TOPIC_STT_CAPTURE false tr).
      rewrite Ho, Hd, Hc1, Hc2. auto. }
    destruct r as [[]|x|].
    + destruct r' as [[]|y|]; cbn [fst]; apply Hfin; congruence.
    + destruct r' as [[]|y|]; cbn [fst]; apply Hfin; congruence.
    + cbn [fst]. rewrite ordered_app, due_after_app. cbn.
      fold (due_after TOPIC_STT_CAPTURE false tr). rewrite Ho, Hd. auto.
  - destruct s as [a b d]. cbn in Hc, Hs, Hp. subst. split; reflexivity.
  - destruct s as [a b d]. cbn in Hc, Hs. subst. split; reflexivity.
  - destruct s as [a b d]. cbn in Hc. subst. split; reflexivity.
Qed.

(** C2 (amended).  In every run of [stream_and_listen], SIGTERM is sent
    to the wake-capture process only after the pump task has been
    cancelled and its cancellation awaited; and when the capture request
    is published the pump is settled and the exit of the process has been
    awaited: the listener has seen it exit, or it has sent SIGTERM and
    SIGKILL and both one-second waits have expired. *)
Theorem suspend_awaits_pump_then_process mqtt s inputs c pre a post :
  fst (run_stream mqtt s inputs c) = pre ++ a :: post ->
  (a = Terminate Wake -> pump_after pre = PumpSettled)
  /\ (forall p, a = Publish TOPIC_STT_CAPTURE p ->
        pump_after pre = PumpSettled
        /\ (proc_after pre = Gone \/ proc_after pre = GaveUp)).
Proof.
  intro Htr. pose proof (run_stream_ordered mqtt s inputs c) as [Ho _].
  rewrite Htr in Ho.
  apply ordered_sound in Ho. fold (pump_after pre) in Ho. fold (proc_after pre) in Ho.
  apply andb_true_iff in Ho as [_ Ho].
  split.
  - intros ->. cbn in Ho. now destruct (pump_after pre).
  - intros p ->. cbn in Ho. rewrite text_eqb_refl in Ho.
    apply andb_true_iff in Ho as [Hs Hr].
    split; [now destruct (pump_after pre)|].
    destruct (proc_after pre); try discriminate; auto.
Qed.
End SuspendOrder.


(** *** The capture session *)

Section CaptureFacts.
Import VoiceGateway.
Context {cfg : Config} {lib : PyLib}.

(** The actions of lines 135-145 of [stt_once]. *)
Definition capture_prelude (seconds : Z) : trace :=
  [Log (LogSttStart seconds); Spawn Capture (Some seconds);
   Connect SttServer; Send SttServer AudioStart].

(** [stt_once], phase by phase. *)
Lemma stt_once_eq seconds e :
  stt_once seconds e tt =
  if spawn_ok e then
    if connect_ok e then
      if start_ok e then
        match stream_audio e tt with
        | (str, _, Ok _) =>
            match wait_transcript (deadline seconds e) (t0 e) (arrivals e) tt with
            | (wtr, _, Ok x) =>
                (capture_prelude seconds ++ str ++ wtr ++ Disconnect SttServer
                 :: fst (fst (drain (communicate e) tt)) ++ [Log (LogSttExit x)],
                 tt, Ok x)
            | (wtr, _, Raise y) =>
                (capture_prelude seconds ++ str ++ wtr ++ [Disconnect SttServer],
                 tt, Raise y)
            | (wtr, _, Pending) =>
                (capture_prelude seconds ++ str ++ wtr, tt, Pending)
            end
        | (str, _, Raise y) => (capture_prelude seconds ++ str, tt, Raise y)
        | (str, _, Pending) => (capture_prelude seconds ++ str, tt, Pending)
        end
      else ([Log (LogSttStart seconds); Spawn Capture (Some seconds); Connect SttServer],
            tt, Raise WriteError)
    else ([Log (LogSttStart seconds); Spawn Capture (Some seconds)], tt, Raise ConnectError)
  else ([Log (LogSttStart seconds)], tt, Raise SpawnError).
Proof.
  unfold stt_once, await_transcript.
  destruct (spawn_ok e); [|reflexivity].
  destruct (connect_ok e); [|reflexivity].
  destruct (start_ok e); [|reflexivity].
  unfold bind at 1. cbn [emit]. unfold bind at 1. cbn [io emit].
  unfold bind at 1. cbn [io emit]. unfold bind at 1. cbn [io emit].
  unfold bind at 1.
  destruct (stream_audio e tt) as [[str []] [[]|y|]]; try reflexivity.
  unfold bind at 1, try_finally.
  destruct (wait_transcript (deadline seconds e) (t0 e) (arrivals e) tt)
    as [[wtr []] [x|y|]]; cbn [emit]; try reflexivity;
    try (destruct (communicate e) as [[]|]); cbn; rewrite <- ?app_assoc; reflexivity.
Qed.

(** The session reaches the wait for a transcript: the process was
    spawned, the session opened, and both markers and every chunk were
    written (a read timeout of the pump apart). *)
Definition reaches_wait (e : capture_env) : bool :=
  spawn_ok e && connect_ok e && start_ok e
  && match stream_audio e tt with (_, _, Ok _) => true | _ => false end.

(** Actions that only a session performs on its own session and
    process: none of them signals a process, publishes, or touches the
    busy flag. *)
Definition session_action (a : action) : bool :=
  match a with
  | Log _ | Connect SttServer | Disconnect SttServer | Send SttServer _
  | Recv SttServer | Spawn Capture _ | Exited Capture | WaitTimedOut Capture => true
  | _ => false
  end.

Lemma pump_actions cs st :
  let '(tr, _, r) := pump cs st tt in
  forallb session_action tr = true /\ r <> Pending.
Proof.
  induction cs as [|[c w] cs IH]; cbn [pump].
  - destruct st; cbn; split; (reflexivity || discriminate).
  - destruct c as [|b c].
    + cbn. split; [reflexivity | discriminate].
    + unfold bind. destruct w; cbn [io emit raise].
      * destruct (pump cs st tt) as [[tr []] r]. destruct IH as [Ha Hr].
        cbn. split; [exact Ha | exact Hr].
      * cbn. split; [reflexivity | discriminate].
Qed.

Lemma stream_audio_actions e :
  let '(tr, _, r) := stream_audio e tt in
  forallb session_action tr = true /\ r <> Pending.
Proof.
  unfold stream_audio, try_finally, try_except.
  pose proof (pump_actions (chunks e) (stop e)) as Hp.
  destruct (pump (chunks e) (stop e) tt) as [[tr []] r].
  destruct Hp as [Ha Hr].
  destruct r as [[]|y|]; [| |congruence].
  - destruct (stop_ok e); cbn; rewrite ?forallb_app, Ha; cbn;
      split; (reflexivity || discriminate).
  - destruct (is_timeout y), (stop_ok e); cbn; rewrite ?forallb_app, Ha; cbn;
      split; (reflexivity || discriminate).
Qed.

Lemma wait_actions d arr : forall now,
  let '(tr, _, r) := wait_transcript d now arr tt in
  forallb session_action tr = true /\ r <> Pending.
Proof.
  induction arr as [|[t r0] arr IH]; intro now; cbn [wait_transcript].
  - destruct (Qltb now d); cbn; split; (reflexivity || discriminate).
  - destruct (Qltb now d); cbn [negb]; [|cbn; split; (reflexivity || discriminate)].
    destruct (Qltb t d); cbn [negb]; [|cbn; split; (reflexivity || discriminate)].
    destruct r0 as [ev| |x]; try (cbn; split; (reflexivity || discriminate)).
    unfold bind at 1. cbn [emit]. destruct (is_transcript ev).
    + cbn. split; [reflexivity | discriminate].
    + specialize (IH (Qmax now t)).
      destruct (wait_transcript d (Qmax now t) arr tt) as [[tr []] r].
      destruct IH as [Ha Hr]. cbn. split; assumption.
Qed.

Definition session_trace (seconds : Z) (e : capture_env) : trace :=
  fst (fst (stt_once seconds e tt)).

Definition session_result (seconds : Z) (e : capture_env) : result (option json) :=
  snd (stt_once seconds e tt).

Lemma session_actions seconds e :
  forallb session_action (session_trace seconds e) = true
  /\ session_result seconds e <> Pending.
Proof.
  unfold session_trace, session_result. rewrite stt_once_eq.
  destruct (spawn_ok e); [|cbn; split; (reflexivity || discriminate)].
  destruct (connect_ok e); [|cbn; split; (reflexivity || discriminate)].
  destruct (start_ok e); [|cbn; split; (reflexivity || discriminate)].
  pose proof (stream_audio_actions e) as Hs.
  destruct (stream_audio e tt) as [[str []] r]. destruct Hs as [Hs Hr].
  pose proof (wait_actions (deadline seconds e) (arrivals e) (t0 e)) as Hw.
  destruct (wait_transcript (deadline seconds e) (t0 e) (arrivals e) tt) as [[wtr []] wr].
  destruct Hw as [Hw Hwr].
  destruct r as [[]|y|]; [| |congruence].
  - destruct wr as [x|y|]; [| |congruence].
    + destruct (communicate e) as [[]|]; cbn; rewrite ?forallb_app, Hs, Hw; cbn;
        split; (reflexivity || discriminate).
    + cbn; rewrite ?forallb_app, Hs, Hw; cbn; split; (reflexivity || discriminate).
  - cbn. rewrite Hs. split; (reflexivity || discriminate).
Qed.


(** An arrival that is read and does not end the wait: an event of
    another type that comes before the deadline. *)
Definition passes (d : Q) (a : Q * read_result) : Prop :=
  (fst a < d)%Q /\ exists ev, snd a = GotEvent ev /\ is_transcript ev = false.

Lemma wait_finds d pre : forall now t ev rest,
  (now < d)%Q -> Forall (passes d) pre -> (t < d)%Q -> is_transcript ev = true ->
  wait_transcript d now (pre ++ (t, GotEvent ev) :: rest) tt =
  (repeat (Recv SttServer) (S (List.length pre))
   ++ [Log (LogSttGot (type ev) (py_or (text_field ev) None))],
   tt, Ok (py_or (text_field ev) None)).
Proof.
  induction pre as [|[t' r'] pre IH]; intros now t ev rest Hnow Hpre Ht Hev;
    cbn [app wait_transcript].
  - apply Qltb_lt in Hnow, Ht. rewrite Hnow, Ht. cbn [negb].
    unfold bind. cbn [emit]. rewrite Hev. reflexivity.
  - inversion Hpre as [|? ? [Ht' (ev' & Hr' & Hev')] Hrest]; subst. cbn [fst snd] in *.
    subst r'. pose proof Hnow as Hnow'. apply Qltb_lt in Hnow'. rewrite Hnow'.
    pose proof Ht' as Ht''. apply Qltb_lt in Ht''. rewrite Ht''. cbn [negb].
    unfold bind at 1. cbn [emit]. rewrite Hev'.
    rewrite (IH (Qmax now t') t ev rest); auto.
    apply Q.max_lub_lt; assumption.
Qed.

Lemma wait_found d arr : forall now tr j,
  wait_transcript d now arr tt = (tr, tt, Ok (Some j)) ->
  exists pre t ev rest,
    arr = pre ++ (t, GotEvent ev) :: rest /\ Forall (passes d) pre /\ (t < d)%Q
    /\ is_transcript ev = true /\ text_field ev = j /\ truthy j = true.
Proof.
  induction arr as [|[t r] arr IH]; intros now tr j; cbn [wait_transcript].
  - destruct (Qltb now d); cbn; discriminate.
  - destruct (Qltb now d); cbn [negb]; [|cbn; discriminate].
    destruct (Qltb t d) eqn:Ht; cbn [negb]; [|cbn; discriminate].
    apply Qltb_lt in Ht.
    destruct r as [ev| |x]; try (cbn; discriminate).
    unfold bind at 1. cbn [emit]. destruct (is_transcript ev) eqn:Hev.
    + cbn. unfold py_or. destruct (truthy (text_field ev)) eqn:Htr; [|discriminate].
      intro H. injection H as _ Hs. subst j.
      exists [], t, ev, arr. repeat split; auto.
    + destruct (wait_transcript d (Qmax now t) arr tt) as [[tr' []] r'] eqn:Hw.
      intro H. injection H as _ Hr. subst r'.
      destruct (IH _ _ _ Hw) as (pre & t1 & ev1 & rest & -> & Hpre & Ht1 & H1 & H2 & H3).
      exists ((t, GotEvent ev) :: pre), t1, ev1, rest. repeat split; auto.
      constructor; [|assumption]. split; [exact Ht|]. exists ev. auto.
Qed.

Lemma deadline_ahead seconds e : (t0 e < deadline seconds e)%Q.
Proof.
  unfold deadline. rewrite <- (Qplus_0_r (t0 e)) at 1.
  apply Qplus_lt_r. change 0%Q with (inject_Z 0). rewrite <- Zlt_Qlt. lia.
Qed.

Lemma session_result_found seconds e j :
  session_result seconds e = Ok (Some j) ->
  exists pre t ev rest,
    arrivals e = pre ++ (t, GotEvent ev) :: rest
    /\ Forall (passes (deadline seconds e)) pre /\ (t < deadline seconds e)%Q
    /\ is_transcript ev = true /\ text_field ev = j /\ truthy j = true.
Proof.
  unfold session_result. rewrite stt_once_eq.
  destruct (spawn_ok e); [|discriminate].
  destruct (connect_ok e); [|discriminate].
  destruct (start_ok e); [|discriminate].
  destruct (stream_audio e tt) as [[str []] [[]|y|]]; try discriminate.
  destruct (wait_transcript (deadline seconds e) (t0 e) (arrivals e) tt)
    as [[wtr []] [x|y|]] eqn:Hw; try discriminate.
  cbn. intro H. injection H as ->. eapply wait_found, Hw.
Qed.

Lemma session_result_finds seconds e pre t ev rest :
  reaches_wait e = true ->
  arrivals e = pre ++ (t, GotEvent ev) :: rest ->
  Forall (passes (deadline seconds e)) pre -> (t < deadline seconds e)%Q ->
  is_transcript ev = true ->
  session_result seconds e = Ok (py_or (text_field ev) None)
  /\ exists before after,
       session_trace seconds e =
       before ++ repeat (Recv SttServer) (S (List.length pre))
       ++ Log (LogSttGot (type ev) (py_or (text_field ev) None))
       :: Disconnect SttServer :: after
       /\ forallb (fun a => negb (match a with Recv _ => true | _ => false end)) after = true.
Proof.
  unfold reaches_wait, session_result, session_trace. intros Hr Harr Hpre Ht Hev.
  rewrite stt_once_eq.
  apply andb_true_iff in Hr as [Hr Hs]. apply andb_true_iff in Hr as [Hr H3].
  apply andb_true_iff in Hr as [H1 H2]. rewrite H1, H2, H3.
  destruct (stream_audio e tt) as [[str []] [[]|y|]]; try discriminate.
  rewrite Harr, (wait_finds ev rest (deadline_ahead seconds e) Hpre Ht Hev).
  cbn [fst snd]. split; [reflexivity|].
  exists (capture_prelude seconds ++ str),
         (fst (fst (drain (communicate e) tt))
          ++ [Log (LogSttExit (py_or (text_field ev) None))]).
  split.
  - rewrite <- !app_assoc. reflexivity.
  - destruct (communicate e) as [[]|]; reflexivity.
Qed.
End CaptureFacts.


(** *** The gateway process *)

Section GatewayFacts.
Import VoiceGateway.
Context {cfg : Config} {lib : PyLib}.

Lemma cap_is_not_say : text_eqb TOPIC_STT_CAP TOPIC_TTS_SAY = false.
Proof. unfold TOPIC_STT_CAP, TOPIC_TTS_SAY. now rewrite text_eqb_app_l. Qed.

Lemma on_message_capture st payload w :
  on_message st TOPIC_STT_CAP payload w =
  if stt_busy st
  then (st, [Log (LogMqtt TOPIC_STT_CAP (strip payload)); Log LogSttBusy])
  else ({| stt_busy := true;
           tasks := tasks st ++ [new_task (parse_secs (strip payload)) (w_capture w)];
           threads := threads st |},
        [Log (LogMqtt TOPIC_STT_CAP (strip payload)); SetBusy]).
Proof. unfold on_message. now rewrite cap_is_not_say, text_eqb_refl. Qed.

Lemma run_app st a : forall b,
  run st (a ++ b) =
  let '(st1, tr1) := run st a in
  let '(st2, tr2) := run st1 b in (st2, tr1 ++ tr2).
Proof.
  revert st. induction a as [|o a IH]; intros st b; cbn [app run].
  - destruct (run st b). reflexivity.
  - destruct (step st o) as [st' tr]. rewrite IH.
    destruct (run st' a) as [st1 tr1]. destruct (run st1 b) as [st2 tr2].
    now rewrite app_assoc.
Qed.

(** The loop performs what is left of a coroutine, then its callback. *)
Lemma loop_runs_task todo : forall secs r thr,
  run {| stt_busy := true;
         tasks := [{| t_secs := secs; t_todo := todo; t_result := r |}];
         threads := thr |}
      (repeat (LoopRuns 0) (S (List.length todo)))
  = ({| stt_busy := false; tasks := []; threads := thr |},
     todo ++ done {| t_secs := secs; t_todo := []; t_result := r |}).
Proof.
  induction todo as [|a todo IH]; intros secs r thr.
  - cbn. now rewrite app_nil_r.
  - change (repeat (LoopRuns 0) (S (List.length (a :: todo))))
      with (LoopRuns 0 :: repeat (LoopRuns 0) (S (List.length todo))).
    cbn [run step loop_step nth_error tasks t_todo t_secs t_result
         stt_busy threads replace_nth].
    rewrite IH. reflexivity.
Qed.

(** One capture session from request to callback: the message, then the
    loop running the coroutine to its end. *)
Definition one_session (payload : text) (w : world) : list occurrence :=
  Message TOPIC_STT_CAP payload w
  :: repeat (LoopRuns 0)
       (S (List.length (session_trace (parse_secs (strip payload)) (w_capture w)))).

Lemma run_one_session st payload w :
  stt_busy st = false -> tasks st = [] ->
  run st (one_session payload w) =
  ({| stt_busy := false; tasks := []; threads := threads st |},
   [Log (LogMqtt TOPIC_STT_CAP (strip payload)); SetBusy]
   ++ session_trace (parse_secs (strip payload)) (w_capture w)
   ++ done (new_task (parse_secs (strip payload)) (w_capture w))).
Proof.
  intros Hb Ht. unfold one_session. cbn [run step].
  rewrite on_message_capture, Hb, Ht. cbn [app].
  unfold new_task, session_trace.
  destruct (stt_once (parse_secs (strip payload)) (w_capture w) tt) as [[tr []] r].
  cbn [fst]. rewrite loop_runs_task. reflexivity.
Qed.

Lemma published_session topic tr :
  forallb session_action tr = true -> published topic tr = [].
Proof.
  induction tr as [|a tr IH]; cbn [forallb published]; [reflexivity|].
  intro H. apply andb_true_iff in H as [Ha Htr].
  destruct a; try discriminate; auto.
Qed.

(** [json.dumps({"text": txt, "secs": secs})] *)
Definition transcript_payload (j : json) (secs : Z) : payload :=
  PJson (JObj [(T "text", j); (T "secs", JInt secs)]).

(** What the done-callback publishes for the outcome of a session. *)
Definition told (r : result (option json)) (secs : Z) : list payload :=
  match r with
  | Ok (Some j) => if truthy j then [transcript_payload j secs] else []
  | _ => []
  end.

Lemma done_published t :
  published TOPIC_STT_TEXT (done t) = told (t_result t) (t_secs t).
Proof.
  unfold done, told. destruct (t_result t) as [[j|]|y|]; cbn;
    try destruct (truthy j); cbn; rewrite ?text_eqb_refl; reflexivity.
Qed.

Lemma done_clears t : In ClearBusy (done t).
Proof.
  unfold done. destruct (t_result t) as [[j|]|y|]; cbn;
    try destruct (truthy j); cbn; auto.
Qed.

Lemma one_session_published st payload w :
  stt_busy st = false -> tasks st = [] ->
  published TOPIC_STT_TEXT (snd (run st (one_session payload w))) =
  told (session_result (parse_secs (strip payload)) (w_capture w))
    (parse_secs (strip payload)).
Proof.
  intros Hb Ht. rewrite run_one_session by assumption. cbn [snd].
  rewrite !published_app, done_published.
  rewrite (published_session _ _ (proj1 (session_actions _ _))).
  unfold new_task, session_result.
  destruct (stt_once (parse_secs (strip payload)) (w_capture w) tt) as [[tr []] r].
  reflexivity.
Qed.
End GatewayFacts.

(** *** What a computation emits *)

Definition not_clear (a : action) : bool :=
  match a with ClearBusy => false | _ => true end.

(** Every action a computation performs satisfies [P]. *)
Definition emits {S A} (P : action -> bool) (m : M S A) : Prop :=
  forall s, forallb P (fst (fst (m s))) = true.

Lemma emits_bind {S A B} P (m : M S A) (f : A -> M S B) :
  emits P m -> (forall a, emits P (f a)) -> emits P (bind m f).
Proof.
  intros Hm Hf s. unfold bind. specialize (Hm s).
  destruct (m s) as [[tr s'] [a|y|]]; cbn [fst] in *; try assumption.
  specialize (Hf a s'). destruct (f a s') as [[tr' s''] r]. cbn [fst] in *.
  now rewrite forallb_app, Hm, Hf.
Qed.

Lemma emits_emit {S} (P : action -> bool) a : P a = true -> emits P (@emit S a).
Proof. intros H s. cbn. now rewrite H. Qed.

Lemma emits_ret {S A} P (a : A) : emits P (@ret S A a).
Proof. intro s. reflexivity. Qed.

Lemma emits_raise {S A} P e : emits P (@raise S A e).
Proof. intro s. reflexivity. Qed.

Lemma emits_io {S} (P : action -> bool) ok a e : P a = true -> emits P (@io S ok a e).
Proof. intro H. destruct ok; [now apply emits_emit | apply emits_raise]. Qed.

(** *** Playback threads and the busy flag *)

Section GatewayInvariant.
Import VoiceGateway.
Context {cfg : Config} {lib : PyLib}.

Lemma emits_scoped {S S' A} P (init : S') (m : M S' A) :
  emits P m -> emits P (@scoped S S' A init m).
Proof.
  intros Hm s. unfold scoped. specialize (Hm init).
  destruct (m init) as [[tr s'] r]. exact Hm.
Qed.

Lemma to_wav_48k_emits P fmt pcm : emits P (to_wav_48k fmt pcm).
Proof.
  unfold to_wav_48k. destruct fmt as [f|]; [|destruct pcm; apply emits_ret].
  destruct pcm as [|b pcm]; [apply emits_ret|].
  repeat (apply emits_bind; [|intro]);
    repeat match goal with
           | |- emits _ (if ?c then _ else _) => destruct c
           | |- emits _ (lift_opt ?o _) => destruct o; cbn [lift_opt]
           end; (apply emits_ret || apply emits_raise).
Qed.

Lemma read_audio_emits rs : emits not_clear (read_audio rs).
Proof.
  induction rs as [|r rs IH]; [intro; reflexivity|].
  destruct r; cbn [read_audio];
    repeat (apply emits_bind; [|intro]);
    try (now apply emits_emit); try apply emits_raise; try exact IH;
    intro; reflexivity.
Qed.

Lemma tts_play_emits txt e : emits not_clear (tts_play_48k txt e).
Proof.
  destruct txt as [|c txt]; [apply emits_ret|]. cbn [tts_play_48k].
  apply emits_bind; [now apply emits_emit|intros _].
  apply emits_bind.
  - unfold synth. repeat (apply emits_bind; [|intro]);
      try (now apply emits_io); try (now apply emits_emit).
    + apply emits_scoped, read_audio_emits.
    + apply to_wav_48k_emits.
  - intros [[|b wav]|]; try (now apply emits_emit).
    apply emits_bind; [now apply emits_emit|intros _].
    destruct (aplay e); [now apply emits_emit ..|].
    apply emits_bind; [now apply emits_emit|intros _]. now apply emits_emit.
Qed.

Lemma session_not_clear a : session_action a = true -> not_clear a = true.
Proof. destruct a; cbn; congruence. Qed.

Lemma forallb_impl {A} (P Q : A -> bool) l :
  (forall a, P a = true -> Q a = true) -> forallb P l = true -> forallb Q l = true.
Proof.
  intros H. induction l as [|a l IH]; cbn; [auto|].
  intro Hl. apply andb_true_iff in Hl as [Ha Hl]. now rewrite (H a Ha), IH.
Qed.

(** What holds in every state the gateway can reach: the busy flag is
    clear only when no capture coroutine is on the loop, there is never
    more than one, and no coroutine or thread has a [ClearBusy] among the
    actions it has still to perform. *)
Definition invariant (st : state) : Prop :=
  (stt_busy st = false -> tasks st = [])
  /\ (List.length (tasks st) <= 1)%nat
  /\ Forall (fun t => forallb not_clear (t_todo t) = true) (tasks st)
  /\ Forall (fun tr => forallb not_clear tr = true) (threads st).

Lemma Forall_replace_nth {A} (P : A -> Prop) x : forall i l,
  P x -> Forall P l -> Forall P (replace_nth i x l).
Proof.
  intros i l Hx Hl. revert i. induction Hl as [|y l Hy Hl IH]; intros i.
  - destruct i; constructor.
  - destruct i; cbn; constructor; auto.
Qed.

Lemma invariant_initial : invariant initial.
Proof. repeat split; cbn; auto. Qed.

Lemma step_invariant st o : invariant st -> invariant (fst (step st o)).
Proof.
  intros (Hbusy & Hlen & Htasks & Hthreads). destruct o as [topic payload w|i|i]; cbn [step].
  - unfold on_message.
    destruct (text_eqb topic TOPIC_TTS_SAY).
    + pose proof (tts_play_emits (strip payload) (w_tts w) tt) as He.
      destruct (tts_play_48k (strip payload) (w_tts w) tt) as [[tr []] r].
      cbn [fst] in *. repeat split; cbn; auto.
      apply Forall_app. split; [assumption|]. constructor; [assumption|constructor].
    + destruct (text_eqb topic TOPIC_STT_CAP); [|repeat split; assumption].
      destruct (stt_busy st) eqn:Hb; [repeat split; cbn; auto; congruence|].
      rewrite (Hbusy eq_refl). repeat split; cbn; auto; try discriminate.
      constructor; [|constructor]. unfold new_task.
      pose proof (session_actions (parse_secs (strip payload)) (w_capture w)) as [Ha _].
      unfold session_trace in Ha.
      destruct (stt_once (parse_secs (strip payload)) (w_capture w) tt) as [[tr []] r].
      cbn [fst t_todo] in *. eapply forallb_impl; [apply session_not_clear | exact Ha].
  - unfold loop_step. destruct (nth_error (tasks st) i) as [t|] eqn:Hn;
      [|repeat split; assumption].
    destruct (tasks st) as [|t0 [|t1 l]] eqn:Hts; [destruct i; discriminate | | cbn in Hlen; lia].
    destruct i as [|i]; [|destruct i; discriminate]. cbn in Hn. injection Hn as <-.
    destruct (t_todo t0) as [|a todo] eqn:Htodo; cbn [fst].
    + repeat split; cbn; auto.
    + repeat split; cbn; auto.
      * intro Hb. specialize (Hbusy Hb). discriminate.
      * constructor; [|constructor]. cbn.
        inversion Htasks as [|? ? H0 _]; subst. rewrite Htodo in H0. cbn in H0.
        now apply andb_true_iff in H0.
  - unfold thread_step. destruct (nth_error (threads st) i) as [[|a todo]|] eqn:Hn;
      try (repeat split; assumption).
    repeat split; cbn; auto.
    apply Forall_replace_nth; [|assumption].
    apply nth_error_In in Hn. rewrite Forall_forall in Hthreads.
    specialize (Hthreads _ Hn). cbn in Hthreads. now apply andb_true_iff in Hthreads.
Qed.

Lemma run_invariant os : forall st, invariant st -> invariant (fst (run st os)).
Proof.
  induction os as [|o os IH]; intros st Hst; cbn [run]; [assumption|].
  pose proof (step_invariant o Hst) as H1. destruct (step st o) as [st' tr].
  specialize (IH st' H1). destruct (run st' os) as [st'' tr']. exact IH.
Qed.

(** [ClearBusy] comes from the done-callback of a finished coroutine. *)
Lemma clear_only_when_finished st o :
  invariant st -> In ClearBusy (snd (step st o)) ->
  exists i t, o = LoopRuns i /\ nth_error (tasks st) i = Some t /\ t_todo t = [].
Proof.
  intros (Hbusy & Hlen & Htasks & Hthreads). destruct o as [topic payload w|i|i]; cbn [step].
  - unfold on_message.
    destruct (text_eqb topic TOPIC_TTS_SAY).
    + destruct (tts_play_48k (strip payload) (w_tts w) tt) as [[tr []] r].
      cbn. intros [H|[]]. discriminate.
    + destruct (text_eqb topic TOPIC_STT_CAP); [|cbn; contradiction].
      destruct (stt_busy st); cbn; intros [H|[H|[]]]; discriminate.
  - unfold loop_step. destruct (nth_error (tasks st) i) as [t|] eqn:Hn; [|cbn; contradiction].
    destruct (t_todo t) as [|a todo] eqn:Htodo.
    + intros _. exists i, t. auto.
    + cbn. intros [->|[]]. apply nth_error_In in Hn. rewrite Forall_forall in Htasks.
      specialize (Htasks _ Hn). rewrite Htodo in Htasks. discriminate.
  - unfold thread_step. destruct (nth_error (threads st) i) as [[|a todo]|] eqn:Hn;
      try (cbn; contradiction).
    cbn. intros [->|[]]. apply nth_error_In in Hn. rewrite Forall_forall in Hthreads.
    specialize (Hthreads _ Hn). discriminate.
Qed.

Lemma done_ends t : exists tr, done t = tr ++ [ClearBusy].
Proof.
  unfold done. destruct (t_result t) as [[j|]|y|]; try destruct (truthy j);
    eexists; rewrite app_assoc; reflexivity.
Qed.

(** C3 (amended).  A capture request that arrives while the busy flag is
    set is a no-op: the state is unchanged (no new coroutine, hence no new
    capture process) and only two log lines are written (nothing is
    published).  In every state the gateway reaches, the busy flag is
    clear only when no capture coroutine is left on the loop and there is
    never more than one; the flag is cleared only by the done-callback of
    a coroutine that has performed all of its actions; and in the run of a
    session [ClearBusy] is the last action, after everything [stt_once]
    does.  What [stt_once] does before it returns or raises need not be a
    complete teardown (the capture process may still run): that much of
    the claim does not hold. *)
Theorem busy_capture_request_is_dropped :
  (forall st payload w,
      stt_busy st = true ->
      on_message st TOPIC_STT_CAP payload w =
      (st, [Log (LogMqtt TOPIC_STT_CAP (strip payload)); Log LogSttBusy]))
  /\ (forall os,
        let st := fst (run initial os) in
        (stt_busy st = false -> tasks st = [])
        /\ (List.length (tasks st) <= 1)%nat
        /\ forall o, In ClearBusy (snd (step st o)) ->
             exists i t, o = LoopRuns i /\ nth_error (tasks st) i = Some t
                         /\ t_todo t = [])
  /\ (forall st payload w,
        stt_busy st = false -> tasks st = [] ->
        exists tr,
          snd (run st (one_session payload w))
          = ([Log (LogMqtt TOPIC_STT_CAP (strip payload)); SetBusy]
             ++ session_trace (parse_secs (strip payload)) (w_capture w) ++ tr)
            ++ [ClearBusy]
          /\ forallb not_clear
               ([Log (LogMqtt TOPIC_STT_CAP (strip payload)); SetBusy]
                ++ session_trace (parse_secs (strip payload)) (w_capture w)) = true).
Proof.
  split; [|split].
  - intros st payload w Hb. now rewrite on_message_capture, Hb.
  - intros os st. pose proof (run_invariant os invariant_initial) as Hinv.
    fold st in Hinv. split; [apply Hinv|]. split; [apply Hinv|].
    intros o. now apply clear_only_when_finished.
  - intros st payload w Hb Ht. rewrite run_one_session by assumption. cbn [snd].
    destruct (done_ends (new_task (parse_secs (strip payload)) (w_capture w)))
      as (tr & Hd).
    exists tr. rewrite Hd. split.
    + now rewrite <- !app_assoc.
    + cbn [app forallb not_clear andb].
      eapply forallb_impl; [apply session_not_clear|apply session_actions].
Qed.

(** C5 (amended).  Take a capture request accepted by an idle gateway and
    run its session to the end.  On every exit path of [stt_once]
    (transcript, stream end, deadline, exception) the busy flag is cleared
    afterwards.  Once the session has reached the wait for a transcript it
    is disconnected, however the wait ends.  [stt_once] never signals the
    capture process; when it returns normally it has waited (up to 2 s)
    for arecord to exit by itself. *)
Theorem capture_session_cleanup st payload w :
  stt_busy st = false -> tasks st = [] ->
  let seconds := parse_secs (strip payload) in
  let e := w_capture w in
  let outcome := run st (one_session payload w) in
  fst outcome = {| stt_busy := false; tasks := []; threads := threads st |}
  /\ In ClearBusy (snd outcome)
  /\ (reaches_wait e = true -> In (Disconnect SttServer) (session_trace seconds e))
  /\ forallb (fun a => negb (is_stop_signal Capture a)) (session_trace seconds e) = true
  /\ (forall x, session_result seconds e = Ok x ->
        In (Exited Capture) (session_trace seconds e)
        \/ In (WaitTimedOut Capture) (session_trace seconds e)).
Proof.
  intros Hb Ht seconds e outcome. subst outcome.
  split; [now rewrite run_one_session|].
  split.
  { rewrite run_one_session by assumption. cbn [snd].
    apply in_or_app. right. apply in_or_app. right. apply done_clears. }
  split; [|split].
  - unfold reaches_wait, session_trace. intro Hr. rewrite stt_once_eq.
    apply andb_true_iff in Hr as [Hr Hs]. apply andb_true_iff in Hr as [Hr H3].
    apply andb_true_iff in Hr as [H1 H2]. rewrite H1, H2, H3.
    destruct (stream_audio e tt) as [[str []] [[]|y|]]; try discriminate.
    pose proof (wait_actions (deadline seconds e) (arrivals e) (t0 e)) as Hw.
    destruct (wait_transcript (deadline seconds e) (t0 e) (arrivals e) tt)
      as [[wtr []] [x|y|]]; destruct Hw as [_ Hw]; [| |congruence]; cbn [fst];
      apply in_or_app; right; apply in_or_app; right; apply in_or_app; right; now left.
  - eapply forallb_impl; [|apply session_actions].
    intros a Ha. destruct a; try reflexivity;
      match goal with h : holder |- _ => destruct h end;
      (reflexivity || discriminate).
  - unfold session_result, session_trace. intro x. rewrite stt_once_eq.
    destruct (spawn_ok e); [|discriminate].
    destruct (connect_ok e); [|discriminate].
    destruct (start_ok e); [|discriminate].
    destruct (stream_audio e tt) as [[str []] [[]|y|]]; try discriminate.
    destruct (wait_transcript (deadline seconds e) (t0 e) (arrivals e) tt)
      as [[wtr []] [x'|y|]]; try discriminate.
    intros _. cbn [fst].
    destruct (communicate e) as [[]|]; [left|left|right];
      apply in_or_app; right; apply in_or_app; right; apply in_or_app; right;
      right; cbn; auto.
Qed.

Lemma lstrip_whitespace s : forallb py_isspace s = true -> lstrip s = [].
Proof.
  induction s as [|c s IH]; cbn; [reflexivity|].
  intro H. apply andb_true_iff in H as [Hc Hs]. now rewrite Hc, IH.
Qed.

Lemma strip_whitespace s : forallb py_isspace s = true -> strip s = [].
Proof. intro H. unfold strip. rewrite (lstrip_whitespace _ H). reflexivity. Qed.

(** C7.  A tts/say payload that is empty or all whitespace starts a
    playback thread that does nothing: [tts_play_48k] returns at once, so
    no synthesis request is sent and no playback process is spawned; the
    message leaves one log line and no other trace. *)
Theorem blank_say_is_a_noop st payload w :
  forallb py_isspace payload = true ->
  on_message st TOPIC_TTS_SAY payload w =
  ({| stt_busy := stt_busy st; tasks := tasks st; threads := threads st ++ [[]] |},
   [Log (LogMqtt TOPIC_TTS_SAY [])])
  /\ tts_play_48k (strip payload) (w_tts w) tt = ([], tt, Ok tt)
  /\ existsb is_synthesis (fst (fst (tts_play_48k (strip payload) (w_tts w) tt))) = false.
Proof.
  intro H. unfold on_message. rewrite text_eqb_refl, (strip_whitespace _ H).
  cbn. auto.
Qed.
End GatewayInvariant.

(** *** The microphone between the two services *)

Section MicrophoneHandoff.
Context {wcfg : WakeListener.Config}
        {gcfg : VoiceGateway.Config} {glib : VoiceGateway.PyLib}.


End MicrophoneHandoff.

(** *** The playback transform *)

Section PlaybackTransform.
Import VoiceGateway.
Context {lib : PyLib}.

(** The 44 bytes written before the samples: RIFF/WAVE, PCM, 1 channel,
    48000 frames per second, 96000 bytes per second, 2 bytes per frame,
    16 bits per sample. *)
Definition wav_header_48k_mono16 (n : Z) : bytes :=
  ascii_bytes "RIFF" ++ le32 (36 + n) ++ ascii_bytes "WAVEfmt "
  ++ [x10; x00; x00; x00;  x01; x00;  x01; x00;  x80; xbb; x00; x00;
      x00; x77; x01; x00;  x02; x00;  x10; x00]
  ++ ascii_bytes "data" ++ le32 n.


End PlaybackTransform.

(** *** Malformed payloads *)

Section MalformedPayloads.
Context {gcfg : VoiceGateway.Config} {glib : VoiceGateway.PyLib}
        {rcfg : DialogueRouter.Config} {rlib : DialogueRouter.PyLib}.

(** C9 (amended).  A malformed payload never crashes the consumer, but it
    is served rather than ignored.  The gateway reads an stt/capture
    payload that is not a number as a request for [STT_SECS_DEFAULT]
    seconds, and starts that capture when it is not busy.  The router
    reads an stt/text payload that starts with a brace and does not decode
    as JSON as empty text, and answers it on tts/say with "I didn't catch
    that.".  The router's handler ends normally on every payload (the
    gateway's raises nowhere). *)
Theorem malformed_payload_is_served :
  (forall st payload w,
      VoiceGateway.int_float (strip payload) = None ->
      VoiceGateway.parse_secs (strip payload) = VoiceGateway.STT_SECS_DEFAULT
      /\ (VoiceGateway.stt_busy st = false ->
          VoiceGateway.on_message st VoiceGateway.TOPIC_STT_CAP payload w =
          ({| VoiceGateway.stt_busy := true;
              VoiceGateway.tasks :=
                VoiceGateway.tasks st
                ++ [VoiceGateway.new_task VoiceGateway.STT_SECS_DEFAULT
                      (VoiceGateway.w_capture w)];
              VoiceGateway.threads := VoiceGateway.threads st |},
           [Log (LogMqtt VoiceGateway.TOPIC_STT_CAP (strip payload)); SetBusy])))
  /\ (forall payload clock,
        startswith (T "{") (strip payload) = true ->
        DialogueRouter.json_loads (strip payload) = None ->
        DialogueRouter.on_message payload clock tt =
        ([Log (LogDialogue [] (T "I didn't catch that."));
          Publish DialogueRouter.TOPIC_TTS (PText (T "I didn't catch that."))],
         tt, Ok tt))
  /\ (forall payload clock, snd (DialogueRouter.on_message payload clock tt) = Ok tt).
Proof.
  split; [|split].
  - intros st payload w Hnum.
    assert (Hsecs : VoiceGateway.parse_secs (strip payload) = VoiceGateway.STT_SECS_DEFAULT).
    { unfold VoiceGateway.parse_secs. rewrite Hnum. now destruct (strip payload). }
    split; [exact Hsecs|]. intro Hb.
    now rewrite on_message_capture, Hb, Hsecs.
  - intros payload clock Hbrace Hjson.
    unfold DialogueRouter.on_message, try_except. rewrite Hbrace.
    unfold DialogueRouter.json_text. rewrite Hjson.
    reflexivity.
  - intros payload clock. unfold DialogueRouter.on_message, try_except, bind.
    cbn [emit].
    destruct (DialogueRouter.intent_reply clock
                (if startswith (T "{") (strip payload)
                 then DialogueRouter.json_text (strip payload)
                 else strip payload)); reflexivity.
Qed.
End MalformedPayloads.

(* ================================================================== *)
(** * Further properties of the code *)

(** ** Strings *)

Lemma lstrip_split s :
  exists ws, s = ws ++ lstrip s /\ forallb py_isspace ws = true.
Proof.
  induction s as [|c s (ws & Hs & Hws)]; [now exists []|].
  cbn [lstrip]. destruct (py_isspace c) eqn:Hc.
  - exists (c :: ws). cbn. rewrite Hc, Hws. split; [now f_equal | reflexivity].
  - now exists [].
Qed.

Lemma lstrip_head s c r : lstrip s = c :: r -> py_isspace c = false.
Proof.
  induction s as [|x s IH]; cbn [lstrip]; [discriminate|].
  destruct (py_isspace x) eqn:Hx; [exact IH|].
  intro H. injection H as <- _. exact Hx.
Qed.

Lemma lstrip_fixed s : lstrip (lstrip s) = lstrip s.
Proof.
  destruct (lstrip s) as [|c r] eqn:H; [reflexivity|].
  cbn. now rewrite (lstrip_head _ H).
Qed.

Lemma lstrip_nil s : lstrip s = [] -> forallb py_isspace s = true.
Proof.
  intro H. destruct (lstrip_split s) as (ws & Hs & Hws).
  rewrite H, app_nil_r in Hs. now subst.
Qed.

(** Neither the first nor the last character is white space. *)
Definition stripped (s : text) : Prop := lstrip s = s /\ lstrip (rev s) = rev s.

Lemma strip_stripped s : stripped (strip s).
Proof.
  unfold stripped, strip. rewrite rev_involutive, lstrip_fixed. split; [|reflexivity].
  destruct (lstrip_split (rev (lstrip s))) as (ws & Hs & _).
  destruct (rev (lstrip (rev (lstrip s)))) as [|c r] eqn:Hb; [reflexivity|].
  apply (f_equal (@rev N)) in Hs. rewrite rev_involutive, rev_app_distr, Hb in Hs.
  cbn in Hs. cbn [lstrip].
  assert (Hc : py_isspace c = false).
  { apply (@lstrip_head (lstrip s) c (r ++ rev ws)). now rewrite lstrip_fixed. }
  now rewrite Hc.
Qed.

Lemma stripped_strip s : stripped s -> strip s = s.
Proof. intros [H1 H2]. unfold strip. now rewrite H1, H2, rev_involutive. Qed.

Lemma strip_strip s : strip (strip s) = strip s.
Proof. apply stripped_strip, strip_stripped. Qed.

Lemma strip_nil s : strip s = [] -> forallb py_isspace s = true.
Proof.
  unfold strip. intro H. apply (f_equal (@rev N)) in H. rewrite rev_involutive in H.
  cbn in H. apply lstrip_nil in H.
  assert (Hl : forallb py_isspace (lstrip s) = true).
  { rewrite <- (rev_involutive (lstrip s)). rewrite forallb_forall in *.
    intros x Hx. apply H. now apply in_rev. }
  destruct (lstrip s) as [|c r] eqn:Hs; [now apply lstrip_nil|].
  apply lstrip_head in Hs. cbn in Hl. rewrite Hs in Hl. discriminate.
Qed.

Lemma In_lstrip x s : In x (lstrip s) -> In x s.
Proof.
  destruct (lstrip_split s) as (ws & Hs & _). intro H. rewrite Hs.
  apply in_or_app. now right.
Qed.

Lemma In_strip x s : In x (strip s) -> In x s.
Proof.
  unfold strip. intro H. apply in_rev in H. apply In_lstrip in H.
  apply in_rev in H. now apply In_lstrip.
Qed.

Lemma lstrip_cons_fixed c s : lstrip (c :: s) = c :: s -> py_isspace c = false.
Proof. apply lstrip_head. Qed.

(** In a stripped text whose fourth character is a space, something other
    than white space follows that space. *)
Lemma stripped_after_space t :
  stripped t -> nth_error t 3 = Some 32%N -> strip (skipn 4 t) <> [].
Proof.
  intros [_ Hr] H3 Hnil. apply strip_nil in Hnil.
  destruct t as [|a [|b [|c [|d u]]]]; try discriminate.
  cbn in H3. injection H3 as ->. cbn [skipn] in Hnil.
  assert (Hrev : exists x r, rev (a :: b :: c :: 32%N :: u) = x :: r /\ py_isspace x = true).
  { change (a :: b :: c :: 32%N :: u) with ([a; b; c; 32%N] ++ u).
    rewrite rev_app_distr. destruct (rev u) as [|x r] eqn:Hu.
    - exists 32%N. eexists. split; [reflexivity|reflexivity].
    - exists x. eexists. split; [reflexivity|].
      rewrite forallb_forall in Hnil. apply Hnil. apply in_rev. rewrite Hu. now left. }
  destruct Hrev as (x & r & Hx & Hsp). rewrite Hx in Hr.
  apply lstrip_cons_fixed in Hr. congruence.
Qed.

(** ** dialogue_router.py *)

Section RouterFacts.
Import DialogueRouter.
Context {cfg : Config} {lib : PyLib}.

Lemma intent_reply_strip clock heard :
  intent_reply clock (strip heard) = intent_reply clock heard.
Proof. unfold intent_reply. now rewrite strip_strip. Qed.

Lemma intent_reply_nonempty clock heard :
  clock <> [] -> intent_reply clock heard <> [].
Proof.
  intro Hc. unfold intent_reply. destruct (strip heard) as [|c t]; [discriminate|].
  destruct (startswith (T "say ") (lower (c :: t))).
  - destruct (strip (skipn 4 (c :: t))); discriminate.
  - destruct (contains (T "what time") (lower (c :: t))
              || contains (T "time is it") (lower (c :: t))); [exact Hc|].
    destruct (contains (T "your name") (lower (c :: t))
              || contains (T "who are you") (lower (c :: t))); discriminate.
Qed.

(** What the handler takes as the text heard. *)
Definition heard_in (payload : text) : text :=
  if startswith (T "{") (strip payload) then json_text (strip payload) else strip payload.

Lemma on_message_eq payload clock :
  on_message payload clock tt =
  match intent_reply clock (heard_in payload) with
  | [] => ([Log (LogDialogue (heard_in payload) [])], tt, Ok tt)
  | r => ([Log (LogDialogue (heard_in payload) r); Publish TOPIC_TTS (PText r)], tt, Ok tt)
  end.
Proof.
  unfold on_message, try_except, bind, heard_in. cbn [emit].
  destruct (intent_reply clock _); reflexivity.
Qed.

(** X1.  Every message on stt/text is answered: whatever the payload, the
    handler ends normally having published exactly one message, on
    tts/say, and that message is not empty.  (The test [if reply:] never
    fails: [intent_reply] returns no empty string, given that the
    formatted time is not empty.) *)
Theorem router_always_replies payload clock :
  clock <> [] ->
  exists heard reply,
    reply = intent_reply clock heard /\ reply <> []
    /\ on_message payload clock tt =
       ([Log (LogDialogue heard reply); Publish TOPIC_TTS (PText reply)], tt, Ok tt).
Proof.
  intro Hc. exists (heard_in payload), (intent_reply clock (heard_in payload)).
  pose proof (intent_reply_nonempty (heard_in payload) Hc) as Hne.
  split; [reflexivity|]. split; [exact Hne|].
  rewrite on_message_eq. destruct (intent_reply clock (heard_in payload)); congruence.
Qed.

(** X2.  The text after "say " is echoed, trimmed, and the fallback "Okay." is
    never used: the text heard is stripped before the test, so that when
    its lower-case form begins with "say " something other than white
    space follows.  ([str.lower] turns only a space into a space and keeps
    the positions of the first four characters: the hypothesis.) *)
Theorem say_echoes_the_rest clock heard :
  (forall s, startswith (T "say ") (lower s) = true -> nth_error s 3 = Some 32%N) ->
  startswith (T "say ") (lower (strip heard)) = true ->
  intent_reply clock heard = strip (skipn 4 (strip heard))
  /\ strip (skipn 4 (strip heard)) <> [].
Proof.
  intros Hlow Hsay. pose proof (Hlow _ Hsay) as H3.
  pose proof (stripped_after_space (strip_stripped heard) H3) as Hne.
  split; [|exact Hne]. unfold intent_reply.
  destruct (strip heard) as [|c t] eqn:Ht; [discriminate|].
  rewrite Hsay. destruct (strip (skipn 4 (c :: t))); congruence.
Qed.

Lemma lstrip_zero_it_is hh mm ampm : time_reply hh mm ampm = strftime_it_is hh mm ampm.
Proof. reflexivity. Qed.

(** X3.  Asked for the time, the router answers with the whole formatted
    string: [lstrip("0")] is applied to a string that begins with "It is",
    so the zero that pads the hour stays ("It is 09:05 AM."). *)
Theorem time_reply_keeps_padded_hour hh mm ampm heard :
  strip heard <> [] ->
  startswith (T "say ") (lower (strip heard)) = false ->
  contains (T "what time") (lower (strip heard))
  || contains (T "time is it") (lower (strip heard)) = true ->
  intent_reply (time_reply hh mm ampm) heard
  = T "It is " ++ hh ++ T ":" ++ mm ++ T " " ++ ampm ++ T ".".
Proof.
  intros Hne Hsay Htime. unfold intent_reply.
  destruct (strip heard) as [|c t]; [congruence|].
  rewrite Hsay, Htime. apply lstrip_zero_it_is.
Qed.

(** X4.  A JSON object is an envelope only: when the payload starts with a
    brace and decodes to an object, the text heard is the trimmed string
    under "text" and the reply is [intent_reply] of that string; when
    "text" is missing, null, or anything but a string, the text heard is
    empty and the reply is "I didn't catch that.". *)
Theorem json_envelope payload clock fields :
  startswith (T "{") (strip payload) = true ->
  json_loads (strip payload) = Some (JObj fields) ->
  (forall s, dict_get (T "text") fields = JStr s ->
     on_message payload clock tt =
     match intent_reply clock s with
     | [] => ([Log (LogDialogue (strip s) [])], tt, Ok tt)
     | r => ([Log (LogDialogue (strip s) r); Publish TOPIC_TTS (PText r)], tt, Ok tt)
     end)
  /\ ((forall s, dict_get (T "text") fields <> JStr s) ->
      on_message payload clock tt =
      ([Log (LogDialogue [] (T "I didn't catch that."));
        Publish TOPIC_TTS (PText (T "I didn't catch that."))], tt, Ok tt)).
Proof.
  intros Hb Hj. split.
  - intros s Hs. rewrite on_message_eq. unfold heard_in. rewrite Hb.
    unfold json_text. rewrite Hj, Hs.
    assert (E : (if truthy (JStr s) then strip s else strip []) = strip s)
      by (destruct s; reflexivity).
    rewrite E, intent_reply_strip. reflexivity.
  - intros Hs. rewrite on_message_eq. unfold heard_in. rewrite Hb.
    unfold json_text. rewrite Hj.
    destruct (dict_get (T "text") fields) as [| | | |s| |] eqn:Hd;
      try (destruct (truthy _); reflexivity).
    exfalso. exact (Hs s eq_refl).
Qed.
End RouterFacts.

(** ** The environment helpers *)

Lemma before_app sep v c : ~ In sep v -> before sep (v ++ sep :: c) = v.
Proof.
  induction v as [|x v IH]; cbn; intro H.
  - now rewrite N.eqb_refl.
  - destruct (N.eqb x sep) eqn:E.
    + apply N.eqb_eq in E. exfalso. apply H. now left.
    + f_equal. apply IH. intro Hin. apply H. now right.
Qed.

Lemma before_all sep v : ~ In sep v -> before sep v = v.
Proof.
  induction v as [|x v IH]; cbn; intro H; [reflexivity|].
  destruct (N.eqb x sep) eqn:E.
  - apply N.eqb_eq in E. exfalso. apply H. now left.
  - f_equal. apply IH. intro Hin. apply H. now right.
Qed.

Lemma not_In_before sep s : ~ In sep (before sep s).
Proof.
  induction s as [|x s IH]; cbn; [tauto|].
  destruct (N.eqb x sep) eqn:E; [cbn; tauto|].
  apply N.eqb_neq in E. cbn. intros [H|H]; [congruence|now apply IH].
Qed.

Lemma whitespace_no_hash ws : forallb py_isspace ws = true -> ~ In 35%N ws.
Proof.
  intros H Hin. rewrite forallb_forall in H. specialize (H _ Hin). discriminate.
Qed.

Section EnvFacts.
Import VoiceGateway.
Context {cfg : Config} {lib : PyLib}.

(** X5.  A value read from the environment is in normal form: it holds no
    [#], and neither begins nor ends with white space. *)
Theorem clean_env_normal_form environ name default :
  ~ In 35%N (_clean_env environ name default)
  /\ stripped (_clean_env environ name default).
Proof.
  unfold _clean_env. split; [|apply strip_stripped].
  intro H. apply In_strip in H. exact (not_In_before _ _ H).
Qed.

(** X6.  An inline comment is dropped: a variable set to [v # note] reads as
    [v] trimmed, exactly as if it were set to [v]; the default plays no
    part once the variable is set. *)
Theorem clean_env_drops_comment environ name default v c :
  ~ In 35%N v ->
  environ name = Some (v ++ 35%N :: c) ->
  _clean_env environ name default = strip v
  /\ _clean_env (fun _ => Some v) name default = strip v.
Proof.
  intros Hv He. unfold _clean_env. rewrite He, before_app, before_all by assumption.
  split; reflexivity.
Qed.

(** X7.  A variable that is set but blank, or set to a comment only, reads as
    the empty string and not as the default; [env_int] then raises, since
    [int(float(""))] does. *)
Theorem blank_env_value_is_not_defaulted environ name ws :
  forallb py_isspace ws = true ->
  environ name = Some ws \/ (exists c, environ name = Some (ws ++ 35%N :: c)) ->
  (forall default, _clean_env environ name default = [])
  /\ (int_float [] = None -> forall default, env_int environ name default = None).
Proof.
  intros Hws He.
  assert (H : forall default, _clean_env environ name default = []).
  { intro default. unfold _clean_env.
    destruct He as [-> | [c ->]].
    - rewrite before_all by now apply whitespace_no_hash.
      unfold strip. now rewrite (lstrip_whitespace _ Hws).
    - rewrite before_app by now apply whitespace_no_hash.
      unfold strip. now rewrite (lstrip_whitespace _ Hws). }
  split; [exact H|]. intros Hf default. unfold env_int. now rewrite H.
Qed.
End EnvFacts.


(** ** wake_listener.py: the [finally] block and the restart loop *)

Section WakeCleanup.
Import WakeListener.
Context {cfg : Config}.

Definition crashed (p : pump_end) : bool :=
  match p with Crashed _ => true | _ => false end.

Definition failed (t : task_state) : bool :=
  match t with TaskFailed _ => true | _ => false end.

(** The pump task cancelled for this input had not raised. *)
Definition pump_holds (i : input) : bool :=
  match i with
  | Event _ _ h => negb (crashed (pump_at_cancel h))
  | _ => true
  end.

(** An event whose hand-off, if there is one, runs to its end. *)
Definition completes (i : input) : bool :=
  match i with
  | Event _ _ h => negb (crashed (pump_at_cancel h)) && respawn_ok h
  | _ => false
  end.

Lemma handoff_holds mqtt e now h v :
  pump_task v = TaskLive -> crashed (pump_at_cancel h) = false ->
  failed (pump_task (snd (fst (handoff mqtt e now h v)))) = false.
Proof.
  destruct v as [l t x]. cbn [pump_task]. intros -> Hc.
  destruct h as [b p st rs]. cbn [pump_at_cancel] in Hc.
  destruct p; try discriminate; destruct mqtt, b, x, st, rs; reflexivity.
Qed.

Lemma turn_holds mqtt e now h v :
  pump_task v = TaskLive -> crashed (pump_at_cancel h) = false ->
  failed (pump_task (snd (fst ((if is_wake e then on_wake mqtt e now h else ret tt) v)))) = false.
Proof.
  intros Ht Hc. destruct (is_wake e); [|cbn; now rewrite Ht].
  destruct (Qlt_le_dec (now - last_wake_ts v) (inject_Z WAKE_COOLDOWN)) as [Hlt|Hge].
  - rewrite on_wake_discard by assumption. cbn. now rewrite Ht.
  - rewrite on_wake_accept by assumption. now apply handoff_holds.
Qed.

Lemma turn_is_ok mqtt e now h v :
  pump_task v = TaskLive -> proc_exited v = false ->
  turn_ok ((if is_wake e then on_wake mqtt e now h else ret tt) v).
Proof.
  intros Ht Hx. destruct (is_wake e); [now apply on_wake_ordered|].
  unfold turn_ok. cbn. repeat split; auto.
Qed.

Lemma loop_holds mqtt inputs : forall v,
  pump_task v = TaskLive -> proc_exited v = false ->
  forallb pump_holds inputs = true ->
  failed (pump_task (snd (fst (listen_loop mqtt inputs v)))) = false.
Proof.
  induction inputs as [|i rest IH]; intros v Ht Hx Hin.
  - cbn. now rewrite Ht.
  - cbn [forallb] in Hin. apply andb_true_iff in Hin as [Hi Hrest].
    destruct i as [|x|e now h]; try (cbn; now rewrite Ht).
    rewrite listen_loop_event.
    cbn [pump_holds] in Hi. apply negb_true_iff in Hi.
    pose proof (turn_holds mqtt e now h v Ht Hi) as Hf.
    pose proof (turn_is_ok mqtt e now h v Ht Hx) as Hok.
    destruct ((if is_wake e then on_wake mqtt e now h else ret tt) v) as [[tr1 v1] r1].
    cbn [fst snd] in Hf. destruct Hok as (_ & _ & Hr).
    destruct r1 as [[]|x|]; [|exact Hf|contradiction].
    destruct Hr as (Ht1 & Hx1 & _).
    specialize (IH v1 Ht1 Hx1 Hrest).
    destruct (listen_loop mqtt rest v1) as [[tr2 v2] r2]. exact IH.
Qed.

Lemma cleanup_finishes c v pv wv :
  consistent v pv wv = true -> crashed (c_pump c) = false ->
  failed (pump_task v) = false ->
  let '(tr, _, r) := cleanup c v in
  r = Ok tt
  /\ tr = removelast tr ++ [Disconnect WakeServer]
  /\ fold_left pump_step tr pv = PumpSettled
  /\ released (fold_left proc_step tr wv) = true.
Proof.
  destruct v as [l t x], c as [p st d e]. unfold consistent.
  cbn [pump_task proc_exited c_pump].
  destruct t; try discriminate; destruct p; try discriminate;
    destruct x, pv, wv; try discriminate; intros _ _ _;
    destruct st, d, e; repeat split; reflexivity.
Qed.

(** X8.  Once [stream_and_listen] is past its start-up, and as long as no pump
    task has ended by raising, the [finally] block runs to its end on
    every way out of the loop (end of stream, failed read, failed beep or
    respawn): the pump has been cancelled and awaited, the arecord process
    stopped (seen to exit, or signalled twice), and the last thing done is
    the disconnect.  The outcome is that of the loop. *)
Theorem wake_cleanup_completes mqtt s inputs c :
  connect_ok s = true -> start_ok s = true -> spawn_ok s = true ->
  forallb pump_holds inputs = true -> crashed (c_pump c) = false ->
  snd (listen_loop mqtt inputs initial_vars) <> Pending ->
  let out := run_stream mqtt s inputs c in
  snd out = snd (listen_loop mqtt inputs initial_vars)
  /\ (exists tr', fst out = tr' ++ [Disconnect WakeServer])
  /\ pump_after (fst out) = PumpSettled
  /\ released (proc_after (fst out)) = true.
Proof.
  intros Hc Hs Hp Hin Hcp Hnp out. subst out. unfold run_stream.
  rewrite stream_and_listen_started by assumption. unfold try_finally.
  pose proof (loop_ordered mqtt inputs initial_vars eq_refl eq_refl) as Hl.
  pose proof (loop_holds mqtt inputs initial_vars eq_refl eq_refl Hin) as Hf.
  destruct (listen_loop mqtt inputs initial_vars) as [[tr v] r].
  cbn [fst snd] in *. destruct Hl as (_ & _ & Hcons). specialize (Hcons Hnp).
  pose proof (cleanup_finishes c v _ _ Hcons Hcp Hf) as Hcl.
  destruct (cleanup c v) as [[tr' v'] r'].
  destruct Hcl as (-> & Hlast & Hpump & Hproc).
  assert (Hgoal :
    (exists t, startup_trace ++ tr ++ tr' = t ++ [Disconnect WakeServer])
    /\ pump_after (startup_trace ++ tr ++ tr') = PumpSettled
    /\ released (proc_after (startup_trace ++ tr ++ tr')) = true).
  { split; [|split].
    - exists (startup_trace ++ tr ++ removelast tr'). rewrite Hlast at 1.
      now rewrite <- !app_assoc.
    - unfold pump_after. rewrite !fold_left_app. exact Hpump.
    - unfold proc_after. rewrite !fold_left_app. exact Hproc. }
  destruct r as [[]|x|]; [| |congruence]; cbn [fst snd]; (split; [reflexivity|exact Hgoal]).
Qed.

Lemma handoff_completes mqtt e now h v :
  pump_task v = TaskLive -> proc_exited v = false ->
  crashed (pump_at_cancel h) = false -> respawn_ok h = true ->
  let '(tr, v', r) := handoff mqtt e now h v in
  r = Ok tt /\ pump_task v' = TaskLive /\ proc_exited v' = false
  /\ fold_left proc_step tr Running = Running
  /\ existsb (is_disconnect WakeServer) tr = false.
Proof.
  destruct v as [l t x]. cbn [pump_task proc_exited]. intros -> -> Hc Hr.
  destruct h as [b p st rs]. cbn [pump_at_cancel respawn_ok] in Hc, Hr. subst rs.
  destruct p; try discriminate; destruct mqtt, b, st; repeat split; reflexivity.
Qed.

Lemma loop_completes mqtt events : forall v,
  pump_task v = TaskLive -> proc_exited v = false ->
  forallb completes events = true ->
  exists tr1 v1,
    pump_task v1 = TaskLive /\ proc_exited v1 = false
    /\ fold_left proc_step tr1 Running = Running
    /\ existsb (is_disconnect WakeServer) tr1 = false
    /\ forall rest,
         listen_loop mqtt (events ++ rest) v =
         let '(tr2, v2, r) := listen_loop mqtt rest v1 in (tr1 ++ tr2, v2, r).
Proof.
  induction events as [|i events IH]; intros v Ht Hx Hev.
  - exists [], v. repeat split; auto. intro rest. cbn.
    now destruct (listen_loop mqtt rest v) as [[tr2 v2] r].
  - cbn [forallb] in Hev. apply andb_true_iff in Hev as [Hi Hrest].
    destruct i as [|x|e now h]; try discriminate.
    cbn [completes] in Hi. apply andb_true_iff in Hi as [Hc Hr].
    apply negb_true_iff in Hc.
    assert (Hturn : exists tr0 v0,
               (if is_wake e then on_wake mqtt e now h else ret tt) v = (tr0, v0, Ok tt)
               /\ pump_task v0 = TaskLive /\ proc_exited v0 = false
               /\ fold_left proc_step tr0 Running = Running
               /\ existsb (is_disconnect WakeServer) tr0 = false).
    { destruct (is_wake e); [|exists [], v; repeat split; auto].
      destruct (Qlt_le_dec (now - last_wake_ts v) (inject_Z WAKE_COOLDOWN)) as [Hlt|Hge].
      - rewrite on_wake_discard by assumption. exists [], v. repeat split; auto.
      - rewrite on_wake_accept by assumption.
        pose proof (handoff_completes mqtt e now h v Ht Hx Hc Hr) as Hh.
        destruct (handoff mqtt e now h v) as [[tr0 v0] r0].
        destruct Hh as (-> & H1 & H2 & H3 & H4). exists tr0, v0. repeat split; auto. }
    destruct Hturn as (tr0 & v0 & Hturn & Ht0 & Hx0 & Hp0 & Hd0).
    destruct (IH v0 Ht0 Hx0 Hrest) as (tr1 & v1 & Ht1 & Hx1 & Hp1 & Hd1 & Hloop).
    exists (Recv WakeServer :: tr0 ++ tr1), v1. repeat split; auto.
    + cbn [fold_left proc_step]. now rewrite fold_left_app, Hp0.
    + cbn [existsb is_disconnect orb]. now rewrite existsb_app, Hd0, Hd1.
    + intro rest. cbn [app]. rewrite listen_loop_event, Hturn, Hloop.
      destruct (listen_loop mqtt rest v1) as [[tr2 v2] r].
      now rewrite <- app_assoc.
Qed.

(** The outcome of a run whose loop ends while the pump task, still
    live, has raised: what [crashed_pump_defeats_cleanup] says of it. *)
Definition abandoned (e : exn) (out : trace * result unit) : Prop :=
  snd out = Raise e
  /\ (exists tr', fst out = tr' ++ [CancelPump; AwaitPump])
  /\ existsb (is_disconnect WakeServer) (fst out) = false
  /\ proc_after (fst out) = Running.

Lemma abandoned_run mqtt s events last c e :
  connect_ok s = true -> start_ok s = true -> spawn_ok s = true ->
  forallb completes events = true ->
  last = Closed \/ (exists x, last = ReadFails x) ->
  c_pump c = Crashed e ->
  abandoned e (run_stream mqtt s (events ++ [last]) c).
Proof.
  intros Hc Hs Hp Hev Hlast Hcr. unfold abandoned, run_stream.
  rewrite stream_and_listen_started by assumption. unfold try_finally.
  destruct (loop_completes mqtt events initial_vars eq_refl eq_refl Hev)
    as (tr1 & v1 & Ht1 & Hx1 & Hp1 & Hd1 & Hloop).
  rewrite Hloop. destruct v1 as [l t x]. cbn [pump_task proc_exited] in Ht1, Hx1. subst.
  destruct c as [p st d se]. cbn [c_pump] in Hcr. subst p.
  destruct Hlast as [-> | [y ->]]; cbn [fst snd].
  - repeat split.
    + exists (startup_trace ++ tr1 ++ [Recv WakeServer]). cbn. now rewrite <- !app_assoc.
    + cbn. now rewrite !existsb_app, Hd1.
    + unfold proc_after. cbn. now rewrite !fold_left_app, Hp1.
  - repeat split.
    + exists (startup_trace ++ tr1). cbn. now rewrite <- !app_assoc.
    + cbn. now rewrite !existsb_app, Hd1.
    + unfold proc_after. cbn. now rewrite !fold_left_app, Hp1.
Qed.

(** X9.  When the pump task has ended by raising (a failed write to the wake
    server, say), [await pump_task] in the [finally] block raises that
    exception again, and nothing after it runs: on leaving the loop (end
    of stream or failed read) [stream_and_listen] raises the pump's
    exception right after the await, the arecord process it last spawned
    has been neither signalled nor seen to exit, and the session is not
    disconnected. *)
Theorem crashed_pump_defeats_cleanup mqtt s events last c e :
  connect_ok s = true -> start_ok s = true -> spawn_ok s = true ->
  forallb completes events = true ->
  last = Closed \/ (exists x, last = ReadFails x) ->
  c_pump c = Crashed e ->
  let out := run_stream mqtt s (events ++ [last]) c in
  snd out = Raise e
  /\ (exists tr', fst out = tr' ++ [CancelPump; AwaitPump])
  /\ existsb (is_disconnect WakeServer) (fst out) = false
  /\ proc_after (fst out) = Running.
Proof.
  intros Hc Hs Hp Hev Hlast Hcr out.
  exact (abandoned_run mqtt s events c Hc Hs Hp Hev Hlast Hcr).
Qed.

Lemma main_async_starts s inputs c rest :
  connect_ok s = true -> start_ok s = true -> spawn_ok s = true ->
  exists tr, fst (main_async ((s, inputs, c) :: rest)) = startup_trace ++ tr.
Proof.
  intros Hc Hs Hp. cbn [main_async]. unfold run_stream.
  rewrite stream_and_listen_started by assumption.
  destruct (try_finally (listen_loop true inputs) (cleanup c) initial_vars) as [[tr v] r].
  destruct r as [[]|x|]; [| |exists tr; reflexivity];
    destruct (main_async rest) as [tr' r']; cbn [fst];
    eexists; rewrite <- app_assoc; reflexivity.
Qed.

Lemma main_async_raise s inputs c rest e :
  snd (run_stream true s inputs c) = Raise e ->
  main_async ((s, inputs, c) :: rest) =
  (fst (run_stream true s inputs c)
   ++ Log (LogWakeError e) :: Sleep (1 # 2) :: fst (main_async rest),
   snd (main_async rest)).
Proof.
  intro H. cbn [main_async]. destruct (run_stream true s inputs c) as [tr r].
  cbn [snd] in H. subst r. now destruct (main_async rest).
Qed.

(** X10.  [main_async] contains the failure and goes on: it logs the exception,
    sleeps 0.5 s and calls [stream_and_listen] again, which spawns a new
    arecord while the one abandoned by the failed [finally] block has been
    neither signalled nor seen to exit. *)
Theorem restart_spawns_beside_abandoned_arecord s events last c e s2 inputs2 c2 rest :
  connect_ok s = true -> start_ok s = true -> spawn_ok s = true ->
  forallb completes events = true ->
  last = Closed \/ (exists x, last = ReadFails x) ->
  c_pump c = Crashed e ->
  connect_ok s2 = true -> start_ok s2 = true -> spawn_ok s2 = true ->
  exists post,
    fst (main_async ((s, events ++ [last], c) :: (s2, inputs2, c2) :: rest))
    = (fst (run_stream true s (events ++ [last]) c)
       ++ [Log (LogWakeError e); Sleep (1 # 2);
           Connect WakeServer; Send WakeServer AudioStart; Log LogWakeStart])
      ++ Spawn Wake None :: post
    /\ proc_after (fst (run_stream true s (events ++ [last]) c)
                   ++ [Log (LogWakeError e); Sleep (1 # 2);
                       Connect WakeServer; Send WakeServer AudioStart; Log LogWakeStart])
       = Running.
Proof.
  intros Hc Hs Hp Hev Hlast Hcr Hc2 Hs2 Hp2.
  destruct (abandoned_run true s events c Hc Hs Hp Hev Hlast Hcr) as (H1 & _ & _ & H4).
  destruct (@main_async_starts s2 inputs2 c2 rest Hc2 Hs2 Hp2) as (tr2 & Htr2).
  rewrite (main_async_raise _ _ _ _ H1). cbn [fst]. rewrite Htr2.
  exists (StartPump :: tr2). split.
  - rewrite <- app_assoc. reflexivity.
  - unfold proc_after in *. rewrite fold_left_app, H4. reflexivity.
Qed.
End WakeCleanup.


(** ** wake_listener.py: what is published *)

Lemma digits_visible d :
  forallb (fun c => negb (py_isspace c)) (T (NilEmpty.string_of_uint d)) = true.
Proof. induction d; cbn; try assumption; reflexivity. Qed.

Lemma str_of_Z_visible z :
  str_of_Z z <> [] /\ forallb (fun c => negb (py_isspace c)) (str_of_Z z) = true.
Proof.
  unfold str_of_Z, NilZero.string_of_int, NilZero.string_of_uint.
  destruct (Z.to_int z) as [d|d]; destruct d; cbn; split;
    try discriminate; try reflexivity; apply (digits_visible d).
Qed.

Lemma visible_lstrip s :
  forallb (fun c => negb (py_isspace c)) s = true -> lstrip s = s.
Proof.
  destruct s as [|c s]; [reflexivity|]. cbn. intro H.
  apply andb_true_iff in H as [Hc _]. apply negb_true_iff in Hc. now rewrite Hc.
Qed.

Lemma visible_strip s :
  forallb (fun c => negb (py_isspace c)) s = true -> strip s = s.
Proof.
  intro H. apply stripped_strip. split; [now apply visible_lstrip|].
  apply visible_lstrip. rewrite forallb_forall in *. intros x Hx.
  apply H. now apply in_rev.
Qed.

(** [str(n)] has nothing to strip. *)
Lemma strip_str_of_Z z : strip (str_of_Z z) = str_of_Z z.
Proof. apply visible_strip, str_of_Z_visible. Qed.

Section WakeRequests.
Import WakeListener.
Context {cfg : Config}.

(** The capture request: [str(CAPTURE_SECS)]. *)
Definition request : payload := PText (str_of_Z CAPTURE_SECS).

(** What a stretch of the run has published: [k] capture requests, after
    as many wake detections or one more. *)
Definition tally (k : nat) (tr : trace) : Prop :=
  published TOPIC_STT_CAPTURE tr = repeat request k
  /\ (List.length (published TOPIC_WAKE tr) = k
      \/ List.length (published TOPIC_WAKE tr) = S k).

Lemma capture_differs : text_eqb TOPIC_STT_CAPTURE TOPIC_WAKE = false.
Proof. unfold TOPIC_WAKE, TOPIC_STT_CAPTURE. now rewrite text_eqb_app_l. Qed.

Lemma handoff_tally mqtt e now h v :
  let '(tr, _, r) := handoff mqtt e now h v in
  exists k, published TOPIC_STT_CAPTURE tr = repeat request k
            /\ (List.length (published TOPIC_WAKE tr) = k
                \/ List.length (published TOPIC_WAKE tr) = S k /\ r <> Ok tt).
Proof.
  destruct v as [l t x], h as [b p st rs].
  destruct mqtt, b, p, t, x, st, rs; cbn;
    rewrite ?text_eqb_refl, ?topics_differ, ?capture_differs; cbn;
    first [ exists 1%nat; split; [reflexivity | left; reflexivity]
          | exists 0%nat; split; [reflexivity | left; reflexivity]
          | exists 0%nat; split; [reflexivity | right; split; [reflexivity|discriminate]] ].
Qed.

Lemma tally_app k1 k2 a b :
  published TOPIC_STT_CAPTURE a = repeat request k1 ->
  List.length (published TOPIC_WAKE a) = k1 ->
  tally k2 b -> tally (k1 + k2) (a ++ b).
Proof.
  intros Ha Hw [Hb Hbw]. unfold tally. rewrite !published_app, length_app, Ha, Hb, Hw.
  split; [now rewrite repeat_app|]. destruct Hbw as [-> | ->]; [left|right]; lia.
Qed.

Lemma loop_tally mqtt inputs : forall v,
  exists k, tally k (fst (fst (listen_loop mqtt inputs v))).
Proof.
  induction inputs as [|i rest IH]; intro v.
  - exists O. split; [reflexivity|now left].
  - destruct i as [|x|e now h]; try (exists O; split; [reflexivity|now left]).
    rewrite listen_loop_event.
    assert (Hturn :
      let '(tr, _, r) := (if is_wake e then on_wake mqtt e now h else ret tt) v in
      exists k, published TOPIC_STT_CAPTURE tr = repeat request k
                /\ (List.length (published TOPIC_WAKE tr) = k
                    \/ List.length (published TOPIC_WAKE tr) = S k /\ r <> Ok tt)).
    { destruct (is_wake e); [|exists O; cbn; auto].
      destruct (Qlt_le_dec (now - last_wake_ts v) (inject_Z WAKE_COOLDOWN)) as [Hlt|Hge].
      - rewrite on_wake_discard by assumption. exists O. cbn. auto.
      - rewrite on_wake_accept by assumption. apply handoff_tally. }
    destruct ((if is_wake e then on_wake mqtt e now h else ret tt) v) as [[tr1 v1] r1].
    destruct Hturn as (k1 & Hc1 & Hw1).
    destruct r1 as [[]|x|].
    + destruct Hw1 as [Hw1 | [_ Hw1]]; [|congruence].
      destruct (IH v1) as (k2 & Hk2).
      destruct (listen_loop mqtt rest v1) as [[tr2 v2] r2]. cbn [fst] in *.
      exists (k1 + k2)%nat.
      change (Recv WakeServer :: tr1 ++ tr2) with ((Recv WakeServer :: tr1) ++ tr2).
      now apply tally_app.
    + exists k1. cbn [fst]. split; [exact Hc1|]. cbn [published].
      destruct Hw1 as [Hw1 | [Hw1 _]]; auto.
    + exists k1. cbn [fst]. split; [exact Hc1|]. cbn [published].
      destruct Hw1 as [Hw1 | [Hw1 _]]; auto.
Qed.

Lemma run_tally mqtt s inputs c :
  exists k, tally k (fst (run_stream mqtt s inputs c)).
Proof.
  unfold run_stream.
  destruct (connect_ok s) eqn:Hc; [destruct (start_ok s) eqn:Hs; [destruct (spawn_ok s) eqn:Hp|]|].
  - rewrite stream_and_listen_started by assumption. unfold try_finally.
    destruct (loop_tally mqtt inputs initial_vars) as (k & Hk).
    destruct (listen_loop mqtt inputs initial_vars) as [[tr v] r]. cbn [fst] in Hk.
    pose proof (cleanup_silent c v TOPIC_STT_CAPTURE) as Hc1.
    pose proof (cleanup_silent c v TOPIC_WAKE) as Hc2.
    destruct (cleanup c v) as [[tr' v'] r']. cbn [fst] in Hc1, Hc2.
    assert (Hboth : tally k (startup_trace ++ tr ++ tr')).
    { destruct Hk as [Hk1 Hk2]. unfold tally.
      rewrite !published_app, !length_app, Hc1, Hc2, Hk1, !app_nil_r. cbn.
      now rewrite Nat.add_0_r. }
    assert (Hloop : tally k (startup_trace ++ tr)).
    { destruct Hk as [Hk1 Hk2]. unfold tally.
      rewrite !published_app, !length_app, Hk1. cbn. auto. }
    exists k. destruct r as [[]|x|]; [| |exact Hloop];
      destruct r' as [[]|y|]; exact Hboth.
  - exists O. destruct s as [a b d]. cbn in Hc, Hs, Hp. subst. split; [reflexivity|now left].
  - exists O. destruct s as [a b d]. cbn in Hc, Hs. subst. split; [reflexivity|now left].
  - exists O. destruct s as [a b d]. cbn in Hc. subst. split; [reflexivity|now left].
Qed.

(** X11.  In every run of [stream_and_listen], each message published on
    stt/capture is [str(CAPTURE_SECS)], and the capture requests follow
    the wake detections one for one: there are as many of them as
    messages on wake/detected, or one less (a hand-off that failed after
    its wake message). *)
Theorem capture_requests_follow_wakes mqtt s inputs c :
  exists k,
    published TOPIC_STT_CAPTURE (fst (run_stream mqtt s inputs c))
    = repeat (PText (str_of_Z CAPTURE_SECS)) k
    /\ (List.length (published TOPIC_WAKE (fst (run_stream mqtt s inputs c))) = k
        \/ List.length (published TOPIC_WAKE (fst (run_stream mqtt s inputs c))) = S k).
Proof. exact (run_tally mqtt s inputs c). Qed.
End WakeRequests.

Section WakeToGateway.
Context {wcfg : WakeListener.Config}
        {gcfg : VoiceGateway.Config} {glib : VoiceGateway.PyLib}.

(** X12.  The listener's capture request, delivered to an idle gateway with the
    same topic base, starts a capture of [CAPTURE_SECS] seconds (whatever
    the gateway's own default), given that [int(float(str(n)))] is [n]
    for [n = CAPTURE_SECS]. *)
Theorem wake_request_starts_capture mqtt s inputs c p st w :
  WakeListener.BASE = VoiceGateway.BASE ->
  VoiceGateway.int_float (str_of_Z WakeListener.CAPTURE_SECS)
  = Some WakeListener.CAPTURE_SECS ->
  In p (published WakeListener.TOPIC_STT_CAPTURE
          (fst (WakeListener.run_stream mqtt s inputs c))) ->
  VoiceGateway.stt_busy st = false ->
  exists raw,
    p = PText raw
    /\ VoiceGateway.on_message st WakeListener.TOPIC_STT_CAPTURE raw w =
       ({| VoiceGateway.stt_busy := true;
           VoiceGateway.tasks :=
             VoiceGateway.tasks st
             ++ [VoiceGateway.new_task WakeListener.CAPTURE_SECS (VoiceGateway.w_capture w)];
           VoiceGateway.threads := VoiceGateway.threads st |},
        [Log (LogMqtt VoiceGateway.TOPIC_STT_CAP raw); SetBusy]).
Proof.
  intros Hbase Hint Hin Hb.
  destruct (run_tally mqtt s inputs c) as (k & [Hk _]). rewrite Hk in Hin.
  apply repeat_spec in Hin. subst p. exists (str_of_Z WakeListener.CAPTURE_SECS).
  split; [reflexivity|].
  assert (Ht : WakeListener.TOPIC_STT_CAPTURE = VoiceGateway.TOPIC_STT_CAP).
  { unfold WakeListener.TOPIC_STT_CAPTURE, VoiceGateway.TOPIC_STT_CAP. now rewrite Hbase. }
  rewrite Ht, on_message_capture, Hb, strip_str_of_Z.
  unfold VoiceGateway.parse_secs. rewrite Hint.
  destruct (str_of_Z WakeListener.CAPTURE_SECS) eqn:E; [|reflexivity].
  exfalso. exact (proj1 (str_of_Z_visible _) E).
Qed.
End WakeToGateway.


(** ** voice_gateway.py: the capture session *)

Lemma emits_try_finally {S A} P (m : M S A) (fin : M S unit) :
  emits P m -> emits P fin -> emits P (try_finally m fin).
Proof.
  intros Hm Hf s. unfold try_finally. specialize (Hm s).
  destruct (m s) as [[tr s'] r]. cbn [fst] in Hm. specialize (Hf s').
  destruct r as [a|x|]; [| |exact Hm];
    destruct (fin s') as [[tr' s''] [u|y|]]; cbn [fst] in *;
    now rewrite forallb_app, Hm, Hf.
Qed.

Lemma emits_try_except {S A} P (m : M S A) catches (h : exn -> M S A) :
  emits P m -> (forall e, emits P (h e)) -> emits P (try_except m catches h).
Proof.
  intros Hm Hh s. unfold try_except. specialize (Hm s).
  destruct (m s) as [[tr s'] [a|x|]]; cbn [fst] in *; try exact Hm.
  destruct (catches x); [|exact Hm]. specialize (Hh x s').
  destruct (h x s') as [[tr' s''] r]. cbn [fst] in *. now rewrite forallb_app, Hm, Hh.
Qed.

(** The events a trace writes to the speech-to-text session, in order. *)
Fixpoint sent (tr : trace) : list out_event :=
  match tr with
  | [] => []
  | Send SttServer ev :: tr' => ev :: sent tr'
  | _ :: tr' => sent tr'
  end.

Definition sends_nothing (a : action) : bool :=
  match a with Send SttServer _ => false | _ => true end.

Lemma sent_app a b : sent (a ++ b) = sent a ++ sent b.
Proof.
  induction a as [|x a IH]; [reflexivity|].
  destruct x; cbn; try exact IH. destruct p; cbn; try exact IH. now rewrite IH.
Qed.

Lemma sent_nothing tr : forallb sends_nothing tr = true -> sent tr = [].
Proof.
  induction tr as [|x tr IH]; [reflexivity|]. cbn [forallb]. intro H.
  apply andb_true_iff in H as [Hx Htr].
  destruct x; cbn; auto. destruct p; cbn; auto. discriminate.
Qed.

Section SessionFacts.
Import VoiceGateway.
Context {cfg : Config} {lib : PyLib}.

Lemma wait_emits P d arr :
  P (Recv SttServer) = true -> (forall t x, P (Log (LogSttGot t x)) = true) ->
  forall now, emits P (wait_transcript d now arr).
Proof.
  intros Hr Hl. induction arr as [|[t r0] arr IH]; intro now; cbn [wait_transcript].
  - destruct (negb (Qltb now d)); [apply emits_ret|apply emits_raise].
  - destruct (negb (Qltb now d)); [apply emits_ret|].
    destruct (negb (Qltb t d)); [apply emits_raise|].
    destruct r0 as [ev| |x].
    + apply emits_bind; [now apply emits_emit|intros _].
      destruct (is_transcript ev); [|apply IH].
      apply emits_bind; [now apply emits_emit|intros _]. apply emits_ret.
    + apply emits_bind; [now apply emits_emit|intros _]. apply emits_ret.
    + apply emits_raise.
Qed.

Lemma drain_emits P c :
  P (Exited Capture) = true -> P (Log LogArecordStderr) = true ->
  P (WaitTimedOut Capture) = true -> emits (S := unit) P (drain c).
Proof.
  intros H1 H2 H3. destruct c as [[]|]; cbn [drain].
  - apply emits_bind; [now apply emits_emit|intros _]. now apply emits_emit.
  - apply emits_bind; [now apply emits_emit|intros _]. apply emits_ret.
  - now apply emits_emit.
Qed.

Lemma pump_emits P cs st :
  (forall c, P (Send SttServer (AudioChunk c)) = true) -> emits P (pump cs st).
Proof.
  intro Hs. induction cs as [|[c w] cs IH]; cbn [pump].
  - destruct st; [apply emits_ret|apply emits_raise].
  - destruct c as [|b c]; [apply emits_ret|].
    apply emits_bind; [now apply emits_io|intros _; exact IH].
Qed.

Lemma stream_audio_emits P e :
  (forall ev, P (Send SttServer ev) = true) -> P (Log LogSttReadTimeout) = true ->
  emits P (stream_audio e).
Proof.
  intros Hs Hl. unfold stream_audio. apply emits_try_finally.
  - apply emits_try_except; [now apply pump_emits|intros _; now apply emits_emit].
  - now apply emits_io.
Qed.

(** The chunks the loop forwards: those read before the first empty read
    and the first failed write. *)
Fixpoint forwarded (cs : list (bytes * bool)) : list bytes :=
  match cs with
  | (b :: c, true) :: rest => (b :: c) :: forwarded rest
  | _ => []
  end.

Lemma pump_sent cs st :
  sent (fst (fst (pump cs st tt))) = map AudioChunk (forwarded cs)
  /\ snd (pump cs st tt) <> Pending.
Proof.
  induction cs as [|[c w] cs IH]; cbn [pump forwarded].
  - destruct st; cbn; split; (reflexivity || discriminate).
  - destruct c as [|b c]; [cbn; split; (reflexivity || discriminate)|].
    destruct w; [|cbn; split; (reflexivity || discriminate)].
    unfold bind. cbn [io emit].
    destruct (pump cs st tt) as [[tr []] r]. cbn [fst snd] in *.
    destruct IH as [IH1 IH2]. destruct r as [[]|x|]; cbn; rewrite ?IH1;
      split; (reflexivity || congruence).
Qed.

Lemma stream_audio_sent e :
  stop_ok e = true ->
  sent (fst (fst (stream_audio e tt))) = map AudioChunk (forwarded (chunks e)) ++ [AudioStop].
Proof.
  intro Hs. unfold stream_audio, try_finally, try_except. rewrite Hs.
  destruct (pump_sent (chunks e) (stop e)) as [H1 H2].
  destruct (pump (chunks e) (stop e) tt) as [[tr []] r]. cbn [fst snd] in *.
  destruct r as [[]|x|]; [| |congruence].
  - cbn. now rewrite sent_app, H1.
  - destruct (is_timeout x); cbn; rewrite !sent_app, H1; cbn; now rewrite ?app_nil_r.
Qed.

(** X13.  A session writes to the recognizer the start marker, the chunks read
    from arecord in the order read (up to the first empty read or failed
    write), the stop marker, and nothing else; the stop marker is written
    however the forwarding loop ends (end of output, read timeout, read or
    write error), given that its own write succeeds. *)
Theorem session_frames_the_audio seconds e :
  spawn_ok e = true -> connect_ok e = true -> start_ok e = true -> stop_ok e = true ->
  sent (session_trace seconds e)
  = AudioStart :: map AudioChunk (forwarded (chunks e)) ++ [AudioStop].
Proof.
  intros H1 H2 H3 H4. unfold session_trace. rewrite stt_once_eq, H1, H2, H3.
  pose proof (stream_audio_sent e H4) as Hs.
  destruct (stream_audio e tt) as [[str []] r]. cbn [fst] in Hs.
  assert (Hw : sent (fst (fst (wait_transcript (deadline seconds e) (t0 e) (arrivals e) tt))) = []).
  { apply sent_nothing. now apply wait_emits. }
  assert (Hd : sent (fst (fst (drain (communicate e) tt))) = []).
  { apply sent_nothing. now apply drain_emits. }
  destruct r as [[]|y|]; try (cbn [fst]; rewrite sent_app, Hs; reflexivity).
  destruct (wait_transcript (deadline seconds e) (t0 e) (arrivals e) tt) as [[wtr []] [x|y|]];
    cbn [fst] in *; rewrite !sent_app, Hs, ?Hw; cbn; rewrite ?sent_app, ?Hd; cbn;
    now rewrite ?app_nil_r.
Qed.

Lemma wait_times_out d pre : forall now late,
  (now < d)%Q -> Forall (passes d) pre ->
  late = [] \/ (exists t r rest, late = (t, r) :: rest /\ (d <= t)%Q) ->
  wait_transcript d now (pre ++ late) tt
  = (repeat (Recv SttServer) (List.length pre), tt, Raise TimeoutError).
Proof.
  induction pre as [|[t' r'] pre IH]; intros now late Hnow Hpre Hlate;
    cbn [app wait_transcript].
  - pose proof Hnow as Hn. apply Qltb_lt in Hn.
    destruct Hlate as [-> | (t & r & rest & -> & Ht)]; cbn [wait_transcript];
      rewrite Hn; cbn [negb]; [reflexivity|].
    apply Qltb_ge in Ht. rewrite Ht. reflexivity.
  - inversion Hpre as [|? ? [Ht' (ev' & Hr' & Hev')] Hrest]; subst. cbn [fst snd] in *.
    subst r'. pose proof Hnow as Hn. apply Qltb_lt in Hn. rewrite Hn.
    pose proof Ht' as Ht''. apply Qltb_lt in Ht''. rewrite Ht''. cbn [negb].
    unfold bind at 1. cbn [emit]. rewrite Hev'.
    rewrite (IH (Qmax now t') late); auto.
    apply Q.max_lub_lt; assumption.
Qed.

Definition is_drain (a : action) : bool :=
  match a with Exited Capture | WaitTimedOut Capture => true | _ => false end.

(** X14.  When the deadline passes with no transcript or text event read (only
    events of other types arrive before it), the session does not return
    [None]: [wait_for] raises [TimeoutError] out of [stt_once], after the
    disconnect of the [finally] block and before arecord is waited for.
    The done-callback logs the exception as an STT error, publishes
    nothing and clears the busy flag. *)
Theorem deadline_expiry_is_an_error seconds e pre late :
  reaches_wait e = true ->
  arrivals e = pre ++ late ->
  Forall (passes (deadline seconds e)) pre ->
  late = [] \/ (exists t r rest, late = (t, r) :: rest /\ (deadline seconds e <= t)%Q) ->
  session_result seconds e = Raise TimeoutError
  /\ (exists before,
        session_trace seconds e
        = before ++ repeat (Recv SttServer) (List.length pre) ++ [Disconnect SttServer])
  /\ existsb is_drain (session_trace seconds e) = false
  /\ done (new_task seconds e) = [Log (LogSttError TimeoutError); ClearBusy].
Proof.
  intros Hr Harr Hpre Hlate.
  assert (Hboth : session_result seconds e = Raise TimeoutError
                  /\ (exists before,
                        session_trace seconds e
                        = before ++ repeat (Recv SttServer) (List.length pre)
                          ++ [Disconnect SttServer])
                  /\ existsb is_drain (session_trace seconds e) = false).
  { unfold reaches_wait, session_result, session_trace in *. rewrite stt_once_eq.
    apply andb_true_iff in Hr as [Hr Hs]. apply andb_true_iff in Hr as [Hr H3].
    apply andb_true_iff in Hr as [H1 H2]. rewrite H1, H2, H3.
    pose proof (stream_audio_emits (fun a => negb (is_drain a)) e
                  (fun _ => eq_refl) eq_refl tt) as Hq.
    destruct (stream_audio e tt) as [[str []] [[]|y|]]; try discriminate.
    cbn [fst] in Hq.
    rewrite Harr, (wait_times_out (deadline_ahead seconds e) Hpre Hlate).
    cbn [fst snd]. split; [reflexivity|]. split.
    - exists (capture_prelude seconds ++ str). now rewrite <- !app_assoc.
    - rewrite !existsb_app. cbn [capture_prelude existsb is_drain orb].
      assert (Hstr : existsb is_drain str = false).
      { clear - Hq. induction str as [|a str IH]; [reflexivity|].
        cbn in *. apply andb_true_iff in Hq as [Ha Hq].
        apply negb_true_iff in Ha. now rewrite Ha, IH. }
      rewrite Hstr. cbn.
      assert (Hrep : forall n, existsb is_drain (repeat (Recv SttServer) n) = false)
        by (induction n; auto).
      now rewrite Hrep. }
  destruct Hboth as (Hres & Htr & Hdr). repeat split; try assumption.
  unfold done, new_task. unfold session_result in Hres.
  destruct (stt_once seconds e tt) as [[tr []] r]. cbn [snd] in Hres. subst r. reflexivity.
Qed.
End SessionFacts.

(** *** What a session publishes *)

(** The action is a [read_event] on the speech-to-text session. *)
Definition is_read (a : action) : bool :=
  match a with Recv SttServer => true | _ => false end.

(** How many events a trace has read from the speech-to-text session. *)
Definition reads (tr : trace) : nat := List.length (filter is_read tr).

Lemma reads_app a b : reads (a ++ b) = (reads a + reads b)%nat.
Proof. unfold reads. now rewrite filter_app, length_app. Qed.

Lemma reads_recvs n : reads (repeat (Recv SttServer) n) = n.
Proof. induction n; [reflexivity|]. unfold reads in *. cbn. now rewrite IHn. Qed.

Lemma reads_none tr : forallb (fun a => negb (is_read a)) tr = true -> reads tr = 0%nat.
Proof.
  unfold reads. induction tr as [|a tr IH]; [reflexivity|]. cbn [forallb filter].
  intro H. apply andb_true_iff in H as [Ha Htr]. apply negb_true_iff in Ha.
  rewrite Ha. now apply IH.
Qed.

Section TranscriptFacts.
Import VoiceGateway.
Context {cfg : Config} {lib : PyLib}.

(** The wait ends with the first transcript or text event: the session
    has then read that event and the ones before it, and no other. *)
Lemma session_reads seconds e pre t ev rest :
  reaches_wait e = true ->
  arrivals e = pre ++ (t, GotEvent ev) :: rest ->
  Forall (passes (deadline seconds e)) pre -> (t < deadline seconds e)%Q ->
  is_transcript ev = true ->
  reads (session_trace seconds e) = S (List.length pre).
Proof.
  unfold reaches_wait, session_trace. intros Hr Harr Hpre Ht Hev.
  rewrite stt_once_eq.
  apply andb_true_iff in Hr as [Hr Hs]. apply andb_true_iff in Hr as [Hr H3].
  apply andb_true_iff in Hr as [H1 H2]. rewrite H1, H2, H3.
  pose proof (stream_audio_emits (fun a => negb (is_read a)) e
                (fun _ => eq_refl) eq_refl tt) as Hq.
  pose proof (drain_emits (fun a => negb (is_read a)) (communicate e)
                eq_refl eq_refl eq_refl tt) as Hd.
  destruct (stream_audio e tt) as [[str []] [[]|y|]]; try discriminate.
  rewrite Harr, (wait_finds ev rest (deadline_ahead seconds e) Hpre Ht Hev).
  cbn [fst snd] in *.
  rewrite !reads_app, (reads_none _ Hq), reads_recvs.
  change (Disconnect SttServer :: fst (fst (drain (communicate e) tt))
          ++ [Log (LogSttExit (py_or (text_field ev) None))])
    with ([Disconnect SttServer] ++ fst (fst (drain (communicate e) tt))
          ++ [Log (LogSttExit (py_or (text_field ev) None))]).
  rewrite !reads_app, (reads_none _ Hd). cbn. lia.
Qed.

(** C6 (amended).  Take a capture request accepted by an idle gateway and
    run its session to the end.  Whatever the session meets, the gateway
    is idle again afterwards with the busy flag clear (no error escapes
    the callback).  If the session reaches the wait, the first transcript
    or text event read before the deadline [t0 + max(6, seconds + 3)]
    (only events of other types having arrived before it) decides: when
    its text is true for Python (a non-empty string, say)
    [{text, secs}] is published on stt/text, and otherwise nothing is; in
    both cases the wait ends there, and the events that follow are not
    read.  If no transcript or text event with a true text arrives before
    the deadline, nothing is published on stt/text. *)
Theorem transcript_published_or_nothing st payload w :
  stt_busy st = false -> tasks st = [] ->
  let seconds := parse_secs (strip payload) in
  let e := w_capture w in
  let outcome := run st (one_session payload w) in
  fst outcome = {| stt_busy := false; tasks := []; threads := threads st |}
  /\ In ClearBusy (snd outcome)
  /\ (forall pre t ev rest,
        reaches_wait e = true ->
        arrivals e = pre ++ (t, GotEvent ev) :: rest ->
        Forall (passes (deadline seconds e)) pre ->
        (t < deadline seconds e)%Q ->
        is_transcript ev = true ->
        published TOPIC_STT_TEXT (snd outcome)
        = (if truthy (text_field ev)
           then [transcript_payload (text_field ev) seconds] else [])
        /\ reads (session_trace seconds e) = S (List.length pre))
  /\ ((forall t ev,
         In (t, GotEvent ev) (arrivals e) -> is_transcript ev = true ->
         truthy (text_field ev) = true -> (deadline seconds e <= t)%Q) ->
      published TOPIC_STT_TEXT (snd outcome) = []).
Proof.
  intros Hb Ht seconds e outcome. subst outcome.
  split; [|split; [|split]].
  - now rewrite run_one_session.
  - rewrite run_one_session by assumption. cbn [snd].
    apply in_or_app. right. apply in_or_app. right. apply done_clears.
  - intros pre t ev rest Hr Harr Hpre Hlt Hev. split.
    + rewrite one_session_published by assumption.
      destruct (@session_result_finds seconds e pre t ev rest Hr Harr Hpre Hlt Hev)
        as [Hres _].
      fold seconds e. rewrite Hres. unfold py_or, told.
      destruct (truthy (text_field ev)) eqn:Htr; [now rewrite Htr|reflexivity].
    + exact (@session_reads seconds e pre t ev rest Hr Harr Hpre Hlt Hev).
  - intros Hnone. rewrite one_session_published by assumption.
    fold seconds e. unfold told.
    destruct (session_result seconds e) as [[j|]|y|] eqn:Hres; try reflexivity.
    destruct (@session_result_found _ _ _ Hres)
      as (pre & t & ev & rest & Harr & _ & Hlt & Hev & Htxt & Htr).
    exfalso. apply (Qlt_not_le _ _ Hlt). apply (Hnone t ev); [|assumption|congruence].
    rewrite Harr. apply in_or_app. right. now left.
Qed.

(** C10 (amended).  In a capture session run to its end, whatever is
    published on stt/text is [{text, secs}] for a transcript or text event
    of the session whose text field is true for Python, and carries that
    field as it is: a non-empty string, but also a number other than 0,
    [true], or a non-empty array or object.  A transcript or text event
    whose text field is not true (missing, null, the empty string, 0,
    [false], an empty array or object), read before the deadline, ends the
    wait (it is the last event read; the session is then disconnected)
    and nothing is published. *)
Theorem publish_needs_true_text st payload w :
  stt_busy st = false -> tasks st = [] ->
  let seconds := parse_secs (strip payload) in
  let e := w_capture w in
  let outcome := run st (one_session payload w) in
  (forall p, In p (published TOPIC_STT_TEXT (snd outcome)) ->
     exists pre t ev rest,
       arrivals e = pre ++ (t, GotEvent ev) :: rest
       /\ is_transcript ev = true /\ truthy (text_field ev) = true
       /\ p = transcript_payload (text_field ev) seconds)
  /\ (forall pre t ev rest,
        reaches_wait e = true ->
        arrivals e = pre ++ (t, GotEvent ev) :: rest ->
        Forall (passes (deadline seconds e)) pre ->
        (t < deadline seconds e)%Q ->
        is_transcript ev = true ->
        truthy (text_field ev) = false ->
        published TOPIC_STT_TEXT (snd outcome) = []
        /\ exists before after,
             session_trace seconds e =
             before ++ repeat (Recv SttServer) (S (List.length pre))
             ++ Log (LogSttGot (type ev) None) :: Disconnect SttServer :: after
             /\ forallb (fun a => negb match a with Recv _ => true | _ => false end)
                  after = true)
  /\ (forall s, truthy (JStr s) = true <-> s <> []).
Proof.
  intros Hb Ht seconds e outcome. subst outcome. split; [|split].
  - intros p Hin. rewrite one_session_published in Hin by assumption.
    fold seconds e in Hin. unfold told in Hin.
    destruct (session_result seconds e) as [[j|]|y|] eqn:Hres; try contradiction.
    destruct (@session_result_found _ _ _ Hres)
      as (pre & t & ev & rest & Harr & _ & _ & Hev & Htxt & Htr).
    rewrite Htr in Hin. destruct Hin as [<-|[]].
    exists pre, t, ev, rest. subst j. auto.
  - intros pre t ev rest Hr Harr Hpre Hlt Hev Htxt.
    destruct (@session_result_finds seconds e pre t ev rest Hr Harr Hpre Hlt Hev)
      as [Hres (before & after & Htr & Hafter)].
    assert (Hnone : py_or (text_field ev) None = None)
      by (unfold py_or; now rewrite Htxt).
    rewrite Hnone in *. split.
    + rewrite one_session_published by assumption. fold seconds e. now rewrite Hres.
    + exists before, after. auto.
  - intro s. destruct s; cbn; split; congruence.
Qed.
End TranscriptFacts.


(** ** voice_gateway.py: synthesis and playback *)

Definition is_aplay (a : action) : bool :=
  match a with SpawnAplay _ => true | _ => false end.

(** The check made on a playback thread: aplay is started only after the
    synthesis session was disconnected, only once, and with audio. *)
Fixpoint plays_ok (disconnected played : bool) (tr : trace) : bool :=
  match tr with
  | [] => true
  | SpawnAplay wav :: tr' =>
      disconnected && negb played && match wav with [] => false | _ => true end
      && plays_ok disconnected true tr'
  | Disconnect TtsServer :: tr' => plays_ok true played tr'
  | _ :: tr' => plays_ok disconnected played tr'
  end.

Lemma plays_ok_played tr : forall d,
  plays_ok d true tr = true -> existsb is_aplay tr = false.
Proof.
  induction tr as [|a tr IH]; intros d; [reflexivity|].
  destruct a; cbn; try apply IH.
  - destruct p; apply IH.
  - rewrite andb_false_r. discriminate.
Qed.

Lemma plays_ok_sound pre : forall d p wav post,
  plays_ok d p (pre ++ SpawnAplay wav :: post) = true ->
  (d = true \/ In (Disconnect TtsServer) pre)
  /\ existsb is_aplay pre = false /\ wav <> []
  /\ existsb is_aplay post = false.
Proof.
  induction pre as [|a pre IH]; intros d p wav post; cbn [app].
  - cbn. intro H. repeat (apply andb_true_iff in H as [H ?]).
    repeat split.
    + left. exact H.
    + destruct wav; [discriminate|discriminate].
    + eapply plays_ok_played; eassumption.
  - assert (Hgen : forall d', plays_ok d' p (pre ++ SpawnAplay wav :: post) = true ->
                     is_aplay a = false ->
                     (d' = true -> d = true \/ a = Disconnect TtsServer) ->
                     (d = true \/ In (Disconnect TtsServer) (a :: pre))
                     /\ existsb is_aplay (a :: pre) = false /\ wav <> []
                     /\ existsb is_aplay post = false).
    { intros d' H Ha Hd. destruct (IH _ _ _ _ H) as (H1 & H2 & H3 & H4).
      repeat split; auto.
      - destruct H1 as [H1|H1]; [|right; now right].
        destruct (Hd H1) as [Hd'|Hd']; [now left|right; left; now symmetry].
      - cbn. now rewrite Ha, H2. }
    destruct a; cbn [plays_ok]; try (intro H; apply (Hgen d H eq_refl); auto).
    + destruct p0; intro H; try (apply (Hgen d H eq_refl); auto).
      apply (Hgen true H eq_refl). auto.
    + intro H. repeat (apply andb_true_iff in H as [H ?]).
      destruct p; [discriminate|].
      match goal with h : plays_ok _ true _ = true |- _ =>
        destruct (IH _ _ _ _ h) as (_ & _ & _ & _); apply plays_ok_played in h end.
      rewrite existsb_app in *. cbn in *.
      match goal with h : _ || true = false |- _ => rewrite orb_true_r in h; discriminate end.
Qed.

Lemma plays_ok_quiet str : forall d p rest,
  forallb (fun a => negb (is_aplay a)) str = true ->
  plays_ok d p (str ++ rest)
  = plays_ok (d || existsb (is_disconnect TtsServer) str) p rest.
Proof.
  induction str as [|a str IH]; intros d p rest H; cbn [app].
  - cbn. now rewrite orb_false_r.
  - cbn [forallb] in H. apply andb_true_iff in H as [Ha Hs].
    destruct a; try discriminate; cbn [plays_ok existsb is_disconnect];
      rewrite ?orb_false_l; try (now apply IH).
    destruct p0; cbn [plays_ok existsb is_disconnect]; rewrite ?orb_false_l;
      try (now apply IH).
    rewrite IH by assumption. now rewrite !orb_true_r.
Qed.

Section PlaybackFacts.
Import VoiceGateway.
Context {cfg : Config} {lib : PyLib}.

(** A reply event after which the read loop goes on. *)
Definition goes_on (r : tts_reply) : bool :=
  match r with TAudioStart _ | TAudioChunk _ | TOther => true | _ => false end.

(** A reply that ends the read loop normally: the end of the stream, or
    audio-stop. *)
Definition ends_reply (r : tts_reply) : bool :=
  match r with TClosed | TAudioStop => true | _ => false end.

(** The samples of the audio-chunk events, in order. *)
Definition audio_of (rs : list tts_reply) : bytes :=
  flat_map (fun r => match r with TAudioChunk a => a | _ => [] end) rs.

(** The format of the last audio-start event. *)
Definition format_of (f0 : option audio_format) (rs : list tts_reply) : option audio_format :=
  fold_left (fun f r => match r with TAudioStart x => Some x | _ => f end) rs f0.

Lemma read_audio_collects pre : forall term rest f0 p0,
  forallb goes_on pre = true -> ends_reply term = true ->
  read_audio (pre ++ term :: rest) (f0, p0)
  = (repeat (Recv TtsServer) (S (List.length pre)),
     (format_of f0 pre, p0 ++ audio_of pre), Ok tt).
Proof.
  induction pre as [|r pre IH]; intros term rest f0 p0 Hpre Hterm; cbn [app].
  - destruct term; try discriminate; cbn; now rewrite app_nil_r.
  - cbn [forallb] in Hpre. apply andb_true_iff in Hpre as [Hr Hpre].
    destruct r; try discriminate; cbn [read_audio];
      unfold bind, emit, get, put; cbn [fst snd];
      rewrite IH by assumption; cbn; rewrite <- ?app_assoc; reflexivity.
Qed.

Lemma read_audio_emits_any P rs :
  P (Recv TtsServer) = true -> emits P (read_audio rs).
Proof.
  intro H. induction rs as [|r rs IH]; [intro; reflexivity|].
  destruct r; cbn [read_audio];
    repeat (apply emits_bind; [|intro]);
    try (now apply emits_emit); try apply emits_raise; try exact IH;
    intro; reflexivity.
Qed.

Lemma synth_emits P txt e :
  P (Connect TtsServer) = true -> (forall ev, P (Send TtsServer ev) = true) ->
  P (Recv TtsServer) = true -> P (Disconnect TtsServer) = true ->
  emits P (synth txt e).
Proof.
  intros H1 H2 H3 H4. unfold synth.
  apply emits_bind; [now apply emits_io|intros _].
  apply emits_bind; [now apply emits_io|intros _].
  apply emits_bind; [now apply emits_scoped, read_audio_emits_any|intros r].
  apply emits_bind; [now apply emits_emit|intros _].
  apply to_wav_48k_emits.
Qed.

Lemma to_wav_48k_silent fmt pcm : fst (fst (to_wav_48k fmt pcm tt)) = [].
Proof.
  pose proof (to_wav_48k_emits (fun _ => false) fmt pcm tt) as H.
  destruct (fst (fst (to_wav_48k fmt pcm tt))); [reflexivity|discriminate].
Qed.

Lemma synth_collects_the_audio_eq txt e pre term rest :
  tts_connect_ok e = true -> tts_write_ok e = true ->
  replies e = pre ++ term :: rest ->
  forallb goes_on pre = true -> ends_reply term = true ->
  synth txt e tt
  = ([Connect TtsServer; Send TtsServer (Synthesize txt)]
     ++ repeat (Recv TtsServer) (S (List.length pre)) ++ [Disconnect TtsServer],
     tt, snd (to_wav_48k (format_of None pre) (audio_of pre) tt)).
Proof.
  intros Hc Hw Hr Hpre Hterm. unfold synth. rewrite Hc, Hw, Hr.
  unfold bind at 1. cbn [io emit]. unfold bind at 1. cbn [io emit].
  unfold bind at 1, scoped. rewrite (@read_audio_collects pre term rest _ _ Hpre Hterm).
  unfold bind at 1. cbn [emit fst snd app].
  pose proof (to_wav_48k_silent (format_of None pre) (audio_of pre)) as Hs.
  destruct (to_wav_48k (format_of None pre) (audio_of pre) tt) as [[tr []] r].
  cbn [fst snd] in *. subst tr. cbn. rewrite ?app_nil_r. reflexivity.
Qed.

(** X15.  [_synth] sends the request, reads the reply up to the first
    audio-stop (or the end of the stream) and no further, disconnects, and
    converts the samples of the audio-chunk events, concatenated in the
    order received, with the format of the last audio-start. *)
Theorem synth_collects_the_audio txt e pre term rest :
  tts_connect_ok e = true -> tts_write_ok e = true ->
  replies e = pre ++ term :: rest ->
  forallb goes_on pre = true -> ends_reply term = true ->
  synth txt e tt
  = ([Connect TtsServer; Send TtsServer (Synthesize txt)]
     ++ repeat (Recv TtsServer) (S (List.length pre)) ++ [Disconnect TtsServer],
     tt, snd (to_wav_48k (format_of None pre) (audio_of pre) tt)).
Proof. apply synth_collects_the_audio_eq. Qed.

(** X16.  A reply without an audio-start event, or without samples, is not
    played: the thread logs that no audio came back and ends. *)
Theorem silent_reply_is_not_played txt e pre term rest :
  txt <> [] ->
  tts_connect_ok e = true -> tts_write_ok e = true ->
  replies e = pre ++ term :: rest ->
  forallb goes_on pre = true -> ends_reply term = true ->
  format_of None pre = None \/ audio_of pre = [] ->
  tts_play_48k txt e tt
  = (Log (LogTts txt) :: Connect TtsServer :: Send TtsServer (Synthesize txt)
     :: repeat (Recv TtsServer) (S (List.length pre))
     ++ [Disconnect TtsServer; Log LogTtsNoAudio], tt, Ok tt).
Proof.
  intros Ht Hc Hw Hr Hpre Hterm Hsilent.
  destruct txt as [|c txt]; [congruence|]. cbn [tts_play_48k].
  unfold bind at 1. cbn [emit]. unfold bind at 1.
  rewrite (synth_collects_the_audio_eq (c :: txt) e pre term rest Hc Hw Hr Hpre Hterm).
  assert (Hnone : snd (to_wav_48k (format_of None pre) (audio_of pre) tt) = Ok None).
  { unfold to_wav_48k. destruct Hsilent as [-> | ->]; [reflexivity|].
    now destruct (format_of None pre). }
  rewrite Hnone. cbn. rewrite <- app_assoc. reflexivity.
Qed.

Lemma synth_eq txt e :
  synth txt e tt =
  if tts_connect_ok e then
    if tts_write_ok e then
      match read_audio (replies e) (None, []) with
      | (rtr, v, Ok _) =>
          let '(wtr, _, r) := to_wav_48k (fst v) (snd v) tt in
          (Connect TtsServer :: Send TtsServer (Synthesize txt) :: rtr
           ++ Disconnect TtsServer :: wtr, tt, r)
      | (rtr, _, Raise y) =>
          (Connect TtsServer :: Send TtsServer (Synthesize txt) :: rtr, tt, Raise y)
      | (rtr, _, Pending) =>
          (Connect TtsServer :: Send TtsServer (Synthesize txt) :: rtr, tt, Pending)
      end
    else ([Connect TtsServer], tt, Raise WriteError)
  else ([], tt, Raise ConnectError).
Proof.
  unfold synth. destruct (tts_connect_ok e); [|reflexivity].
  destruct (tts_write_ok e); [|reflexivity].
  unfold bind, scoped. cbn [io emit].
  destruct (read_audio (replies e) (None, [])) as [[rtr v] [[]|y|]]; try reflexivity.
  cbn [fst snd]. unfold bytes.
  destruct (to_wav_48k _ _ tt) as [[wtr []] r]. reflexivity.
Qed.

Lemma synth_disconnects txt e x :
  snd (synth txt e tt) = Ok x ->
  existsb (is_disconnect TtsServer) (fst (fst (synth txt e tt))) = true.
Proof.
  rewrite synth_eq. destruct (tts_connect_ok e); [|discriminate].
  destruct (tts_write_ok e); [|discriminate].
  destruct (read_audio (replies e) (None, [])) as [[rtr v] [[]|y|]]; try discriminate.
  destruct (to_wav_48k (fst v) (snd v) tt) as [[wtr []] r].
  intros _. cbn [fst snd existsb is_disconnect orb].
  rewrite existsb_app. cbn. now rewrite orb_true_r.
Qed.

Lemma tts_play_48k_eq c txt e :
  tts_play_48k (c :: txt) e tt =
  let '(str, _, r) := synth (c :: txt) e tt in
  match r with
  | Ok None | Ok (Some []) =>
      (Log (LogTts (c :: txt)) :: str ++ [Log LogTtsNoAudio], tt, Ok tt)
  | Ok (Some (b :: wav)) =>
      (Log (LogTts (c :: txt)) :: str ++ Log LogTtsPlaying
       :: match aplay e with
          | AplayOk => [SpawnAplay (b :: wav)]
          | AplaySpawnFails => [Log LogAplayFailed]
          | AplayFailsLate => [SpawnAplay (b :: wav); Log LogAplayFailed]
          end, tt, Ok tt)
  | Raise x => (Log (LogTts (c :: txt)) :: str, tt, Raise x)
  | Pending => (Log (LogTts (c :: txt)) :: str, tt, Pending)
  end.
Proof.
  cbn [tts_play_48k]. unfold bind at 1. cbn [emit]. unfold bind at 1.
  destruct (synth (c :: txt) e tt) as [[str []] [[[|b wav]|]|x|]]; try reflexivity.
  destruct (aplay e); reflexivity.
Qed.

Lemma tts_play_checked txt e :
  plays_ok false false (fst (fst (tts_play_48k txt e tt))) = true
  /\ (forall x, snd (tts_play_48k txt e tt) = Raise x ->
        snd (synth txt e tt) = Raise x
        /\ existsb is_aplay (fst (fst (tts_play_48k txt e tt))) = false).
Proof.
  destruct txt as [|c txt]; [split; [reflexivity|discriminate]|].
  rewrite tts_play_48k_eq.
  pose proof (synth_emits (fun a => negb (is_aplay a)) (c :: txt) e
                eq_refl (fun _ => eq_refl) eq_refl eq_refl tt) as Hq.
  pose proof (synth_disconnects (c :: txt) e) as Hd.
  destruct (synth (c :: txt) e tt) as [[str []] r]. cbn [fst snd] in *.
  assert (Hno : existsb is_aplay str = false).
  { clear - Hq. induction str as [|a str IH]; [reflexivity|].
    cbn in *. apply andb_true_iff in Hq as [Ha Hq].
    apply negb_true_iff in Ha. now rewrite Ha, IH. }
  destruct r as [[[|b wav]|]|x|]; cbn [fst snd plays_ok].
  - split; [|discriminate]. rewrite plays_ok_quiet by assumption. reflexivity.
  - split; [|discriminate]. rewrite plays_ok_quiet, (Hd _ eq_refl) by assumption.
    destruct (aplay e); reflexivity.
  - split; [|discriminate]. rewrite plays_ok_quiet by assumption. reflexivity.
  - split.
    + rewrite <- (app_nil_r str), plays_ok_quiet by assumption. reflexivity.
    + intros y Hy. injection Hy as <-. split; [reflexivity|]. cbn. exact Hno.
  - split; [|discriminate].
    rewrite <- (app_nil_r str), plays_ok_quiet by assumption. reflexivity.
Qed.

(** X17.  A playback thread raises only where the synthesis does (a failure of
    aplay is logged, not raised), and then nothing has been played.  When
    it starts aplay, it does so once, with audio that is not empty, and
    after it has disconnected from the synthesis server. *)
Theorem playback_follows_synthesis txt e :
  (forall x, snd (tts_play_48k txt e tt) = Raise x ->
     snd (synth txt e tt) = Raise x
     /\ existsb is_aplay (fst (fst (tts_play_48k txt e tt))) = false)
  /\ (forall pre wav post,
        fst (fst (tts_play_48k txt e tt)) = pre ++ SpawnAplay wav :: post ->
        In (Disconnect TtsServer) pre /\ wav <> []
        /\ existsb is_aplay pre = false /\ existsb is_aplay post = false).
Proof.
  destruct (tts_play_checked txt e) as [Hok Hraise]. split; [exact Hraise|].
  intros pre wav post Htr. rewrite Htr in Hok.
  destruct (plays_ok_sound _ _ _ _ _ Hok) as ([H1|H1] & H2 & H3 & H4); [discriminate|].
  auto.
Qed.
End PlaybackFacts.


(** ** voice_gateway.py: the gateway under every schedule *)

(** What a gateway trace tells of the busy flag and of the session it
    guards: whether the flag is set, and whether arecord has been spawned
    and a transcript published since it was set. *)
Record gate_view := { g_busy : bool; g_spawned : bool; g_told : bool }.

Definition idle_view : gate_view :=
  {| g_busy := false; g_spawned := false; g_told := false |}.

(** The check made on each action of a gateway trace.  The flag is set
    only when clear and cleared only when set; arecord is spawned only
    while the flag is set, and once; a message is published only on
    [topic], while the flag is set, after the spawn, and once; no process
    is signalled and no wake capture started. *)
Definition gate_step (topic : text) (g : gate_view) (a : action) : option gate_view :=
  match a with
  | SetBusy =>
      if g_busy g then None
      else Some {| g_busy := true; g_spawned := false; g_told := false |}
  | ClearBusy =>
      if g_busy g
      then Some {| g_busy := false; g_spawned := g_spawned g; g_told := g_told g |}
      else None
  | Spawn Capture _ =>
      if g_busy g && negb (g_spawned g)
      then Some {| g_busy := true; g_spawned := true; g_told := g_told g |}
      else None
  | Publish t _ =>
      if text_eqb t topic && g_busy g && g_spawned g && negb (g_told g)
      then Some {| g_busy := true; g_spawned := true; g_told := true |}
      else None
  | Spawn Wake _ | Terminate _ | Kill _ => None
  | _ => Some g
  end.

Fixpoint gate_run (topic : text) (g : gate_view) (tr : trace) : option gate_view :=
  match tr with
  | [] => Some g
  | a :: tr' =>
      match gate_step topic g a with
      | Some g' => gate_run topic g' tr'
      | None => None
      end
  end.

(** Actions the check lets pass unchanged. *)
Definition neutral (a : action) : bool :=
  match a with
  | SetBusy | ClearBusy | Spawn _ _ | Publish _ _ | Terminate _ | Kill _ => false
  | _ => true
  end.

Lemma gate_step_neutral topic g a : neutral a = true -> gate_step topic g a = Some g.
Proof. destruct a; try discriminate; reflexivity. Qed.

Lemma gate_run_neutral topic tr : forall g rest,
  forallb neutral tr = true -> gate_run topic g (tr ++ rest) = gate_run topic g rest.
Proof.
  induction tr as [|a tr IH]; intros g rest H; [reflexivity|].
  cbn [forallb] in H. apply andb_true_iff in H as [Ha Htr].
  cbn [app gate_run]. rewrite (gate_step_neutral _ _ _ Ha). now apply IH.
Qed.

Lemma gate_run_app topic a : forall g b,
  gate_run topic g (a ++ b)
  = match gate_run topic g a with Some g' => gate_run topic g' b | None => None end.
Proof.
  induction a as [|x a IH]; intros g b; [reflexivity|].
  cbn [app gate_run]. destruct (gate_step topic g x); [apply IH|reflexivity].
Qed.

Section GatewaySchedules.
Import VoiceGateway.
Context {cfg : Config} {lib : PyLib}.

Lemma tts_play_neutral txt e : emits neutral (tts_play_48k txt e).
Proof.
  destruct txt as [|c txt]; [apply emits_ret|]. cbn [tts_play_48k].
  apply emits_bind; [now apply emits_emit|intros _].
  apply emits_bind.
  - now apply synth_emits.
  - intros [[|b wav]|]; try (now apply emits_emit).
    apply emits_bind; [now apply emits_emit|intros _].
    destruct (aplay e); [now apply emits_emit ..|].
    apply emits_bind; [now apply emits_emit|intros _]. now apply emits_emit.
Qed.

(** A session's trace: the start of the capture is logged; unless the
    spawn fails, arecord is spawned next, and what follows passes the
    check unchanged. *)
Lemma session_shape secs e :
  (session_trace secs e = [Log (LogSttStart secs)]
   /\ session_result secs e = Raise SpawnError)
  \/ (exists rest,
        session_trace secs e
        = Log (LogSttStart secs) :: Spawn Capture (Some secs) :: rest
        /\ forallb neutral rest = true).
Proof.
  unfold session_trace, session_result. rewrite stt_once_eq.
  destruct (spawn_ok e); [right|left; split; reflexivity].
  destruct (connect_ok e); [|eexists; split; reflexivity].
  destruct (start_ok e); [|eexists; split; reflexivity].
  pose proof (stream_audio_emits neutral e (fun _ => eq_refl) eq_refl tt) as Hs.
  destruct (stream_audio e tt) as [[str []] r]. cbn [fst] in Hs.
  pose proof (wait_emits neutral (deadline secs e) (arrivals e) eq_refl
                (fun _ _ => eq_refl) (t0 e) tt) as Hw.
  pose proof (drain_emits neutral (communicate e) eq_refl eq_refl eq_refl tt) as Hd.
  destruct r as [[]|y|];
    [|eexists; split; [reflexivity|cbn; exact Hs] ..].
  destruct (wait_transcript (deadline secs e) (t0 e) (arrivals e) tt) as [[wtr []] [x|y|]];
    cbn [fst] in *; eexists; (split; [reflexivity|]);
    repeat (cbn; rewrite ?forallb_app, ?Hs, ?Hw, ?Hd); reflexivity.
Qed.

Lemma done_passes t g :
  g_busy g = true -> g_told g = false ->
  (g_spawned g = false -> forall x, t_result t <> Ok (Some x)) ->
  exists g', gate_run TOPIC_STT_TEXT g (done t) = Some g' /\ g_busy g' = false.
Proof.
  destruct g as [b s d]. cbn. intros -> -> Hs. unfold done.
  destruct (t_result t) as [[j|]|y|] eqn:Hr; cbn;
    try (eexists; split; reflexivity).
  destruct (truthy j); cbn; [|eexists; split; reflexivity].
  rewrite text_eqb_refl. destruct s; [eexists; split; reflexivity|].
  exfalso. exact (Hs eq_refl _ eq_refl).
Qed.

Lemma session_passes secs e :
  exists g',
    gate_run TOPIC_STT_TEXT {| g_busy := true; g_spawned := false; g_told := false |}
      (t_todo (new_task secs e) ++ done (new_task secs e)) = Some g'
    /\ g_busy g' = false.
Proof.
  destruct (session_shape secs e) as [[Htr Hres] | (rest & Htr & Hrest)];
    unfold session_trace, session_result, new_task in *;
    destruct (stt_once secs e tt) as [[tr []] r]; cbn [fst snd t_todo] in *; subst.
  - cbn [app gate_run gate_step]. apply done_passes; cbn; auto. intros _ x. discriminate.
  - cbn [app gate_run gate_step g_busy g_spawned andb negb].
    rewrite gate_run_neutral by assumption. apply done_passes; cbn; auto. discriminate.
Qed.

(** The state of the gateway agrees with what the trace shows, and what
    the coroutine on the loop has still to do, its callback included,
    passes the check. *)
Definition gate_inv (st : state) (g : gate_view) : Prop :=
  g_busy g = stt_busy st
  /\ (if stt_busy st
      then exists t,
             tasks st = [t] /\ forallb session_action (t_todo t) = true
             /\ exists g', gate_run TOPIC_STT_TEXT g (t_todo t ++ done t) = Some g'
                           /\ g_busy g' = false
      else tasks st = [])
  /\ Forall (fun tr => forallb neutral tr = true) (threads st).

Lemma session_step_busy topic g a g1 :
  session_action a = true -> gate_step topic g a = Some g1 -> g_busy g1 = g_busy g.
Proof.
  intros Ha Hs. destruct a; try discriminate; cbn in *;
    repeat match goal with
           | x : peer |- _ => destruct x
           | x : holder |- _ => destruct x
           end; try discriminate; cbn in *;
    try (injection Hs as <-; reflexivity).
  destruct (g_busy g && negb (g_spawned g)) eqn:E; [|discriminate].
  injection Hs as <-. apply andb_true_iff in E as [-> _]. reflexivity.
Qed.

Lemma step_passes st o g :
  gate_inv st g ->
  exists g', gate_run TOPIC_STT_TEXT g (snd (step st o)) = Some g'
             /\ gate_inv (fst (step st o)) g'.
Proof.
  intros Hinv.
  assert (Hsame : exists g', gate_run TOPIC_STT_TEXT g [] = Some g' /\ gate_inv st g')
    by (exists g; split; [reflexivity|exact Hinv]).
  destruct Hinv as (Hb & Htask & Hthreads).
  destruct o as [topic payload w|i|i]; cbn [step].
  - unfold on_message. destruct (text_eqb topic TOPIC_TTS_SAY).
    + pose proof (tts_play_neutral (strip payload) (w_tts w) tt) as He.
      destruct (tts_play_48k (strip payload) (w_tts w) tt) as [[tr []] r].
      cbn [fst snd] in *. exists g. split; [reflexivity|].
      split; [exact Hb|]. split; [exact Htask|]. cbn [threads].
      apply Forall_app. split; [assumption|]. constructor; [assumption|constructor].
    + destruct (text_eqb topic TOPIC_STT_CAP); [|exact Hsame].
      destruct (stt_busy st) eqn:Hbusy.
      * exists g. cbn [fst snd]. split; [reflexivity|].
        split; [congruence|]. rewrite ?Hbusy. split; assumption.
      * cbn [fst snd gate_run gate_step]. rewrite Hb. rewrite Htask. cbn [app].
        eexists. split; [reflexivity|]. split; [reflexivity|]. cbn [stt_busy tasks threads].
        split; [|assumption].
        exists (new_task (parse_secs (strip payload)) (w_capture w)).
        split; [reflexivity|]. split; [|apply session_passes].
        unfold new_task.
        pose proof (session_actions (parse_secs (strip payload)) (w_capture w)) as [Ha _].
        unfold session_trace in Ha.
        destruct (stt_once (parse_secs (strip payload)) (w_capture w) tt) as [[tr []] r].
        exact Ha.
  - unfold loop_step. destruct (stt_busy st) eqn:Hbusy.
    + destruct Htask as (t & Hts & Hact & g2 & Hrun & Hg2). rewrite Hts.
      destruct i as [|i]; [|destruct i; exact Hsame].
      cbn [nth_error]. destruct (t_todo t) as [|a todo] eqn:Htodo.
      * cbn [app] in Hrun. cbn [fst snd]. exists g2. split; [exact Hrun|].
        split; [now rewrite Hg2|]. cbn [stt_busy tasks threads remove_nth].
        split; [reflexivity|assumption].
      * cbn [app gate_run] in Hrun. cbn [forallb] in Hact.
        apply andb_true_iff in Hact as [Ha Hact].
        destruct (gate_step TOPIC_STT_TEXT g a) as [g1|] eqn:Hstep; [|discriminate].
        cbn [fst snd gate_run]. rewrite Hstep. exists g1. split; [reflexivity|].
        split.
        { cbn [stt_busy]. rewrite (session_step_busy _ _ _ Ha Hstep). congruence. }
        cbn [stt_busy tasks threads replace_nth]. rewrite ?Hbusy.
        split; [|assumption]. eexists. split; [reflexivity|]. cbn [t_todo].
        split; [exact Hact|]. exists g2. split; [|exact Hg2].
        unfold done in *. cbn [t_result t_secs]. exact Hrun.
    + rewrite Htask. destruct i; exact Hsame.
  - unfold thread_step. destruct (nth_error (threads st) i) as [[|a todo]|] eqn:Hn;
      try exact Hsame.
    apply nth_error_In in Hn. rewrite Forall_forall in Hthreads.
    pose proof (Hthreads _ Hn) as Hq. cbn [forallb] in Hq.
    apply andb_true_iff in Hq as [Ha Hq].
    cbn [fst snd gate_run]. rewrite (gate_step_neutral _ _ _ Ha).
    exists g. split; [reflexivity|]. split; [exact Hb|]. split; [exact Htask|].
    cbn [threads]. apply Forall_replace_nth; [exact Hq|].
    now apply Forall_forall.
Qed.

Lemma run_passes os : forall st g,
  gate_inv st g ->
  exists g', gate_run TOPIC_STT_TEXT g (snd (run st os)) = Some g'
             /\ gate_inv (fst (run st os)) g'.
Proof.
  induction os as [|o os IH]; intros st g Hinv; cbn [run].
  - exists g. split; [reflexivity|exact Hinv].
  - destruct (step_passes o Hinv) as (g1 & Hrun1 & Hinv1).
    destruct (step st o) as [st1 tr1]. cbn [fst snd] in *.
    destruct (IH st1 g1 Hinv1) as (g2 & Hrun2 & Hinv2).
    destruct (run st1 os) as [st2 tr2]. cbn [fst snd] in *.
    exists g2. split; [|exact Hinv2]. now rewrite gate_run_app, Hrun1.
Qed.

(** X18.  Whatever the order in which messages arrive, the loop advances the
    coroutine and the playback threads run, the trace of the gateway
    passes the check of [gate_step]: the busy flag is set and cleared in
    turn; arecord is spawned only while the flag is set and at most once
    per setting; the only messages published are on stt/text, while the
    flag is set, after the spawn and at most one per setting; no process
    is ever signalled.  At the end the flag is as the trace says. *)
Theorem gateway_sessions_are_serial os :
  exists g,
    gate_run TOPIC_STT_TEXT idle_view (snd (run initial os)) = Some g
    /\ g_busy g = stt_busy (fst (run initial os)).
Proof.
  assert (Hinit : gate_inv initial idle_view).
  { split; [reflexivity|]. split; [reflexivity|constructor]. }
  destruct (run_passes os Hinit) as (g & Hrun & Hb & _).
  exists g. split; assumption.
Qed.
End GatewaySchedules.


(** ** wake_listener.py: a burst of wake events *)

Section WakeBurst.
Import WakeListener.
Context {cfg : Config}.

(** An event handled at a clock reading less than the cooldown after
    [T0]. *)
Definition within (T0 : Q) (i : input) : Prop :=
  exists e now h, i = Event e now h /\ (now - T0 < inject_Z WAKE_COOLDOWN)%Q.

Lemma published_recvs topic n : published topic (repeat (Recv WakeServer) n) = [].
Proof. induction n; [reflexivity|exact IHn]. Qed.

Lemma burst_discarded mqtt burst : forall v rest,
  Forall (within (last_wake_ts v)) burst ->
  listen_loop mqtt (burst ++ rest) v =
  let '(tr, v', r) := listen_loop mqtt rest v in
  (repeat (Recv WakeServer) (List.length burst) ++ tr, v', r).
Proof.
  induction burst as [|i burst IH]; intros v rest Hb.
  - cbn. now destruct (listen_loop mqtt rest v) as [[tr v'] r].
  - inversion Hb as [|? ? (e & now & h & -> & Hlt) Hrest]; subst.
    cbn [app]. rewrite listen_loop_event.
    assert (Hturn : (if is_wake e then on_wake mqtt e now h else ret tt) v = ([], v, Ok tt)).
    { destruct (is_wake e); [|reflexivity]. now apply on_wake_discard. }
    rewrite Hturn, (IH v rest Hrest).
    destruct (listen_loop mqtt rest v) as [[tr v'] r]. reflexivity.
Qed.

Lemma handoff_requests e now h v :
  pump_task v = TaskLive -> crashed (pump_at_cancel h) = false ->
  published TOPIC_STT_CAPTURE (fst (fst (handoff true e now h v)))
  = [PText (str_of_Z CAPTURE_SECS)].
Proof.
  destruct v as [l t x]. cbn [pump_task]. intros -> Hc.
  destruct h as [b p st rs]. cbn [pump_at_cancel] in Hc.
  destruct p; try discriminate; destruct b, x, st, rs; cbn;
    rewrite ?text_eqb_refl, ?topics_differ, ?capture_differs; reflexivity.
Qed.

(** X19.  A burst collapses into one detection: when a wake event is accepted
    at clock reading [T0] and the events that follow are all handled at
    readings less than the cooldown after [T0], however many they are,
    the run publishes the one wake message, and (unless the pump task had
    raised) the one capture request. *)
Theorem cooldown_collapses_a_burst s c e1 T0 h1 burst :
  connect_ok s = true -> start_ok s = true -> spawn_ok s = true ->
  is_wake e1 = true -> (inject_Z WAKE_COOLDOWN <= T0)%Q ->
  Forall (within T0) burst ->
  published TOPIC_WAKE (fst (run_stream true s (Event e1 T0 h1 :: burst) c))
  = [wake_payload e1]
  /\ (crashed (pump_at_cancel h1) = false ->
      published TOPIC_STT_CAPTURE (fst (run_stream true s (Event e1 T0 h1 :: burst) c))
      = [PText (str_of_Z CAPTURE_SECS)]).
Proof.
  intros Hc Hs Hp Hw HT0 Hburst. unfold run_stream.
  rewrite stream_and_listen_started by assumption. unfold try_finally.
  rewrite listen_loop_event, Hw, on_wake_accept.
  2:{ cbn. unfold Qminus. now rewrite Qplus_0_r. }
  pose proof (handoff_outcome e1 T0 h1 initial_vars eq_refl eq_refl) as Hh.
  pose proof (@handoff_requests e1 T0 h1 initial_vars eq_refl) as Hreq.
  destruct (handoff true e1 T0 h1 initial_vars) as [[tr1 v1] r1].
  destruct Hh as (Hpub & Hnp & Hlast). cbn [fst] in Hreq.
  destruct r1 as [[]|x|]; [| |congruence].
  - rewrite <- (app_nil_r burst), burst_discarded
      by (rewrite (Hlast tt eq_refl); exact Hburst).
    cbn [listen_loop pending fst]. rewrite app_nil_r. split.
    + cbn. now rewrite !published_app, Hpub, published_recvs.
    + intro Hcr. cbn. now rewrite !published_app, (Hreq Hcr), published_recvs.
  - pose proof (cleanup_silent c v1 TOPIC_WAKE) as Hc1.
    pose proof (cleanup_silent c v1 TOPIC_STT_CAPTURE) as Hc2.
    destruct (cleanup c v1) as [[tr' v'] r']. cbn [fst] in Hc1, Hc2.
    split; [|intro Hcr]; destruct r' as [[]|y|]; cbn;
      rewrite !published_app, ?Hpub, ?(Hreq Hcr), ?Hc1, ?Hc2; reflexivity.
Qed.
End WakeBurst.

(** ** wake_listener.py: the cooldown and the clock *)

Section WakeTiming.
Import WakeListener.
Context {cfg : Config}.

(** The test of line 158 on an event handled at reading [now], [last]
    being [last_wake_ts]. *)
Definition accepts (last now : Q) : bool :=
  negb (Qltb (now - last) (inject_Z WAKE_COOLDOWN)).

(** Clock readings (line 157) that a run can meet.  [free] is the
    earliest reading at which the loop is back in [read_event]: the clock
    does not go back, and the hand-off of an accepted wake event sleeps
    [CAPTURE_SECS + 0.2] seconds (line 184) before the next read. *)
Fixpoint timely (last free : Q) (inputs : list input) : Prop :=
  match inputs with
  | Event e now h :: rest =>
      (free <= now)%Q
      /\ if is_wake e && accepts last now
         then timely now (now + resume_delay) rest
         else timely last now rest
  | _ => True
  end.

(** An event as the recognizer sends it: when it arrives, and what its
    hand-off will meet. *)
Record arrival := { a_event : event; a_time : Q; a_env : handoff_env }.

(** The readings at which arrivals are handled when nothing but the sleep
    of the hand-off takes time: an event is read as soon as it has arrived
    and the loop is back in [read_event]. *)
Fixpoint handled (last free : Q) (arrivals : list arrival) : list input :=
  match arrivals with
  | [] => []
  | a :: rest =>
      let now := Qmax (a_time a) free in
      Event (a_event a) now (a_env a)
      :: (if is_wake (a_event a) && accepts last now
          then handled now (now + resume_delay) rest
          else handled last now rest)
  end.


Lemma handled_timely arrivals : forall last free,
  timely last free (handled last free arrivals).
Proof.
  induction arrivals as [|a rest IH]; intros last free; cbn [handled timely]; [exact I|].
  split; [apply Q.le_max_r|].
  destruct (is_wake (a_event a) && accepts last (Qmax (a_time a) free)); apply IH.
Qed.



End WakeTiming.

(** ** The topic base of the gateway and of the router *)

Lemma lstrip_chars_length chars s :
  (List.length (lstrip_chars chars s) <= List.length s)%nat.
Proof.
  induction s as [|c s IH]; cbn; [lia|].
  destruct (existsb (N.eqb c) chars); cbn; lia.
Qed.

Lemma rstrip_chars_length chars s :
  (List.length (rstrip_chars chars s) <= List.length s)%nat.
Proof.
  unfold rstrip_chars. rewrite length_rev.
  pose proof (lstrip_chars_length chars (rev s)) as H. now rewrite length_rev in H.
Qed.

Lemma rstrip_slash_last v : rstrip_chars (T "/") (v ++ T "/") = rstrip_chars (T "/") v.
Proof. unfold rstrip_chars. rewrite rev_app_distr. reflexivity. Qed.

Lemma In_lstrip_chars x chars s :
  existsb (N.eqb x) chars = false -> In x s -> In x (lstrip_chars chars s).
Proof.
  intros Hx. induction s as [|c s IH]; cbn; [tauto|].
  destruct (existsb (N.eqb c) chars) eqn:Hc.
  - intros [->|H]; [congruence|now apply IH].
  - intro H. exact H.
Qed.

Section TopicBase.

(** The configurations the two services build from the environment. *)
Definition gateway_config (environ : text -> option text) (secs : Z) : VoiceGateway.Config :=
  {| VoiceGateway.BASE := VoiceGateway.base_of environ;
     VoiceGateway.STT_SECS_DEFAULT := secs |}.

Definition router_config (environ : text -> option text) : DialogueRouter.Config :=
  {| DialogueRouter.MQTT_BASE := DialogueRouter.base_of environ |}.

Lemma clean_base environ v :
  environ (T "MQTT_BASE") = Some v -> ~ In 35%N v -> stripped v ->
  VoiceGateway.base_of environ = v.
Proof.
  intros He Hv Hs. unfold VoiceGateway.base_of, VoiceGateway.env_str, VoiceGateway._clean_env.
  rewrite He, before_all by assumption. now apply stripped_strip.
Qed.

(** X20.  With [MQTT_BASE] unset, or set to a value without [#], without white
    space at either end and without a trailing slash, the gateway and the
    router build the same topics: the router listens where the gateway
    publishes transcripts, and the gateway where the router publishes
    replies. *)
Theorem clean_base_is_shared environ secs :
  environ (T "MQTT_BASE") = None
  \/ (exists v, environ (T "MQTT_BASE") = Some v /\ ~ In 35%N v /\ stripped v
                /\ rstrip_chars (T "/") v = v) ->
  @VoiceGateway.TOPIC_STT_TEXT (gateway_config environ secs)
  = @DialogueRouter.TOPIC_STT (router_config environ)
  /\ @DialogueRouter.TOPIC_TTS (router_config environ)
     = @VoiceGateway.TOPIC_TTS_SAY (gateway_config environ secs).
Proof.
  intro H.
  assert (Hb : VoiceGateway.base_of environ = DialogueRouter.base_of environ).
  { destruct H as [He | (v & He & Hv & Hs & Hr)].
    - unfold VoiceGateway.base_of, VoiceGateway.env_str, VoiceGateway._clean_env,
        DialogueRouter.base_of. rewrite He. reflexivity.
    - rewrite (clean_base environ He Hv Hs). unfold DialogueRouter.base_of.
      rewrite He. now symmetry. }
  unfold VoiceGateway.TOPIC_STT_TEXT, DialogueRouter.TOPIC_STT,
    DialogueRouter.TOPIC_TTS, VoiceGateway.TOPIC_TTS_SAY.
  cbn [VoiceGateway.BASE DialogueRouter.MQTT_BASE gateway_config router_config].
  rewrite Hb. split; reflexivity.
Qed.

(** X21.  With [MQTT_BASE] set to a value that ends in a slash, the two
    services part: the gateway keeps the slash, the router removes it, so
    the router does not listen where the gateway publishes transcripts,
    nor the gateway where the router publishes replies. *)
Theorem trailing_slash_splits_the_topics environ secs c r :
  py_isspace c = false -> ~ In 35%N (c :: r) ->
  environ (T "MQTT_BASE") = Some ((c :: r) ++ T "/") ->
  VoiceGateway.base_of environ = (c :: r) ++ T "/"
  /\ DialogueRouter.base_of environ = rstrip_chars (T "/") (c :: r)
  /\ @VoiceGateway.TOPIC_STT_TEXT (gateway_config environ secs)
     <> @DialogueRouter.TOPIC_STT (router_config environ)
  /\ @DialogueRouter.TOPIC_TTS (router_config environ)
     <> @VoiceGateway.TOPIC_TTS_SAY (gateway_config environ secs).
Proof.
  intros Hc Hv He.
  assert (Hg : VoiceGateway.base_of environ = (c :: r) ++ T "/").
  { apply (clean_base environ He).
    - intro Hin. apply in_app_or in Hin as [Hin|Hin]; [now apply Hv|].
      cbn in Hin. destruct Hin as [Hin|[]]. discriminate.
    - split.
      + cbn. now rewrite Hc.
      + rewrite rev_app_distr. reflexivity. }
  assert (Hr : DialogueRouter.base_of environ = rstrip_chars (T "/") (c :: r)).
  { unfold DialogueRouter.base_of. rewrite He. apply rstrip_slash_last. }
  assert (Hne : VoiceGateway.base_of environ <> DialogueRouter.base_of environ).
  { rewrite Hg, Hr. intro E. apply (f_equal (@List.length N)) in E.
    pose proof (rstrip_chars_length (T "/") (c :: r)) as Hl.
    rewrite length_app in E. cbn in E, Hl. lia. }
  split; [exact Hg|]. split; [exact Hr|].
  unfold VoiceGateway.TOPIC_STT_TEXT, DialogueRouter.TOPIC_STT,
    DialogueRouter.TOPIC_TTS, VoiceGateway.TOPIC_TTS_SAY.
  cbn [VoiceGateway.BASE DialogueRouter.MQTT_BASE gateway_config router_config].
  split; intro E; apply app_inv_tail in E; congruence.
Qed.

(** X22.  Only the gateway (and the wake listener) drop an inline comment: with
    [MQTT_BASE] set to [v # note] the gateway's base holds no [#] while
    the router's does, and again the topics of the two services differ. *)
Theorem commented_base_splits_the_topics environ secs v note :
  environ (T "MQTT_BASE") = Some (v ++ 35%N :: note) ->
  ~ In 35%N (VoiceGateway.base_of environ)
  /\ In 35%N (DialogueRouter.base_of environ)
  /\ @VoiceGateway.TOPIC_STT_TEXT (gateway_config environ secs)
     <> @DialogueRouter.TOPIC_STT (router_config environ)
  /\ @DialogueRouter.TOPIC_TTS (router_config environ)
     <> @VoiceGateway.TOPIC_TTS_SAY (gateway_config environ secs).
Proof.
  intro He.
  assert (Hg : ~ In 35%N (VoiceGateway.base_of environ)).
  { unfold VoiceGateway.base_of, VoiceGateway.env_str, VoiceGateway._clean_env.
    intro H. apply In_strip in H. exact (not_In_before _ _ H). }
  assert (Hr : In 35%N (DialogueRouter.base_of environ)).
  { unfold DialogueRouter.base_of, rstrip_chars. rewrite He.
    apply -> in_rev. apply In_lstrip_chars; [reflexivity|].
    apply in_rev. rewrite rev_involutive. apply in_or_app. right. now left. }
  split; [exact Hg|]. split; [exact Hr|].
  unfold VoiceGateway.TOPIC_STT_TEXT, DialogueRouter.TOPIC_STT,
    DialogueRouter.TOPIC_TTS, VoiceGateway.TOPIC_TTS_SAY.
  cbn [VoiceGateway.BASE DialogueRouter.MQTT_BASE gateway_config router_config].
  split; intro E; apply app_inv_tail in E; rewrite E in *; contradiction.
Qed.
End TopicBase.

(* ================================================================== *)
(** * The theorems on concrete runs *)

#[local] Existing Instance wake_defaults.
#[local] Existing Instance gateway_defaults.
#[local] Existing Instance gateway_lib.
#[local] Existing Instance router_defaults.
#[local] Existing Instance router_lib.

(** A wake event of the recognizer. *)
Definition ok_nabu : WakeListener.event :=
  {| WakeListener.ev_type := T "wake";
     WakeListener.ev_data := [(T "name", JStr (T "ok_nabu"))] |}.

(** Everything goes well during the hand-off. *)
Definition smooth : WakeListener.handoff_env :=
  {| WakeListener.beep_ok := true;
     WakeListener.pump_at_cancel := WakeListener.StillRunning;
     WakeListener.stop := WakeListener.ExitsOnTerminate;
     WakeListener.respawn_ok := true |}.

(** arecord does not exit, neither on SIGTERM nor on SIGKILL, within the
    two one-second waits. *)
Definition stuck : WakeListener.handoff_env :=
  {| WakeListener.beep_ok := true;
     WakeListener.pump_at_cancel := WakeListener.StillRunning;
     WakeListener.stop := WakeListener.Unresponsive;
     WakeListener.respawn_ok := true |}.

Definition started : WakeListener.startup_env :=
  {| WakeListener.connect_ok := true; WakeListener.start_ok := true;
     WakeListener.spawn_ok := true |}.

Definition tidy : WakeListener.cleanup_env :=
  {| WakeListener.c_pump := WakeListener.StillRunning;
     WakeListener.c_stop := WakeListener.ExitsOnTerminate;
     WakeListener.c_drained := true; WakeListener.c_stderr := false |}.

(** A clock reading of November 2023, in seconds since the epoch. *)
Definition a_clock_reading : Q := 1700000000.

(** A capture session that hears "hi" one second into the wait. *)
Definition hi_event : VoiceGateway.event :=
  {| VoiceGateway.type := T "transcript"; VoiceGateway.text_field := JStr (T "hi") |}.

Definition blank_event : VoiceGateway.event :=
  {| VoiceGateway.type := T "transcript"; VoiceGateway.text_field := JStr [] |}.

Definition hears (ev : VoiceGateway.event) : VoiceGateway.capture_env :=
  {| VoiceGateway.spawn_ok := true; VoiceGateway.connect_ok := true;
     VoiceGateway.start_ok := true;
     VoiceGateway.chunks := [([x01; x00], true)];
     VoiceGateway.stop := VoiceGateway.StopEof;
     VoiceGateway.stop_ok := true;
     VoiceGateway.t0 := 100%Q;
     VoiceGateway.arrivals := [(101%Q, VoiceGateway.GotEvent ev)];
     VoiceGateway.communicate := VoiceGateway.CommExited false |}.

(** A capture session that reads [ev], and would read [ev'] a second
    later. *)
Definition hears_then (ev ev' : VoiceGateway.event) : VoiceGateway.capture_env :=
  {| VoiceGateway.spawn_ok := true; VoiceGateway.connect_ok := true;
     VoiceGateway.start_ok := true;
     VoiceGateway.chunks := [([x01; x00], true)];
     VoiceGateway.stop := VoiceGateway.StopEof;
     VoiceGateway.stop_ok := true;
     VoiceGateway.t0 := 100%Q;
     VoiceGateway.arrivals := [(101%Q, VoiceGateway.GotEvent ev);
                               (102%Q, VoiceGateway.GotEvent ev')];
     VoiceGateway.communicate := VoiceGateway.CommExited false |}.

(** A capture session whose connection breaks while the audio is sent. *)
Definition broken : VoiceGateway.capture_env :=
  {| VoiceGateway.spawn_ok := true; VoiceGateway.connect_ok := true;
     VoiceGateway.start_ok := true;
     VoiceGateway.chunks := [([x01; x00], false)];
     VoiceGateway.stop := VoiceGateway.StopEof;
     VoiceGateway.stop_ok := false;
     VoiceGateway.t0 := 100%Q;
     VoiceGateway.arrivals := [];
     VoiceGateway.communicate := VoiceGateway.CommExited false |}.

Definition silent_tts : VoiceGateway.tts_env :=
  {| VoiceGateway.tts_connect_ok := true; VoiceGateway.tts_write_ok := true;
     VoiceGateway.replies := []; VoiceGateway.aplay := VoiceGateway.AplayOk |}.

Definition world_of (e : VoiceGateway.capture_env) : VoiceGateway.world :=
  {| VoiceGateway.w_capture := e; VoiceGateway.w_tts := silent_tts |}.

Definition busy_gateway : VoiceGateway.state :=
  {| VoiceGateway.stt_busy := true;
     VoiceGateway.tasks := [VoiceGateway.new_task 3 (hears hi_event)];
     VoiceGateway.threads := [] |}.



(** C2, counterexample.  arecord answers neither SIGTERM nor SIGKILL
    within the two one-second waits; [stop_arecord] returns all the same,
    and the capture request is published while the exit of the process
    has not been confirmed. *)
Lemma unresponsive_arecord_not_confirmed :
  exists pre p post,
    fst (WakeListener.run_stream true started
           [WakeListener.Event ok_nabu a_clock_reading stuck] tidy)
    = pre ++ Publish WakeListener.TOPIC_STT_CAPTURE p :: post
    /\ proc_after pre = GaveUp
    /\ holder_active Wake false pre = true.
Proof.
  exists (startup_trace
          ++ [Recv WakeServer; Log (LogWakeDetected (WakeListener.wake_payload ok_nabu));
              Publish WakeListener.TOPIC_WAKE (WakeListener.wake_payload ok_nabu);
              Beep; Log LogWakePausing; CancelPump; AwaitPump;
              Terminate Wake; WaitTimedOut Wake; Kill Wake; WaitTimedOut Wake]),
         (PText (str_of_Z 3)),
         [Sleep resume_delay; Log LogWakeStart; Spawn Wake None; StartPump].
  vm_compute. repeat split.
Qed.

Lemma suspend_awaits_pump_then_process_witness :
  pump_after
    (startup_trace
     ++ [Recv WakeServer; Log (LogWakeDetected (WakeListener.wake_payload ok_nabu));
         Publish WakeListener.TOPIC_WAKE (WakeListener.wake_payload ok_nabu);
         Beep; Log LogWakePausing; CancelPump; AwaitPump;
         Terminate Wake; Exited Wake]) = PumpSettled
  /\ (proc_after
        (startup_trace
         ++ [Recv WakeServer; Log (LogWakeDetected (WakeListener.wake_payload ok_nabu));
             Publish WakeListener.TOPIC_WAKE (WakeListener.wake_payload ok_nabu);
             Beep; Log LogWakePausing; CancelPump; AwaitPump;
             Terminate Wake; Exited Wake]) = Gone
      \/ proc_after
           (startup_trace
            ++ [Recv WakeServer; Log (LogWakeDetected (WakeListener.wake_payload ok_nabu));
                Publish WakeListener.TOPIC_WAKE (WakeListener.wake_payload ok_nabu);
                Beep; Log LogWakePausing; CancelPump; AwaitPump;
                Terminate Wake; Exited Wake]) = GaveUp).
Proof.
  refine (proj2 (@suspend_awaits_pump_then_process _ true started
                   [WakeListener.Event ok_nabu a_clock_reading smooth] tidy _ _
                   [Sleep resume_delay; Log LogWakeStart; Spawn Wake None; StartPump] _)
            (PText (str_of_Z 3)) eq_refl).
  vm_compute. reflexivity.
Defined.

(** A capture session that hears "hi", and whose arecord has not exited
    when the two seconds granted to [proc.communicate()] are over. *)
Definition lingering : VoiceGateway.capture_env :=
  {| VoiceGateway.spawn_ok := true; VoiceGateway.connect_ok := true;
     VoiceGateway.start_ok := true;
     VoiceGateway.chunks := [([x01; x00], true)];
     VoiceGateway.stop := VoiceGateway.StopEof;
     VoiceGateway.stop_ok := true;
     VoiceGateway.t0 := 100%Q;
     VoiceGateway.arrivals := [(101%Q, VoiceGateway.GotEvent hi_event)];
     VoiceGateway.communicate := VoiceGateway.CommNotExited |}.

(** C3, counterexample.  The first session ends while its arecord still
    runs (the wait for it timed out): the callback clears the busy flag
    all the same, the next capture request is accepted, and its arecord is
    spawned while the first has not been seen to exit. *)
Lemma second_capture_overlaps_the_first :
  snd (VoiceGateway.run VoiceGateway.initial
         (one_session (T "3") (world_of lingering)
          ++ [VoiceGateway.Message VoiceGateway.TOPIC_STT_CAP (T "3")
                (world_of (hears hi_event));
              VoiceGateway.LoopRuns 0; VoiceGateway.LoopRuns 0]))
  = (snd (VoiceGateway.run VoiceGateway.initial (one_session (T "3") (world_of lingering)))
     ++ [Log (LogMqtt VoiceGateway.TOPIC_STT_CAP (T "3")); SetBusy; Log (LogSttStart 3)])
    ++ [Spawn Capture (Some 3)]
  /\ In ClearBusy
       (snd (VoiceGateway.run VoiceGateway.initial
               (one_session (T "3") (world_of lingering))))
  /\ In (WaitTimedOut Capture)
       (snd (VoiceGateway.run VoiceGateway.initial
               (one_session (T "3") (world_of lingering))))
  /\ holder_active Capture false
       (snd (VoiceGateway.run VoiceGateway.initial
               (one_session (T "3") (world_of lingering)))
        ++ [Log (LogMqtt VoiceGateway.TOPIC_STT_CAP (T "3")); SetBusy; Log (LogSttStart 3)])
     = true.
Proof. vm_compute. repeat split; auto 30. Qed.

Lemma busy_capture_request_is_dropped_witness :
  VoiceGateway.on_message busy_gateway VoiceGateway.TOPIC_STT_CAP (T "3")
    (world_of (hears hi_event))
  = (busy_gateway, [Log (LogMqtt VoiceGateway.TOPIC_STT_CAP (T "3")); Log LogSttBusy]).
Proof.
  apply (proj1 busy_capture_request_is_dropped busy_gateway (T "3")
           (world_of (hears hi_event))).
  reflexivity.
Defined.




(** C5, counterexample.  The connection to the recognizer breaks while
    the audio is sent: [stt_once] raises out of its first [try] block; the
    session is never disconnected and the arecord it spawned is neither
    signalled nor waited for. *)
Lemma broken_session_is_not_cleaned_up :
  VoiceGateway.stt_once 3 broken tt
  = ([Log (LogSttStart 3); Spawn Capture (Some 3); Connect SttServer;
      Send SttServer AudioStart], tt, Raise WriteError)
  /\ existsb (is_disconnect SttServer) (session_trace 3 broken) = false
  /\ existsb (is_stop_signal Capture) (session_trace 3 broken) = false
  /\ holder_active Capture false (session_trace 3 broken) = true.
Proof. vm_compute. repeat split. Qed.

Lemma capture_session_cleanup_witness :
  In (Disconnect SttServer) (session_trace 3 (hears hi_event)).
Proof.
  exact (proj1 (proj2 (proj2 (@capture_session_cleanup _ _ VoiceGateway.initial (T "3")
                                (world_of (hears hi_event)) eq_refl eq_refl)))
           eq_refl).
Defined.

(** C6, counterexample.  The recognizer answers a three-second capture
    with a transcript event whose text is empty, one second into the wait
    and five seconds before the deadline: the wait ends there and nothing
    is published on stt/text, also when a transcript event with the text
    "hi" follows a second later, still before the deadline. *)
Lemma blank_transcript_publishes_nothing :
  VoiceGateway.is_transcript blank_event = true
  /\ VoiceGateway.is_transcript hi_event = true
  /\ Qltb 102 (VoiceGateway.deadline 3 (hears blank_event)) = true
  /\ published VoiceGateway.TOPIC_STT_TEXT
       (snd (VoiceGateway.run VoiceGateway.initial
               (one_session (T "3") (world_of (hears blank_event))))) = []
  /\ published VoiceGateway.TOPIC_STT_TEXT
       (snd (VoiceGateway.run VoiceGateway.initial
               (one_session (T "3") (world_of (hears_then blank_event hi_event))))) = [].
Proof. vm_compute. repeat split. Qed.

Lemma transcript_published_or_nothing_witness :
  published VoiceGateway.TOPIC_STT_TEXT
    (snd (VoiceGateway.run VoiceGateway.initial
            (one_session (T "3") (world_of (hears_then hi_event blank_event)))))
  = [transcript_payload (JStr (T "hi")) 3]
  /\ reads (session_trace 3 (hears_then hi_event blank_event)) = 1%nat.
Proof.
  refine (proj1 (proj2 (proj2 (@transcript_published_or_nothing _ _ VoiceGateway.initial
                                 (T "3") (world_of (hears_then hi_event blank_event))
                                 eq_refl eq_refl)))
            [] 101%Q hi_event [(102%Q, VoiceGateway.GotEvent blank_event)]
            eq_refl eq_refl (Forall_nil _) _ eq_refl).
  reflexivity.
Defined.

Lemma blank_say_is_a_noop_witness :
  VoiceGateway.tts_play_48k (strip (T "  ")) silent_tts tt = ([], tt, Ok tt).
Proof.
  apply (proj1 (proj2 (@blank_say_is_a_noop _ _ VoiceGateway.initial (T "  ")
                         (world_of (hears hi_event)) eq_refl))).
Defined.


Definition mono_22k : VoiceGateway.audio_format :=
  {| VoiceGateway.rate := 22050; VoiceGateway.width := 2; VoiceGateway.channels := 1 |}.



(** C9, counterexample.  The payload "abc" on stt/capture spawns a
    capture process, and the payload "{oops" on stt/text makes the router
    publish a reply. *)
Lemma malformed_payloads_trigger_actions :
  existsb (is_spawn Capture)
    (snd (VoiceGateway.run VoiceGateway.initial
            (one_session (T "abc") (world_of (hears hi_event))))) = true
  /\ published DialogueRouter.TOPIC_TTS
       (fst (fst (DialogueRouter.on_message (T "{oops") (T "It is 1:00 PM.") tt)))
     = [PText (T "I didn't catch that.")].
Proof. vm_compute. split; reflexivity. Qed.

Lemma malformed_payload_is_served_witness :
  DialogueRouter.on_message (T "{oops") (T "It is 1:00 PM.") tt
  = ([Log (LogDialogue [] (T "I didn't catch that."));
      Publish DialogueRouter.TOPIC_TTS (PText (T "I didn't catch that."))],
     tt, Ok tt).
Proof.
  apply (proj1 (proj2 malformed_payload_is_served) (T "{oops") (T "It is 1:00 PM."));
    reflexivity.
Defined.

(** A transcript event whose text is the number 5. *)
Definition five_event : VoiceGateway.event :=
  {| VoiceGateway.type := T "transcript"; VoiceGateway.text_field := JInt 5 |}.

(** C10, counterexample.  The recognizer answers with a transcript event
    whose text field is the number 5: it is not a string, it is true for
    Python, and [{"text": 5, "secs": 3}] is published on stt/text. *)
Lemma numeric_text_is_published :
  VoiceGateway.is_transcript five_event = true
  /\ VoiceGateway.text_field five_event = JInt 5
  /\ published VoiceGateway.TOPIC_STT_TEXT
       (snd (VoiceGateway.run VoiceGateway.initial
               (one_session (T "3") (world_of (hears five_event)))))
     = [PJson (JObj [(T "text", JInt 5); (T "secs", JInt 3)])].
Proof. vm_compute. repeat split. Qed.

Lemma publish_needs_true_text_witness :
  published VoiceGateway.TOPIC_STT_TEXT
    (snd (VoiceGateway.run VoiceGateway.initial
            (one_session (T "3") (world_of (hears blank_event))))) = [].
Proof.
  refine (proj1 (proj1 (proj2 (@publish_needs_true_text _ _ VoiceGateway.initial (T "3")
                                 (world_of (hears blank_event)) eq_refl eq_refl))
                   [] 101%Q blank_event [] eq_refl eq_refl (Forall_nil _) _ eq_refl
                   eq_refl)).
  reflexivity.
Defined.


(** ** Further properties, on concrete inputs *)

Lemma startswith_firstn p : forall s,
  startswith p s = true -> firstn (List.length p) s = p.
Proof.
  induction p as [|x p IH]; intros [|y s]; cbn [startswith firstn List.length];
    try reflexivity; try discriminate.
  intro H. apply andb_true_iff in H as [Hx Hp]. apply N.eqb_eq in Hx.
  subst. f_equal. now apply IH.
Qed.

Lemma identity_lower_keeps_space s :
  startswith (T "say ") s = true -> nth_error s 3 = Some 32%N.
Proof.
  intro H. apply startswith_firstn in H.
  destruct s as [|a [|b [|c [|d u]]]]; try discriminate.
  cbn in H. injection H as _ _ _ ->. reflexivity.
Qed.

Lemma router_always_replies_witness :
  exists heard reply,
    reply = DialogueRouter.intent_reply (T "It is 01:00 PM.") heard /\ reply <> []
    /\ DialogueRouter.on_message (T "hello") (T "It is 01:00 PM.") tt =
       ([Log (LogDialogue heard reply); Publish DialogueRouter.TOPIC_TTS (PText reply)],
        tt, Ok tt).
Proof.
  apply (router_always_replies (T "hello") (clock := T "It is 01:00 PM.")). discriminate.
Defined.

Lemma say_echoes_the_rest_witness :
  DialogueRouter.intent_reply (T "It is 01:00 PM.") (T " say hello there ")
  = T "hello there" /\ T "hello there" <> [].
Proof.
  exact (say_echoes_the_rest (T "It is 01:00 PM.") (T " say hello there ")
           identity_lower_keeps_space eq_refl).
Defined.

Lemma time_reply_keeps_padded_hour_witness :
  DialogueRouter.intent_reply (DialogueRouter.time_reply (T "09") (T "05") (T "AM"))
    (T "what time is it")
  = T "It is 09:05 AM.".
Proof.
  apply (time_reply_keeps_padded_hour (T "09") (T "05") (T "AM") (T "what time is it")).
  - discriminate.
  - reflexivity.
  - reflexivity.
Defined.

(** The payload [{"text": " say hi ", "secs": 3}], and a decoder that
    knows this payload only. *)
Definition hi_json : text :=
  T "{" ++ [34%N] ++ T "text" ++ [34%N] ++ T ": " ++ [34%N] ++ T " say hi " ++ [34%N]
  ++ T ", " ++ [34%N] ++ T "secs" ++ [34%N] ++ T ": 3}".

Definition one_json_lib : DialogueRouter.PyLib :=
  {| DialogueRouter.json_loads := fun s =>
       if text_eqb s hi_json
       then Some (JObj [(T "text", JStr (T " say hi ")); (T "secs", JInt 3)])
       else None;
     DialogueRouter.lower := fun s => s |}.

Lemma json_envelope_witness :
  @DialogueRouter.on_message router_defaults one_json_lib hi_json (T "It is 01:00 PM.") tt
  = ([Log (LogDialogue (T "say hi") (T "hi"));
      Publish (@DialogueRouter.TOPIC_TTS router_defaults) (PText (T "hi"))], tt, Ok tt).
Proof.
  exact (proj1 (@json_envelope router_defaults one_json_lib hi_json (T "It is 01:00 PM.")
                  [(T "text", JStr (T " say hi ")); (T "secs", JInt 3)] eq_refl eq_refl)
           (T " say hi ") eq_refl).
Defined.

Definition port_environ : text -> option text :=
  fun name => if text_eqb name (T "MQTT_PORT") then Some (T " 1883 # broker")
              else if text_eqb name (T "AUDIO_RATE") then Some (T "  # default")
              else None.

Lemma clean_env_drops_comment_witness :
  VoiceGateway._clean_env port_environ (T "MQTT_PORT") (T "1883") = T "1883"
  /\ VoiceGateway._clean_env (fun _ => Some (T " 1883 ")) (T "MQTT_PORT") (T "1883") = T "1883".
Proof.
  apply (@clean_env_drops_comment port_environ (T "MQTT_PORT") (T "1883")
           (T " 1883 ") (T " broker")).
  - vm_compute. intuition discriminate.
  - reflexivity.
Defined.

Lemma blank_env_value_is_not_defaulted_witness :
  (forall default, VoiceGateway._clean_env port_environ (T "AUDIO_RATE") default = [])
  /\ (VoiceGateway.int_float [] = None ->
      forall default, VoiceGateway.env_int port_environ (T "AUDIO_RATE") default = None).
Proof.
  apply (@blank_env_value_is_not_defaulted _ port_environ (T "AUDIO_RATE") (T "  ")).
  - reflexivity.
  - right. exists (T " default"). reflexivity.
Defined.


(** The pump task has raised [WriteError]: the wake server went away. *)
Definition pump_lost : WakeListener.cleanup_env :=
  {| WakeListener.c_pump := WakeListener.Crashed WriteError;
     WakeListener.c_stop := WakeListener.ExitsOnTerminate;
     WakeListener.c_drained := true; WakeListener.c_stderr := false |}.

Lemma wake_cleanup_completes_witness :
  snd (WakeListener.run_stream true started
         [WakeListener.Event ok_nabu a_clock_reading smooth; WakeListener.Closed] tidy)
  = snd (WakeListener.listen_loop true
           [WakeListener.Event ok_nabu a_clock_reading smooth; WakeListener.Closed]
           WakeListener.initial_vars)
  /\ (exists tr',
        fst (WakeListener.run_stream true started
               [WakeListener.Event ok_nabu a_clock_reading smooth; WakeListener.Closed] tidy)
        = tr' ++ [Disconnect WakeServer])
  /\ pump_after
       (fst (WakeListener.run_stream true started
               [WakeListener.Event ok_nabu a_clock_reading smooth; WakeListener.Closed] tidy))
     = PumpSettled
  /\ released
       (proc_after
          (fst (WakeListener.run_stream true started
                  [WakeListener.Event ok_nabu a_clock_reading smooth; WakeListener.Closed]
                  tidy))) = true.
Proof.
  apply (@wake_cleanup_completes _ true started
           [WakeListener.Event ok_nabu a_clock_reading smooth; WakeListener.Closed] tidy);
    try reflexivity.
  vm_compute. discriminate.
Defined.

Lemma crashed_pump_defeats_cleanup_witness :
  snd (WakeListener.run_stream true started
         ([WakeListener.Event ok_nabu a_clock_reading smooth]
          ++ [WakeListener.ReadFails ReadError]) pump_lost)
  = Raise WriteError
  /\ (exists tr',
        fst (WakeListener.run_stream true started
               ([WakeListener.Event ok_nabu a_clock_reading smooth]
                ++ [WakeListener.ReadFails ReadError]) pump_lost)
        = tr' ++ [CancelPump; AwaitPump])
  /\ existsb (is_disconnect WakeServer)
       (fst (WakeListener.run_stream true started
               ([WakeListener.Event ok_nabu a_clock_reading smooth]
                ++ [WakeListener.ReadFails ReadError]) pump_lost)) = false
  /\ proc_after
       (fst (WakeListener.run_stream true started
               ([WakeListener.Event ok_nabu a_clock_reading smooth]
                ++ [WakeListener.ReadFails ReadError]) pump_lost)) = Running.
Proof.
  apply (@crashed_pump_defeats_cleanup _ true started
           [WakeListener.Event ok_nabu a_clock_reading smooth]
           (WakeListener.ReadFails ReadError) pump_lost WriteError);
    try reflexivity.
  right. exists ReadError. reflexivity.
Defined.

Lemma restart_spawns_beside_abandoned_arecord_witness :
  exists post,
    fst (WakeListener.main_async
           [(started, [] ++ [WakeListener.ReadFails ReadError], pump_lost);
            (started, [], tidy)])
    = (fst (WakeListener.run_stream true started
              ([] ++ [WakeListener.ReadFails ReadError]) pump_lost)
       ++ [Log (LogWakeError WriteError); Sleep (1 # 2);
           Connect WakeServer; Send WakeServer AudioStart; Log LogWakeStart])
      ++ Spawn Wake None :: post
    /\ proc_after
         (fst (WakeListener.run_stream true started
                 ([] ++ [WakeListener.ReadFails ReadError]) pump_lost)
          ++ [Log (LogWakeError WriteError); Sleep (1 # 2);
              Connect WakeServer; Send WakeServer AudioStart; Log LogWakeStart])
       = Running.
Proof.
  apply (@restart_spawns_beside_abandoned_arecord _ started []
           (WakeListener.ReadFails ReadError) pump_lost WriteError started [] tidy []);
    try reflexivity.
  right. exists ReadError. reflexivity.
Defined.


Lemma wake_request_starts_capture_witness :
  exists raw,
    PText (T "3") = PText raw
    /\ VoiceGateway.on_message VoiceGateway.initial WakeListener.TOPIC_STT_CAPTURE raw
         (world_of (hears hi_event))
       = ({| VoiceGateway.stt_busy := true;
             VoiceGateway.tasks :=
               VoiceGateway.tasks VoiceGateway.initial
               ++ [VoiceGateway.new_task WakeListener.CAPTURE_SECS
                     (VoiceGateway.w_capture (world_of (hears hi_event)))];
             VoiceGateway.threads := VoiceGateway.threads VoiceGateway.initial |},
          [Log (LogMqtt VoiceGateway.TOPIC_STT_CAP raw); SetBusy]).
Proof.
  apply (@wake_request_starts_capture _ _ _ true started
           [WakeListener.Event ok_nabu a_clock_reading smooth] tidy
           (PText (T "3")) VoiceGateway.initial (world_of (hears hi_event))).
  - reflexivity.
  - reflexivity.
  - vm_compute. left. reflexivity.
  - reflexivity.
Defined.


Lemma session_frames_the_audio_witness :
  sent (session_trace 3 (hears hi_event))
  = AudioStart :: map AudioChunk (forwarded [([x01; x00], true)]) ++ [AudioStop].
Proof.
  apply (@session_frames_the_audio 3 (hears hi_event)); reflexivity.
Defined.

(** An event of another type. *)
Definition info_event : VoiceGateway.event :=
  {| VoiceGateway.type := T "info"; VoiceGateway.text_field := JNull |}.

Lemma deadline_expiry_is_an_error_witness :
  session_result 3 (hears info_event) = Raise TimeoutError
  /\ (exists before,
        session_trace 3 (hears info_event)
        = before ++ repeat (Recv SttServer) 1 ++ [Disconnect SttServer])
  /\ existsb is_drain (session_trace 3 (hears info_event)) = false
  /\ VoiceGateway.done (VoiceGateway.new_task 3 (hears info_event))
     = [Log (LogSttError TimeoutError); ClearBusy].
Proof.
  apply (@deadline_expiry_is_an_error _ 3 (hears info_event)
           [(101%Q, VoiceGateway.GotEvent info_event)] []).
  - reflexivity.
  - reflexivity.
  - constructor; [|constructor]. split; [reflexivity|].
    exists info_event. split; reflexivity.
  - left. reflexivity.
Defined.


(** A synthesis reply in two chunks, with an event of another type in
    between and a chunk after audio-stop. *)
Definition spoken : VoiceGateway.tts_env :=
  {| VoiceGateway.tts_connect_ok := true; VoiceGateway.tts_write_ok := true;
     VoiceGateway.replies :=
       [VoiceGateway.TAudioStart mono_22k; VoiceGateway.TAudioChunk [x01];
        VoiceGateway.TOther; VoiceGateway.TAudioChunk [x00];
        VoiceGateway.TAudioStop; VoiceGateway.TAudioChunk [x02; x00]];
     VoiceGateway.aplay := VoiceGateway.AplayOk |}.

(** A synthesis reply without samples. *)
Definition mute : VoiceGateway.tts_env :=
  {| VoiceGateway.tts_connect_ok := true; VoiceGateway.tts_write_ok := true;
     VoiceGateway.replies := [VoiceGateway.TAudioStart mono_22k; VoiceGateway.TAudioStop];
     VoiceGateway.aplay := VoiceGateway.AplayOk |}.

Lemma synth_collects_the_audio_witness :
  VoiceGateway.synth (T "hi") spoken tt
  = ([Connect TtsServer; Send TtsServer (Synthesize (T "hi"))]
     ++ repeat (Recv TtsServer) 5 ++ [Disconnect TtsServer],
     tt, Ok (Some (wav_header_48k_mono16 2 ++ [x01; x00]))).
Proof.
  exact (@synth_collects_the_audio _ (T "hi") spoken
           [VoiceGateway.TAudioStart mono_22k; VoiceGateway.TAudioChunk [x01];
            VoiceGateway.TOther; VoiceGateway.TAudioChunk [x00]]
           VoiceGateway.TAudioStop [VoiceGateway.TAudioChunk [x02; x00]]
           eq_refl eq_refl eq_refl eq_refl eq_refl).
Defined.

Lemma silent_reply_is_not_played_witness :
  VoiceGateway.tts_play_48k (T "hi") mute tt
  = (Log (LogTts (T "hi")) :: Connect TtsServer :: Send TtsServer (Synthesize (T "hi"))
     :: repeat (Recv TtsServer) 2 ++ [Disconnect TtsServer; Log LogTtsNoAudio], tt, Ok tt).
Proof.
  apply (@silent_reply_is_not_played _ (T "hi") mute
           [VoiceGateway.TAudioStart mono_22k] VoiceGateway.TAudioStop []);
    try reflexivity.
  - discriminate.
  - right. reflexivity.
Defined.

Lemma playback_follows_synthesis_witness :
  In (Disconnect TtsServer)
    ([Log (LogTts (T "hi")); Connect TtsServer; Send TtsServer (Synthesize (T "hi"))]
     ++ repeat (Recv TtsServer) 5 ++ [Disconnect TtsServer; Log LogTtsPlaying])
  /\ wav_header_48k_mono16 2 ++ [x01; x00] <> []
  /\ existsb is_aplay
       ([Log (LogTts (T "hi")); Connect TtsServer; Send TtsServer (Synthesize (T "hi"))]
        ++ repeat (Recv TtsServer) 5 ++ [Disconnect TtsServer; Log LogTtsPlaying]) = false
  /\ existsb is_aplay [] = false.
Proof.
  exact (proj2 (@playback_follows_synthesis _ (T "hi") spoken)
           ([Log (LogTts (T "hi")); Connect TtsServer; Send TtsServer (Synthesize (T "hi"))]
            ++ repeat (Recv TtsServer) 5 ++ [Disconnect TtsServer; Log LogTtsPlaying])
           (wav_header_48k_mono16 2 ++ [x01; x00]) [] eq_refl).
Defined.



Lemma cooldown_collapses_a_burst_witness :
  published WakeListener.TOPIC_WAKE
    (fst (WakeListener.run_stream true started
            [WakeListener.Event ok_nabu a_clock_reading smooth;
             WakeListener.Event ok_nabu (a_clock_reading + (1 # 4)) smooth;
             WakeListener.Event ok_nabu (a_clock_reading + (1 # 2)) stuck;
             WakeListener.Event ok_nabu (a_clock_reading + (3 # 4)) smooth] tidy))
  = [WakeListener.wake_payload ok_nabu]
  /\ (crashed (WakeListener.pump_at_cancel smooth) = false ->
      published WakeListener.TOPIC_STT_CAPTURE
        (fst (WakeListener.run_stream true started
                [WakeListener.Event ok_nabu a_clock_reading smooth;
                 WakeListener.Event ok_nabu (a_clock_reading + (1 # 4)) smooth;
                 WakeListener.Event ok_nabu (a_clock_reading + (1 # 2)) stuck;
                 WakeListener.Event ok_nabu (a_clock_reading + (3 # 4)) smooth] tidy))
      = [PText (str_of_Z WakeListener.CAPTURE_SECS)]).
Proof.
  apply (@cooldown_collapses_a_burst _ started tidy ok_nabu a_clock_reading smooth
           [WakeListener.Event ok_nabu (a_clock_reading + (1 # 4)) smooth;
            WakeListener.Event ok_nabu (a_clock_reading + (1 # 2)) stuck;
            WakeListener.Event ok_nabu (a_clock_reading + (3 # 4)) smooth]);
    try reflexivity.
  - vm_compute. discriminate.
  - repeat constructor; do 3 eexists; (split; [reflexivity|vm_compute; reflexivity]).
Defined.

Definition plain_environ : text -> option text :=
  fun name => if text_eqb name (T "MQTT_BASE") then Some (T "home/robot") else None.

Definition slash_environ : text -> option text :=
  fun name => if text_eqb name (T "MQTT_BASE") then Some (T "robot" ++ T "/") else None.

Definition noted_environ : text -> option text :=
  fun name => if text_eqb name (T "MQTT_BASE") then Some (T "robot " ++ 35%N :: T " dev")
              else None.

Lemma clean_base_is_shared_witness :
  @VoiceGateway.TOPIC_STT_TEXT (gateway_config plain_environ 3)
  = @DialogueRouter.TOPIC_STT (router_config plain_environ)
  /\ @DialogueRouter.TOPIC_TTS (router_config plain_environ)
     = @VoiceGateway.TOPIC_TTS_SAY (gateway_config plain_environ 3).
Proof.
  apply (clean_base_is_shared plain_environ 3).
  right. exists (T "home/robot"). split; [reflexivity|]. split.
  - vm_compute. intuition discriminate.
  - split; [split; reflexivity|reflexivity].
Defined.

Lemma trailing_slash_splits_the_topics_witness :
  VoiceGateway.base_of slash_environ = T "robot" ++ T "/"
  /\ DialogueRouter.base_of slash_environ = rstrip_chars (T "/") (T "robot")
  /\ @VoiceGateway.TOPIC_STT_TEXT (gateway_config slash_environ 3)
     <> @DialogueRouter.TOPIC_STT (router_config slash_environ)
  /\ @DialogueRouter.TOPIC_TTS (router_config slash_environ)
     <> @VoiceGateway.TOPIC_TTS_SAY (gateway_config slash_environ 3).
Proof.
  apply (@trailing_slash_splits_the_topics slash_environ 3 114%N (T "obot")).
  - reflexivity.
  - vm_compute. intuition discriminate.
  - reflexivity.
Defined.

Lemma commented_base_splits_the_topics_witness :
  ~ In 35%N (VoiceGateway.base_of noted_environ)
  /\ In 35%N (DialogueRouter.base_of noted_environ)
  /\ @VoiceGateway.TOPIC_STT_TEXT (gateway_config noted_environ 3)
     <> @DialogueRouter.TOPIC_STT (router_config noted_environ)
  /\ @DialogueRouter.TOPIC_TTS (router_config noted_environ)
     <> @VoiceGateway.TOPIC_TTS_SAY (gateway_config noted_environ 3).
Proof.
  apply (@commented_base_splits_the_topics noted_environ 3 (T "robot ") (T " dev")).
  reflexivity.
Defined.
